(** * The simulation core of the universe game: reducer, tick and projection

    A shallow embedding of [gameReducer] (the reducer of the application
    component, file [src/components/Simulation.tsx], second document) and of
    the data it works on.

    Numbers.  Every JavaScript [number] is read as a real number: the
    embedding is the exact-arithmetic reading of the code, rounding is not
    modelled.  [Math.hypot], [Math.sqrt], [Math.sin], [Math.cos] are the real
    functions, [Math.atan2] is defined below from [atan].

    Environment.  [Math.random()] is an oracle [rnd : nat -> R]; the k-th call
    made during one reducer call reads [rnd k].  [Date.now()] is one integer
    per reducer call.  The audio service calls have no effect on the state
    and are left out, and so are the [id] and colour of the ephemeral effects
    (rendering keys built from [Date.now()]); dust particles keep their id,
    because the tick compares them. *)

From Stdlib Require Import Reals Lra Lia ZArith List String Bool Psatz.
Import ListNotations.

Open Scope R_scope.

(** ** Comparisons and the [Math] functions *)

Definition Rltb (a b : R) : bool := if Rlt_dec a b then true else false.
Definition Rleb (a b : R) : bool := if Rle_dec a b then true else false.
Definition Rgtb (a b : R) : bool := Rltb b a.

Definition hypot (a b : R) : R := sqrt (a * a + b * b).

(** [Math.atan2 y x] on the reals (the sign of zero is not represented). *)
Definition atan2 (y x : R) : R :=
  if Rlt_dec 0 x then atan (y / x)
  else if Rlt_dec x 0 then
    (if Rle_dec 0 y then atan (y / x) + PI else atan (y / x) - PI)
  else if Rlt_dec 0 y then PI / 2
  else if Rlt_dec y 0 then - (PI / 2)
  else 0.

(** ** Data model *)

(** Modelled from the spec: the declaration of [NodeType] (file [types.ts]) is
    not among the sources; the variants are the six the spec lists in its data
    model, which are also the six the reducer and [getNodeImagePrompt] name. *)
Inductive NodeType : Set :=
  | player_consciousness | star | rocky_planet | life_seed | sentient_colony
  | asteroid.

Definition NodeType_eqb (a b : NodeType) : bool :=
  match a, b with
  | player_consciousness, player_consciousness | star, star
  | rocky_planet, rocky_planet | life_seed, life_seed
  | sentient_colony, sentient_colony | asteroid, asteroid => true
  | _, _ => false
  end.

Inductive PlayerState : Set :=
  | IDLE | AIMING_DIRECTION | AIMING_POWER | PROJECTING | REFORMING.

Module Node.
Record t : Type := {
  id : string; label : string; type : NodeType;
  x : R; y : R; vx : R; vy : R; radius : R;
  imageUrl : option string;
  maxIntegrity : R; currentIntegrity : R; integrityCooldown : R }.

Definition set_x (v : R) (n : t) : t :=
  {| id := id n; label := label n; type := type n; x := v; y := y n; vx := vx n; vy := vy n; radius := radius n; imageUrl := imageUrl n; maxIntegrity := maxIntegrity n; currentIntegrity := currentIntegrity n; integrityCooldown := integrityCooldown n |}.

Definition set_y (v : R) (n : t) : t :=
  {| id := id n; label := label n; type := type n; x := x n; y := v; vx := vx n; vy := vy n; radius := radius n; imageUrl := imageUrl n; maxIntegrity := maxIntegrity n; currentIntegrity := currentIntegrity n; integrityCooldown := integrityCooldown n |}.

Definition set_vx (v : R) (n : t) : t :=
  {| id := id n; label := label n; type := type n; x := x n; y := y n; vx := v; vy := vy n; radius := radius n; imageUrl := imageUrl n; maxIntegrity := maxIntegrity n; currentIntegrity := currentIntegrity n; integrityCooldown := integrityCooldown n |}.

Definition set_vy (v : R) (n : t) : t :=
  {| id := id n; label := label n; type := type n; x := x n; y := y n; vx := vx n; vy := v; radius := radius n; imageUrl := imageUrl n; maxIntegrity := maxIntegrity n; currentIntegrity := currentIntegrity n; integrityCooldown := integrityCooldown n |}.

Definition set_imageUrl (v : option string) (n : t) : t :=
  {| id := id n; label := label n; type := type n; x := x n; y := y n; vx := vx n; vy := vy n; radius := radius n; imageUrl := v; maxIntegrity := maxIntegrity n; currentIntegrity := currentIntegrity n; integrityCooldown := integrityCooldown n |}.

Definition set_currentIntegrity (v : R) (n : t) : t :=
  {| id := id n; label := label n; type := type n; x := x n; y := y n; vx := vx n; vy := vy n; radius := radius n; imageUrl := imageUrl n; maxIntegrity := maxIntegrity n; currentIntegrity := v; integrityCooldown := integrityCooldown n |}.

Definition set_integrityCooldown (v : R) (n : t) : t :=
  {| id := id n; label := label n; type := type n; x := x n; y := y n; vx := vx n; vy := vy n; radius := radius n; imageUrl := imageUrl n; maxIntegrity := maxIntegrity n; currentIntegrity := currentIntegrity n; integrityCooldown := v |}.


End Node.

Module Sat.
Record t : Type := {
  id : string; type : NodeType; imageUrl : option string; label : string;
  orbitRadius : R; orbitSpeed : R; angle : R }.
End Sat.

Module Dust.
Record t : Type := {
  id : Z * nat;   (* dust_<Date.now()>_<i> *)
  x : R; y : R; vx : R; vy : R; size : R;
  cyan : bool    (* color: '#a5f3fc' when true, '#ffffff' otherwise *) }.
End Dust.

Module Orb.
Record t : Type := { x : R; y : R; vx : R; vy : R; radius : R; value : R }.
End Orb.

Module Proj.
Record t : Type := {
  playerState : PlayerState; aimAngle : R; power : R; reformTimer : R }.
End Proj.

Module Shockwave.
Record t : Type := { x : R; y : R; maxRadius : R; life : R }.
End Shockwave.

Module FloatingText.
Record t : Type := { x : R; y : R; text : string; life : R; vy : R }.
End FloatingText.

Inductive EffectKind : Set := flare | spark.

Module VisualEffect.
Record t : Type := {
  x : R; y : R; kind : EffectKind; life : R;
  scale : option R; angle : option R }.
End VisualEffect.

Module Trail.
Record t : Type := { x : R; y : R; life : R }.
End Trail.

Record ScreenShake : Type := { intensity : R; duration : R }.

(** The fields of [GameState] the tick and the projection actions read or
    write; the other fields are carried over unchanged by every handler
    modelled here.  [aimAssist] is [settings.aimAssist]; [turnHitIds] is the
    insertion-ordered [Set] of node ids hit during the current launch. *)
Record GameState : Type := {
  isPaused : bool;
  energy : R; knowledge : R; biomass : R; karma : R;
  zoomLevel : R; tutorialStep : Z;
  nodes : list Node.t;
  satellites : list Sat.t;
  spaceDust : list Dust.t;
  energyOrbs : list Orb.t;
  projection : Proj.t;
  turnHitIds : list string;
  shockwaves : list Shockwave.t;
  floatingTexts : list FloatingText.t;
  visualEffects : list VisualEffect.t;
  projectileTrailParticles : list Trail.t;
  selectedNodeId : option string;
  aimAssistTargetId : option string;
  screenShake : ScreenShake;
  notifications : list string;
  aimAssist : bool }.

Definition set_isPaused (v : bool) (s : GameState) : GameState :=
  {| isPaused := v; energy := energy s; knowledge := knowledge s; biomass := biomass s; karma := karma s; zoomLevel := zoomLevel s; tutorialStep := tutorialStep s; nodes := nodes s; satellites := satellites s; spaceDust := spaceDust s; energyOrbs := energyOrbs s; projection := projection s; turnHitIds := turnHitIds s; shockwaves := shockwaves s; floatingTexts := floatingTexts s; visualEffects := visualEffects s; projectileTrailParticles := projectileTrailParticles s; selectedNodeId := selectedNodeId s; aimAssistTargetId := aimAssistTargetId s; screenShake := screenShake s; notifications := notifications s; aimAssist := aimAssist s |}.

Definition set_energy (v : R) (s : GameState) : GameState :=
  {| isPaused := isPaused s; energy := v; knowledge := knowledge s; biomass := biomass s; karma := karma s; zoomLevel := zoomLevel s; tutorialStep := tutorialStep s; nodes := nodes s; satellites := satellites s; spaceDust := spaceDust s; energyOrbs := energyOrbs s; projection := projection s; turnHitIds := turnHitIds s; shockwaves := shockwaves s; floatingTexts := floatingTexts s; visualEffects := visualEffects s; projectileTrailParticles := projectileTrailParticles s; selectedNodeId := selectedNodeId s; aimAssistTargetId := aimAssistTargetId s; screenShake := screenShake s; notifications := notifications s; aimAssist := aimAssist s |}.

Definition set_knowledge (v : R) (s : GameState) : GameState :=
  {| isPaused := isPaused s; energy := energy s; knowledge := v; biomass := biomass s; karma := karma s; zoomLevel := zoomLevel s; tutorialStep := tutorialStep s; nodes := nodes s; satellites := satellites s; spaceDust := spaceDust s; energyOrbs := energyOrbs s; projection := projection s; turnHitIds := turnHitIds s; shockwaves := shockwaves s; floatingTexts := floatingTexts s; visualEffects := visualEffects s; projectileTrailParticles := projectileTrailParticles s; selectedNodeId := selectedNodeId s; aimAssistTargetId := aimAssistTargetId s; screenShake := screenShake s; notifications := notifications s; aimAssist := aimAssist s |}.

Definition set_biomass (v : R) (s : GameState) : GameState :=
  {| isPaused := isPaused s; energy := energy s; knowledge := knowledge s; biomass := v; karma := karma s; zoomLevel := zoomLevel s; tutorialStep := tutorialStep s; nodes := nodes s; satellites := satellites s; spaceDust := spaceDust s; energyOrbs := energyOrbs s; projection := projection s; turnHitIds := turnHitIds s; shockwaves := shockwaves s; floatingTexts := floatingTexts s; visualEffects := visualEffects s; projectileTrailParticles := projectileTrailParticles s; selectedNodeId := selectedNodeId s; aimAssistTargetId := aimAssistTargetId s; screenShake := screenShake s; notifications := notifications s; aimAssist := aimAssist s |}.

Definition set_tutorialStep (v : Z) (s : GameState) : GameState :=
  {| isPaused := isPaused s; energy := energy s; knowledge := knowledge s; biomass := biomass s; karma := karma s; zoomLevel := zoomLevel s; tutorialStep := v; nodes := nodes s; satellites := satellites s; spaceDust := spaceDust s; energyOrbs := energyOrbs s; projection := projection s; turnHitIds := turnHitIds s; shockwaves := shockwaves s; floatingTexts := floatingTexts s; visualEffects := visualEffects s; projectileTrailParticles := projectileTrailParticles s; selectedNodeId := selectedNodeId s; aimAssistTargetId := aimAssistTargetId s; screenShake := screenShake s; notifications := notifications s; aimAssist := aimAssist s |}.

Definition set_nodes (v : list Node.t) (s : GameState) : GameState :=
  {| isPaused := isPaused s; energy := energy s; knowledge := knowledge s; biomass := biomass s; karma := karma s; zoomLevel := zoomLevel s; tutorialStep := tutorialStep s; nodes := v; satellites := satellites s; spaceDust := spaceDust s; energyOrbs := energyOrbs s; projection := projection s; turnHitIds := turnHitIds s; shockwaves := shockwaves s; floatingTexts := floatingTexts s; visualEffects := visualEffects s; projectileTrailParticles := projectileTrailParticles s; selectedNodeId := selectedNodeId s; aimAssistTargetId := aimAssistTargetId s; screenShake := screenShake s; notifications := notifications s; aimAssist := aimAssist s |}.

Definition set_satellites (v : list Sat.t) (s : GameState) : GameState :=
  {| isPaused := isPaused s; energy := energy s; knowledge := knowledge s; biomass := biomass s; karma := karma s; zoomLevel := zoomLevel s; tutorialStep := tutorialStep s; nodes := nodes s; satellites := v; spaceDust := spaceDust s; energyOrbs := energyOrbs s; projection := projection s; turnHitIds := turnHitIds s; shockwaves := shockwaves s; floatingTexts := floatingTexts s; visualEffects := visualEffects s; projectileTrailParticles := projectileTrailParticles s; selectedNodeId := selectedNodeId s; aimAssistTargetId := aimAssistTargetId s; screenShake := screenShake s; notifications := notifications s; aimAssist := aimAssist s |}.

Definition set_spaceDust (v : list Dust.t) (s : GameState) : GameState :=
  {| isPaused := isPaused s; energy := energy s; knowledge := knowledge s; biomass := biomass s; karma := karma s; zoomLevel := zoomLevel s; tutorialStep := tutorialStep s; nodes := nodes s; satellites := satellites s; spaceDust := v; energyOrbs := energyOrbs s; projection := projection s; turnHitIds := turnHitIds s; shockwaves := shockwaves s; floatingTexts := floatingTexts s; visualEffects := visualEffects s; projectileTrailParticles := projectileTrailParticles s; selectedNodeId := selectedNodeId s; aimAssistTargetId := aimAssistTargetId s; screenShake := screenShake s; notifications := notifications s; aimAssist := aimAssist s |}.

Definition set_energyOrbs (v : list Orb.t) (s : GameState) : GameState :=
  {| isPaused := isPaused s; energy := energy s; knowledge := knowledge s; biomass := biomass s; karma := karma s; zoomLevel := zoomLevel s; tutorialStep := tutorialStep s; nodes := nodes s; satellites := satellites s; spaceDust := spaceDust s; energyOrbs := v; projection := projection s; turnHitIds := turnHitIds s; shockwaves := shockwaves s; floatingTexts := floatingTexts s; visualEffects := visualEffects s; projectileTrailParticles := projectileTrailParticles s; selectedNodeId := selectedNodeId s; aimAssistTargetId := aimAssistTargetId s; screenShake := screenShake s; notifications := notifications s; aimAssist := aimAssist s |}.

Definition set_projection (v : Proj.t) (s : GameState) : GameState :=
  {| isPaused := isPaused s; energy := energy s; knowledge := knowledge s; biomass := biomass s; karma := karma s; zoomLevel := zoomLevel s; tutorialStep := tutorialStep s; nodes := nodes s; satellites := satellites s; spaceDust := spaceDust s; energyOrbs := energyOrbs s; projection := v; turnHitIds := turnHitIds s; shockwaves := shockwaves s; floatingTexts := floatingTexts s; visualEffects := visualEffects s; projectileTrailParticles := projectileTrailParticles s; selectedNodeId := selectedNodeId s; aimAssistTargetId := aimAssistTargetId s; screenShake := screenShake s; notifications := notifications s; aimAssist := aimAssist s |}.

Definition set_turnHitIds (v : list string) (s : GameState) : GameState :=
  {| isPaused := isPaused s; energy := energy s; knowledge := knowledge s; biomass := biomass s; karma := karma s; zoomLevel := zoomLevel s; tutorialStep := tutorialStep s; nodes := nodes s; satellites := satellites s; spaceDust := spaceDust s; energyOrbs := energyOrbs s; projection := projection s; turnHitIds := v; shockwaves := shockwaves s; floatingTexts := floatingTexts s; visualEffects := visualEffects s; projectileTrailParticles := projectileTrailParticles s; selectedNodeId := selectedNodeId s; aimAssistTargetId := aimAssistTargetId s; screenShake := screenShake s; notifications := notifications s; aimAssist := aimAssist s |}.

Definition set_shockwaves (v : list Shockwave.t) (s : GameState) : GameState :=
  {| isPaused := isPaused s; energy := energy s; knowledge := knowledge s; biomass := biomass s; karma := karma s; zoomLevel := zoomLevel s; tutorialStep := tutorialStep s; nodes := nodes s; satellites := satellites s; spaceDust := spaceDust s; energyOrbs := energyOrbs s; projection := projection s; turnHitIds := turnHitIds s; shockwaves := v; floatingTexts := floatingTexts s; visualEffects := visualEffects s; projectileTrailParticles := projectileTrailParticles s; selectedNodeId := selectedNodeId s; aimAssistTargetId := aimAssistTargetId s; screenShake := screenShake s; notifications := notifications s; aimAssist := aimAssist s |}.

Definition set_floatingTexts (v : list FloatingText.t) (s : GameState) : GameState :=
  {| isPaused := isPaused s; energy := energy s; knowledge := knowledge s; biomass := biomass s; karma := karma s; zoomLevel := zoomLevel s; tutorialStep := tutorialStep s; nodes := nodes s; satellites := satellites s; spaceDust := spaceDust s; energyOrbs := energyOrbs s; projection := projection s; turnHitIds := turnHitIds s; shockwaves := shockwaves s; floatingTexts := v; visualEffects := visualEffects s; projectileTrailParticles := projectileTrailParticles s; selectedNodeId := selectedNodeId s; aimAssistTargetId := aimAssistTargetId s; screenShake := screenShake s; notifications := notifications s; aimAssist := aimAssist s |}.

Definition set_visualEffects (v : list VisualEffect.t) (s : GameState) : GameState :=
  {| isPaused := isPaused s; energy := energy s; knowledge := knowledge s; biomass := biomass s; karma := karma s; zoomLevel := zoomLevel s; tutorialStep := tutorialStep s; nodes := nodes s; satellites := satellites s; spaceDust := spaceDust s; energyOrbs := energyOrbs s; projection := projection s; turnHitIds := turnHitIds s; shockwaves := shockwaves s; floatingTexts := floatingTexts s; visualEffects := v; projectileTrailParticles := projectileTrailParticles s; selectedNodeId := selectedNodeId s; aimAssistTargetId := aimAssistTargetId s; screenShake := screenShake s; notifications := notifications s; aimAssist := aimAssist s |}.

Definition set_projectileTrailParticles (v : list Trail.t) (s : GameState) : GameState :=
  {| isPaused := isPaused s; energy := energy s; knowledge := knowledge s; biomass := biomass s; karma := karma s; zoomLevel := zoomLevel s; tutorialStep := tutorialStep s; nodes := nodes s; satellites := satellites s; spaceDust := spaceDust s; energyOrbs := energyOrbs s; projection := projection s; turnHitIds := turnHitIds s; shockwaves := shockwaves s; floatingTexts := floatingTexts s; visualEffects := visualEffects s; projectileTrailParticles := v; selectedNodeId := selectedNodeId s; aimAssistTargetId := aimAssistTargetId s; screenShake := screenShake s; notifications := notifications s; aimAssist := aimAssist s |}.

Definition set_selectedNodeId (v : option string) (s : GameState) : GameState :=
  {| isPaused := isPaused s; energy := energy s; knowledge := knowledge s; biomass := biomass s; karma := karma s; zoomLevel := zoomLevel s; tutorialStep := tutorialStep s; nodes := nodes s; satellites := satellites s; spaceDust := spaceDust s; energyOrbs := energyOrbs s; projection := projection s; turnHitIds := turnHitIds s; shockwaves := shockwaves s; floatingTexts := floatingTexts s; visualEffects := visualEffects s; projectileTrailParticles := projectileTrailParticles s; selectedNodeId := v; aimAssistTargetId := aimAssistTargetId s; screenShake := screenShake s; notifications := notifications s; aimAssist := aimAssist s |}.

Definition set_aimAssistTargetId (v : option string) (s : GameState) : GameState :=
  {| isPaused := isPaused s; energy := energy s; knowledge := knowledge s; biomass := biomass s; karma := karma s; zoomLevel := zoomLevel s; tutorialStep := tutorialStep s; nodes := nodes s; satellites := satellites s; spaceDust := spaceDust s; energyOrbs := energyOrbs s; projection := projection s; turnHitIds := turnHitIds s; shockwaves := shockwaves s; floatingTexts := floatingTexts s; visualEffects := visualEffects s; projectileTrailParticles := projectileTrailParticles s; selectedNodeId := selectedNodeId s; aimAssistTargetId := v; screenShake := screenShake s; notifications := notifications s; aimAssist := aimAssist s |}.

Definition set_screenShake (v : ScreenShake) (s : GameState) : GameState :=
  {| isPaused := isPaused s; energy := energy s; knowledge := knowledge s; biomass := biomass s; karma := karma s; zoomLevel := zoomLevel s; tutorialStep := tutorialStep s; nodes := nodes s; satellites := satellites s; spaceDust := spaceDust s; energyOrbs := energyOrbs s; projection := projection s; turnHitIds := turnHitIds s; shockwaves := shockwaves s; floatingTexts := floatingTexts s; visualEffects := visualEffects s; projectileTrailParticles := projectileTrailParticles s; selectedNodeId := selectedNodeId s; aimAssistTargetId := aimAssistTargetId s; screenShake := v; notifications := notifications s; aimAssist := aimAssist s |}.

Definition set_notifications (v : list string) (s : GameState) : GameState :=
  {| isPaused := isPaused s; energy := energy s; knowledge := knowledge s; biomass := biomass s; karma := karma s; zoomLevel := zoomLevel s; tutorialStep := tutorialStep s; nodes := nodes s; satellites := satellites s; spaceDust := spaceDust s; energyOrbs := energyOrbs s; projection := projection s; turnHitIds := turnHitIds s; shockwaves := shockwaves s; floatingTexts := floatingTexts s; visualEffects := visualEffects s; projectileTrailParticles := projectileTrailParticles s; selectedNodeId := selectedNodeId s; aimAssistTargetId := aimAssistTargetId s; screenShake := screenShake s; notifications := v; aimAssist := aimAssist s |}.

Definition set_aimAssist (v : bool) (s : GameState) : GameState :=
  {| isPaused := isPaused s; energy := energy s; knowledge := knowledge s; biomass := biomass s; karma := karma s; zoomLevel := zoomLevel s; tutorialStep := tutorialStep s; nodes := nodes s; satellites := satellites s; spaceDust := spaceDust s; energyOrbs := energyOrbs s; projection := projection s; turnHitIds := turnHitIds s; shockwaves := shockwaves s; floatingTexts := floatingTexts s; visualEffects := visualEffects s; projectileTrailParticles := projectileTrailParticles s; selectedNodeId := selectedNodeId s; aimAssistTargetId := aimAssistTargetId s; screenShake := screenShake s; notifications := notifications s; aimAssist := v |}.


(** ** Constants for game balance *)

Definition BASE_KNOWLEDGE_RATE : R := 0.1.
Definition STAR_ENERGY_RATE : R := 0.5.
Definition STAR_ORB_SPAWN_CHANCE : R := 0.005.
Definition AIM_ROTATION_SPEED : R := 0.05.
Definition POWER_OSCILLATION_SPEED : R := 1.5.
Definition MAX_LAUNCH_POWER : R := 40.
Definition PROJECTILE_FRICTION : R := 0.99.
Definition REFORM_DURATION : R := 80.
Definition ORB_COLLECTION_LEEWAY : R := 25.
Definition AIM_ASSIST_ANGLE : R := 0.2.
Definition HARMONY_THRESHOLD : R := 50.
Definition CHAOS_THRESHOLD : R := -50.

(** ** The environment of one reducer call *)

Record TickEnv : Type := {
  width : R; height : R;     (* action.payload *)
  now : Z;                   (* Date.now() *)
  rnd : nat -> R             (* the successive results of Math.random() *) }.

(** The local variables of the [TICK] case.  [playerNode] is not a variable
    of its own: it is a reference to the first element of [mutableNodes] of
    type [player_consciousness], read with [find_player] and written with
    [update_player].  [calls] counts the calls of [Math.random()] made so
    far. *)
Record Locals : Type := {
  nextState : GameState;
  mutableNodes : list Node.t;
  newShockwaves : list Shockwave.t;
  newFloatingTexts : list FloatingText.t;
  newVisualEffects : list VisualEffect.t;
  calls : nat }.

Definition with_ns (f : GameState -> GameState) (l : Locals) : Locals :=
  {| nextState := f (nextState l); mutableNodes := mutableNodes l;
     newShockwaves := newShockwaves l; newFloatingTexts := newFloatingTexts l;
     newVisualEffects := newVisualEffects l; calls := calls l |}.

Definition with_nodes (f : list Node.t -> list Node.t) (l : Locals) : Locals :=
  {| nextState := nextState l; mutableNodes := f (mutableNodes l);
     newShockwaves := newShockwaves l; newFloatingTexts := newFloatingTexts l;
     newVisualEffects := newVisualEffects l; calls := calls l |}.

Definition push_shockwave (w : Shockwave.t) (l : Locals) : Locals :=
  {| nextState := nextState l; mutableNodes := mutableNodes l;
     newShockwaves := newShockwaves l ++ [w];
     newFloatingTexts := newFloatingTexts l;
     newVisualEffects := newVisualEffects l; calls := calls l |}.

Definition push_floatingText (f : FloatingText.t) (l : Locals) : Locals :=
  {| nextState := nextState l; mutableNodes := mutableNodes l;
     newShockwaves := newShockwaves l;
     newFloatingTexts := newFloatingTexts l ++ [f];
     newVisualEffects := newVisualEffects l; calls := calls l |}.

Definition push_visualEffects (es : list VisualEffect.t) (l : Locals) : Locals :=
  {| nextState := nextState l; mutableNodes := mutableNodes l;
     newShockwaves := newShockwaves l; newFloatingTexts := newFloatingTexts l;
     newVisualEffects := newVisualEffects l ++ es; calls := calls l |}.

Definition use_random (k : nat) (l : Locals) : Locals :=
  {| nextState := nextState l; mutableNodes := mutableNodes l;
     newShockwaves := newShockwaves l; newFloatingTexts := newFloatingTexts l;
     newVisualEffects := newVisualEffects l; calls := (calls l + k)%nat |}.

(** ** References into the node array *)

Definition is_player (n : Node.t) : bool :=
  NodeType_eqb (Node.type n) player_consciousness.

Definition is_star (n : Node.t) : bool := NodeType_eqb (Node.type n) star.

Definition is_asteroid (n : Node.t) : bool :=
  NodeType_eqb (Node.type n) asteroid.

Definition planet_like (ty : NodeType) : bool :=
  match ty with
  | rocky_planet | life_seed | sentient_colony => true
  | _ => false
  end.

(** [nodes.find(n => n.type === 'player_consciousness')] *)
Definition find_player (l : list Node.t) : option Node.t := find is_player l.

(** A write through the reference [playerNode]. *)
Fixpoint update_player (f : Node.t -> Node.t) (l : list Node.t) : list Node.t :=
  match l with
  | [] => []
  | n :: r => if is_player n then f n :: r else n :: update_player f r
  end.

Definition scale_velocity (c : R) (n : Node.t) : Node.t :=
  Node.set_vy (Node.vy n * c) (Node.set_vx (Node.vx n * c) n).

Definition set_velocity (a b : R) (n : Node.t) : Node.t :=
  Node.set_vy b (Node.set_vx a n).

(** [nodes.filter(n => n.id !== id)] *)
Definition remove_id (i : string) (l : list Node.t) : list Node.t :=
  filter (fun n => negb (String.eqb (Node.id n) i)) l.

(** ** [createSpaceDust] *)

(** The [i]-th particle of a batch; its six random numbers are read in the
    order of the object literal: x, y, vx, vy, size, color. *)
Definition new_dust (e : TickEnv) (w h : R) (k i : nat) : Dust.t :=
  {| Dust.id := (now e, i);
     Dust.x := (rnd e k - 0.5) * w * 2;
     Dust.y := (rnd e (k + 1) - 0.5) * h * 2;
     Dust.vx := (rnd e (k + 2) - 0.5) * 0.2;
     Dust.vy := (rnd e (k + 3) - 0.5) * 0.2;
     Dust.size := rnd e (k + 4) * 2 + 1;
     Dust.cyan := Rgtb (rnd e (k + 5)) 0.8 |}.

Fixpoint createSpaceDust_from (e : TickEnv) (w h : R) (k i count : nat)
  : list Dust.t :=
  match count with
  | O => []
  | S c => new_dust e w h k i :: createSpaceDust_from e w h (k + 6) (S i) c
  end.

Definition createSpaceDust (e : TickEnv) (k count : nat) (w h : R)
  : list Dust.t := createSpaceDust_from e w h k 0 count.

(** ** The projection state machine inside [TICK] *)

Definition set_projection_fields (st : PlayerState) (a pw t : R) : Proj.t :=
  {| Proj.playerState := st; Proj.aimAngle := a; Proj.power := pw;
     Proj.reformTimer := t |}.

Definition set_playerState (st : PlayerState) (p : Proj.t) : Proj.t :=
  set_projection_fields st (Proj.aimAngle p) (Proj.power p) (Proj.reformTimer p).

Definition set_aimAngle (a : R) (p : Proj.t) : Proj.t :=
  set_projection_fields (Proj.playerState p) a (Proj.power p) (Proj.reformTimer p).

Definition set_power (pw : R) (p : Proj.t) : Proj.t :=
  set_projection_fields (Proj.playerState p) (Proj.aimAngle p) pw (Proj.reformTimer p).

Definition set_reformTimer (t : R) (p : Proj.t) : Proj.t :=
  set_projection_fields (Proj.playerState p) (Proj.aimAngle p) (Proj.power p) t.

(** JavaScript truthiness of a [string | null]. *)
Definition truthy (o : option string) : bool :=
  match o with
  | Some s => negb (String.eqb s EmptyString)
  | None => false
  end.

(** *** case 'AIMING_DIRECTION' *)

(** The aim-assist scan: the first node, other than the player, whose bearing
    is within [AIM_ASSIST_ANGLE] of the aim angle. *)
Fixpoint aim_assist_scan (p : Node.t) (newAngle : R) (todo : list Node.t)
  : option string * R :=
  match todo with
  | [] => (None, newAngle)
  | node :: rest =>
    if String.eqb (Node.id node) (Node.id p) then aim_assist_scan p newAngle rest
    else
      let angleToNode :=
        atan2 (Node.y node - Node.y p) (Node.x node - Node.x p) in
      let d := Rabs (newAngle - angleToNode) in
      let angleDiff := if Rgtb d PI then 2 * PI - d else d in
      if Rltb angleDiff AIM_ASSIST_ANGLE then
        (Some (Node.id node),
         angleToNode
         + angleDiff * 0.1 * (if Rgtb newAngle angleToNode then -1 else 1))
      else aim_assist_scan p newAngle rest
  end.

Definition aiming_direction (p : Node.t) (l : Locals) : Locals :=
  let s := nextState l in
  let selectedId := selectedNodeId s in
  let rotated := Proj.aimAngle (projection s) + AIM_ROTATION_SPEED in
  let locked : option string * R :=
    if truthy selectedId then
      match selectedId with
      | Some sid =>
        match find (fun n => String.eqb (Node.id n) sid) (mutableNodes l) with
        | Some targetNode =>
          (selectedId,
           atan2 (Node.y targetNode - Node.y p) (Node.x targetNode - Node.x p))
        | None => (None, rotated)
        end
      | None => (None, rotated)
      end
    else (None, rotated) in
  let scanned : option string * R :=
    if negb (truthy (fst locked)) && aimAssist s
    then aim_assist_scan p (snd locked) (mutableNodes l)
    else locked in
  with_ns (fun s =>
    set_projection (set_aimAngle (snd scanned) (projection s))
      (set_aimAssistTargetId (fst scanned) s)) l.

(** *** case 'AIMING_POWER' *)

Definition power_oscillation (t : Z) : R :=
  (sin (IZR t / (1000 / POWER_OSCILLATION_SPEED)) + 1) * 50.

Definition aiming_power (e : TickEnv) (l : Locals) : Locals :=
  with_ns (fun s =>
    set_projection (set_power (power_oscillation (now e)) (projection s)) s) l.

(** *** case 'REFORMING' *)

Definition reforming (l : Locals) : Locals :=
  with_ns (fun s =>
    let t := Proj.reformTimer (projection s) - 1 in
    let pr := set_reformTimer t (projection s) in
    set_projection (if Rleb t 0 then set_playerState IDLE pr else pr) s) l.

(** *** case 'PROJECTING': dust *)

Definition dust_id_dec (a b : Z * nat) : {a = b} + {a <> b}.
Proof. decide equality; [apply Nat.eq_dec | apply Z.eq_dec]. Defined.

Definition dust_id_eqb (a b : Z * nat) : bool :=
  Z.eqb (fst a) (fst b) && Nat.eqb (snd a) (snd b).

Definition dust_hit (p : Node.t) (d : Dust.t) : bool :=
  Rltb (hypot (Node.x p - Dust.x d) (Node.y p - Dust.y d))
       (Node.radius p + Dust.size d + 10).

Definition dust_collision (e : TickEnv) (p : Node.t) (l : Locals) : Locals :=
  let dust := spaceDust (nextState l) in
  let hits := filter (dust_hit p) dust in
  let dustToRemove := nodup dust_id_dec (map Dust.id hits) in
  let l1 :=
    with_ns (fun s =>
      set_knowledge (fold_left (fun k _ => k + 0.5) hits (knowledge s)) s) l in
  match dustToRemove with
  | [] => l1
  | _ :: _ =>
    let n := List.length dustToRemove in
    let kept :=
      filter (fun d => negb (existsb (dust_id_eqb (Dust.id d)) dustToRemove))
             dust in
    use_random (6 * n)
      (with_ns
         (set_spaceDust
            (kept ++ createSpaceDust e (calls l) n (width e * 3) (height e * 3)))
         l1)
  end.

(** *** case 'PROJECTING': node collision *)

Fixpoint update_at (i : nat) (f : Node.t -> Node.t) (l : list Node.t)
  : list Node.t :=
  match l, i with
  | [], _ => []
  | n :: r, O => f n :: r
  | n :: r, S j => n :: update_at j f r
  end.

Definition in_contact (p node : Node.t) : bool :=
  Rltb (hypot (Node.x p - Node.x node) (Node.y p - Node.y node))
       (Node.radius p + Node.radius node).

Definition bounceFactor (ty : NodeType) : R :=
  match ty with
  | asteroid => 1.3
  | star => 1.1
  | _ => 0.85
  end.

(** The reward of a standard hit. *)
Definition hit_reward (ty : NodeType) (isCombo : bool) : R :=
  match ty with
  | star => if isCombo then 200 else 100
  | asteroid => if isCombo then 20 else 10
  | _ => if isCombo then 100 else 50
  end.

Definition rewardText (ty : NodeType) (isCombo : bool) : string :=
  match ty with
  | star => if isCombo then "DOUBLE FLAME! +200" else "FLARE +100"
  | asteroid => "BUMP"
  | _ => if isCombo then "CRACK! +100" else "HIT +50"
  end%string.

(** [turnHitIds.has] and [turnHitIds.add] *)
Definition has_id (i : string) (ids : list string) : bool :=
  existsb (String.eqb i) ids.

Definition add_id (i : string) (ids : list string) : list string :=
  if has_id i ids then ids else ids ++ [i].

Definition eruption_orb (e : TickEnv) (node : Node.t) (k : nat) : Orb.t :=
  let orbAngle := rnd e k * PI * 2 in
  {| Orb.x := Node.x node; Orb.y := Node.y node;
     Orb.vx := cos orbAngle * 9; Orb.vy := sin orbAngle * 9;
     Orb.radius := 8; Orb.value := 50 |}.

Definition combo_spark (e : TickEnv) (node : Node.t) (k : nat) : VisualEffect.t :=
  {| VisualEffect.x := Node.x node + (rnd e k - 0.5) * Node.radius node;
     VisualEffect.y := Node.y node + (rnd e (k + 1) - 0.5) * Node.radius node;
     VisualEffect.kind := spark; VisualEffect.life := 20;
     VisualEffect.scale := None;
     VisualEffect.angle := Some (rnd e (k + 2) * PI * 2) |}.

(** Solar super-charge: the star at index [i] is reset. *)
Definition supernova (e : TickEnv) (i : nat) (node : Node.t) (l : Locals)
  : Locals :=
  let l1 := with_nodes (update_player (scale_velocity 1.5)) l in
  let l2 := with_ns (fun s => set_energy (energy s + 1000) s) l1 in
  let l3 :=
    push_floatingText
      {| FloatingText.x := Node.x node; FloatingText.y := Node.y node - 40;
         FloatingText.text := "SUPERNOVA!"; FloatingText.life := 80;
         FloatingText.vy := -1 |} l2 in
  let l4 :=
    with_ns (set_screenShake {| intensity := 30; duration := 30 |}) l3 in
  let l5 :=
    push_shockwave
      {| Shockwave.x := Node.x node; Shockwave.y := Node.y node;
         Shockwave.maxRadius := 500; Shockwave.life := 0 |} l4 in
  let l6 :=
    with_ns (fun s =>
      set_notifications (notifications s ++ ["SOLAR SUPER-CHARGE!"%string]) s)
      l5 in
  let l7 :=
    with_nodes
      (update_at i (fun n =>
         Node.set_integrityCooldown 600
           (Node.set_currentIntegrity (Node.maxIntegrity n) n))) l6 in
  use_random 15
    (with_ns (fun s =>
       set_energyOrbs
         (energyOrbs s
          ++ map (fun j => eruption_orb e node (calls l + j)) (seq 0 15)) s)
       l7).

(** Planet assimilation: the node leaves the registry and a satellite is
    appended. *)
Definition assimilation (e : TickEnv) (node : Node.t) (l : Locals) : Locals :=
  let l1 := with_nodes (update_player (scale_velocity 0.6)) l in
  let l2 :=
    with_ns (fun s => set_nodes (remove_id (Node.id node) (nodes s)) s) l1 in
  let l3 := with_nodes (remove_id (Node.id node)) l2 in
  let l4 :=
    with_ns (fun s =>
      set_satellites
        (satellites s ++
         [ {| Sat.id := Node.id node; Sat.type := Node.type node;
              Sat.imageUrl := Node.imageUrl node; Sat.label := Node.label node;
              Sat.orbitRadius := 60 + INR (List.length (satellites s)) * 20;
              Sat.orbitSpeed := 0.02 + rnd e (calls l) * 0.01;
              Sat.angle := rnd e (calls l + 1) * PI * 2 |} ]) s) l3 in
  let l5 := use_random 2 l4 in
  let l6 := with_ns (fun s => set_biomass (biomass s + 200) s) l5 in
  let l7 :=
    push_floatingText
      {| FloatingText.x := Node.x node; FloatingText.y := Node.y node - 40;
         FloatingText.text := "ASSIMILATED"; FloatingText.life := 60;
         FloatingText.vy := -1 |} l6 in
  let l8 :=
    with_ns (set_screenShake {| intensity := 15; duration := 15 |}) l7 in
  push_shockwave
    {| Shockwave.x := Node.x node; Shockwave.y := Node.y node;
       Shockwave.maxRadius := 150; Shockwave.life := 0 |} l8.

(** Standard hit or combo. *)
Definition standard_hit (e : TickEnv) (node : Node.t) (l : Locals) : Locals :=
  let ty := Node.type node in
  let isCombo := has_id (Node.id node) (turnHitIds (nextState l)) in
  let reward := hit_reward ty isCombo in
  let l1 :=
    match ty with
    | star =>
      push_visualEffects
        [ {| VisualEffect.x := Node.x node; VisualEffect.y := Node.y node;
             VisualEffect.kind := flare; VisualEffect.life := 30;
             VisualEffect.scale := Some 1.5; VisualEffect.angle := None |} ]
        (with_ns (fun s => set_energy (energy s + reward) s) l)
    | asteroid => with_ns (fun s => set_knowledge (knowledge s + reward) s) l
    | _ => with_ns (fun s => set_biomass (biomass s + reward) s) l
    end in
  let l2 :=
    with_ns (fun s => set_turnHitIds (add_id (Node.id node) (turnHitIds s)) s)
      l1 in
  let l3 :=
    push_floatingText
      {| FloatingText.x := Node.x node; FloatingText.y := Node.y node - 30;
         FloatingText.text := rewardText ty isCombo; FloatingText.life := 40;
         FloatingText.vy := -1.5 |} l2 in
  let l4 :=
    if isCombo then
      use_random 24
        (push_visualEffects
           (map (fun k => combo_spark e node (calls l + 3 * k)) (seq 0 8)) l3)
    else l3 in
  with_ns (set_screenShake {| intensity := 5; duration := 5 |}) l4.

(** The collision handler, run on the node at index [i] of [mutableNodes];
    [p] is the player and [node] the node as they are when the handler
    starts. *)
Definition resolve_hit (e : TickEnv) (p : Node.t) (i : nat) (node : Node.t)
  (l : Locals) : Locals :=
  let node1 :=
    if is_asteroid node then node
    else Node.set_currentIntegrity (Node.currentIntegrity node - 1) node in
  let node2 := Node.set_integrityCooldown 20 node1 in
  let angle := atan2 (Node.y p - Node.y node) (Node.x p - Node.x node) in
  let speed := hypot (Node.vx p) (Node.vy p) in
  let b := bounceFactor (Node.type node) in
  let l1 :=
    with_nodes (fun ns =>
      update_player (set_velocity (cos angle * speed * b) (sin angle * speed * b))
        (update_at i (fun _ => node2) ns)) l in
  if Rleb (Node.currentIntegrity node2) 0 && negb (is_asteroid node) then
    match Node.type node with
    | star => supernova e i node2 l1
    | rocky_planet | life_seed | sentient_colony => assimilation e node2 l1
    | _ => l1
    end
  else standard_hit e node2 l1.

(** [for (const node of mutableNodes)]: the loop stops ([break]) at the first
    node in contact, whether or not the handler runs. *)
Fixpoint collision_loop (e : TickEnv) (p : Node.t) (todo : list Node.t)
  (i : nat) (l : Locals) : Locals :=
  match todo with
  | [] => l
  | node :: rest =>
    if String.eqb (Node.id node) (Node.id p) then
      collision_loop e p rest (S i) l
    else if in_contact p node then
      if Rleb (Node.integrityCooldown node) 0 then resolve_hit e p i node l
      else l
    else collision_loop e p rest (S i) l
  end.

Definition reform_if_too_slow (l : Locals) : Locals :=
  match find_player (mutableNodes l) with
  | Some p =>
    if Rltb (hypot (Node.vx p) (Node.vy p)) 0.8 then
      with_ns (fun s =>
        set_projection
          (set_reformTimer REFORM_DURATION
             (set_playerState REFORMING (projection s))) s)
        (with_nodes (update_player (set_velocity 0 0)) l)
    else l
  | None => l
  end.

Definition projecting (e : TickEnv) (p : Node.t) (l : Locals) : Locals :=
  let l1 := dust_collision e p l in
  reform_if_too_slow (collision_loop e p (mutableNodes l1) 0 l1).

Definition projection_state_machine (e : TickEnv) (p : Node.t) (l : Locals)
  : Locals :=
  match Proj.playerState (projection (nextState l)) with
  | AIMING_DIRECTION => aiming_direction p l
  | AIMING_POWER => aiming_power e l
  | PROJECTING => projecting e p l
  | REFORMING => reforming l
  | IDLE => l
  end.

(** ** The rest of [TICK] *)

(** *** Satellites, dust and the effects ledger *)

Definition orbit (sat : Sat.t) : Sat.t :=
  {| Sat.id := Sat.id sat; Sat.type := Sat.type sat;
     Sat.imageUrl := Sat.imageUrl sat; Sat.label := Sat.label sat;
     Sat.orbitRadius := Sat.orbitRadius sat; Sat.orbitSpeed := Sat.orbitSpeed sat;
     Sat.angle := Sat.angle sat + Sat.orbitSpeed sat |}.

Definition satellite_income (s : GameState) (sat : Sat.t) : GameState :=
  let s1 := set_energy (energy s + 0.1) s in
  if NodeType_eqb (Sat.type sat) life_seed
  then set_biomass (biomass s1 + 0.1) s1 else s1.

Definition satellite_logic (l : Locals) : Locals :=
  match find_player (mutableNodes l) with
  | Some _ =>
    with_ns (fun s =>
      set_satellites (map orbit (satellites s))
        (fold_left satellite_income (satellites s) s)) l
  | None => l
  end.

Definition drift (d : Dust.t) : Dust.t :=
  {| Dust.id := Dust.id d; Dust.x := Dust.x d + Dust.vx d;
     Dust.y := Dust.y d + Dust.vy d; Dust.vx := Dust.vx d; Dust.vy := Dust.vy d;
     Dust.size := Dust.size d; Dust.cyan := Dust.cyan d |}.

Definition dust_physics (l : Locals) : Locals :=
  with_ns (fun s => set_spaceDust (map drift (spaceDust s)) s) l.

Definition grow (w : Shockwave.t) : Shockwave.t :=
  {| Shockwave.x := Shockwave.x w; Shockwave.y := Shockwave.y w;
     Shockwave.maxRadius := Shockwave.maxRadius w;
     Shockwave.life := Shockwave.life w + 0.05 |}.

Definition rise (t : FloatingText.t) : FloatingText.t :=
  {| FloatingText.x := FloatingText.x t;
     FloatingText.y := FloatingText.y t + FloatingText.vy t;
     FloatingText.text := FloatingText.text t;
     FloatingText.life := FloatingText.life t - 1;
     FloatingText.vy := FloatingText.vy t |}.

Definition fade (v : VisualEffect.t) : VisualEffect.t :=
  {| VisualEffect.x := VisualEffect.x v; VisualEffect.y := VisualEffect.y v;
     VisualEffect.kind := VisualEffect.kind v;
     VisualEffect.life := VisualEffect.life v - 1;
     VisualEffect.scale := VisualEffect.scale v;
     VisualEffect.angle := VisualEffect.angle v |}.

Definition age (p : Trail.t) : Trail.t :=
  {| Trail.x := Trail.x p; Trail.y := Trail.y p; Trail.life := Trail.life p - 1 |}.

Definition effects_updates (l : Locals) : Locals :=
  with_ns (fun s =>
    set_visualEffects
      (filter (fun v => Rgtb (VisualEffect.life v) 0)
              (map fade (newVisualEffects l)))
      (set_floatingTexts
         (filter (fun t => Rgtb (FloatingText.life t) 0)
                 (map rise (newFloatingTexts l)))
         (set_shockwaves
            (filter (fun w => Rltb (Shockwave.life w) 1)
                    (map grow (newShockwaves l))) s))) l.

(** *** Resources and karma *)

(** Cooldown recovery, as the [forEach] over [nextState.nodes] performs it. *)
Definition recover (n : Node.t) : Node.t :=
  if Rgtb (Node.integrityCooldown n) 0
  then Node.set_integrityCooldown (Node.integrityCooldown n - 1) n else n.

Definition star_income (en : R) (n : Node.t) : R :=
  if is_star n then en + STAR_ENERGY_RATE else en.

(** [harmonyBonus] is computed and never read.  The [forEach] runs over
    [nextState.nodes], the array of the state the reducer was given (filtered
    by an assimilation, if one took place), not over [mutableNodes]. *)
Definition resources_and_karma (l : Locals) : Locals :=
  with_ns (fun s =>
    let harmonyBonus :=
      if Rgtb (karma s) HARMONY_THRESHOLD then 1.25 else 1.0 in
    let s1 := set_knowledge (knowledge s + BASE_KNOWLEDGE_RATE) s in
    set_nodes (map recover (nodes s1))
      (set_energy (fold_left star_income (nodes s1) (energy s1)) s1)) l.

(** *** Node physics *)

(** The inner [forEach]: the pull of [otherNode] on [node], accumulated in
    the velocity [v] of [node]. *)
Definition attract (node : Node.t) (v : R * R) (otherNode : Node.t) : R * R :=
  if String.eqb (Node.id node) (Node.id otherNode) || is_player otherNode
  then v
  else
    let dx := Node.x otherNode - Node.x node in
    let dy := Node.y otherNode - Node.y node in
    let distSq := dx * dx + dy * dy in
    if Rgtb distSq 100 then
      let dist := sqrt distSq in
      let force :=
        (if is_star otherNode then 0.2 else 0.05) * Node.radius otherNode
        / distSq in
      (fst v + dx / dist * force, snd v + dy / dist * force)
    else v.

Definition integrate (c : R) (n : Node.t) : Node.t :=
  Node.set_vy (Node.vy n * c)
    (Node.set_vx (Node.vx n * c)
       (Node.set_y (Node.y n + Node.vy n) (Node.set_x (Node.x n + Node.vx n) n))).

Definition PlayerState_eqb (a b : PlayerState) : bool :=
  match a, b with
  | IDLE, IDLE | AIMING_DIRECTION, AIMING_DIRECTION
  | AIMING_POWER, AIMING_POWER | PROJECTING, PROJECTING
  | REFORMING, REFORMING => true
  | _, _ => false
  end.

(** The movement of [node]; [all] is [mutableNodes] at that moment. *)
Definition move (ps : PlayerState) (all : list Node.t) (node : Node.t)
  : Node.t :=
  if is_player node then
    if PlayerState_eqb ps PROJECTING then integrate PROJECTILE_FRICTION node
    else node
  else
    let v := fold_left (attract node) all (Node.vx node, Node.vy node) in
    integrate 0.99 (set_velocity (fst v) (snd v) node).

Definition beyond_boundary (worldRadius : R) (n : Node.t) : bool :=
  Rgtb (sqrt (Node.x n * Node.x n + Node.y n * Node.y n))
       (worldRadius - Node.radius n).

(** Boundary checks (sidewalls): the node put back on the circle and
    bounced. *)
Definition bounce (worldRadius : R) (n : Node.t) : Node.t :=
  let angle := atan2 (Node.y n) (Node.x n) in
  let n1 :=
    Node.set_y (sin angle * (worldRadius - Node.radius n))
      (Node.set_x (cos angle * (worldRadius - Node.radius n)) n) in
  if is_player n then
    let dot := Node.vx n1 * cos angle + Node.vy n1 * sin angle in
    Node.set_vy (Node.vy n1 - 2.2 * dot * sin angle)
      (Node.set_vx (Node.vx n1 - 2.2 * dot * cos angle) n1)
  else scale_velocity (-0.5) n1.

Definition star_orb (e : TickEnv) (k : nat) (n : Node.t) : Orb.t :=
  {| Orb.x := Node.x n + (rnd e (k + 2) - 0.5) * Node.radius n;
     Orb.y := Node.y n + (rnd e (k + 3) - 0.5) * Node.radius n;
     Orb.vx := (rnd e (k + 4) - 0.5) * 1;
     Orb.vy := (rnd e (k + 5) - 0.5) * 1;
     Orb.radius := 4; Orb.value := 10 |}.

(** The outer [forEach] over [mutableNodes], which is [done ++ todo]: the
    elements of [done] have been moved already. *)
Fixpoint node_physics (e : TickEnv) (worldRadius : R) (done todo : list Node.t)
  (l : Locals) : Locals :=
  match todo with
  | [] => with_nodes (fun _ => done) l
  | node :: rest =>
    let ps := Proj.playerState (projection (nextState l)) in
    let n1 := move ps (done ++ node :: rest) node in
    let out := beyond_boundary worldRadius n1 in
    let n2 := if out then bounce worldRadius n1 else n1 in
    let l1 :=
      if out && is_player node then
        push_visualEffects
          [ {| VisualEffect.x := Node.x n2; VisualEffect.y := Node.y n2;
               VisualEffect.kind := spark; VisualEffect.life := 10;
               VisualEffect.scale := Some 2; VisualEffect.angle := None |} ]
          (with_ns (set_screenShake {| intensity := 3; duration := 5 |}) l)
      else l in
    let l2 :=
      if is_star node then
        if Rltb (rnd e (calls l1)) STAR_ORB_SPAWN_CHANCE then
          use_random 6
            (with_ns (fun s =>
               set_energyOrbs (energyOrbs s ++ [star_orb e (calls l1) n2]) s) l1)
        else use_random 1 l1
      else l1 in
    node_physics e worldRadius (done ++ [n2]) rest l2
  end.

(** *** Energy orbs and trail *)

Definition orb_in_reach (p : Node.t) (orb : Orb.t) : bool :=
  let dx := Node.x p - Orb.x orb in
  let dy := Node.y p - Orb.y orb in
  Rltb (sqrt (dx * dx + dy * dy))
       (Node.radius p + Orb.radius orb + ORB_COLLECTION_LEEWAY).

Definition collect (p : Node.t) (en : R) (orb : Orb.t) : R :=
  if orb_in_reach p orb then en + Orb.value orb else en.

Definition orb_collection (l : Locals) : Locals :=
  match find_player (mutableNodes l) with
  | Some p =>
    with_ns (fun s =>
      set_energyOrbs (filter (fun o => negb (orb_in_reach p o)) (energyOrbs s))
        (set_energy (fold_left (collect p) (energyOrbs s) (energy s)) s)) l
  | None => l
  end.

Definition trail_update (l : Locals) : Locals :=
  let l1 :=
    with_ns (fun s =>
      set_projectileTrailParticles
        (filter (fun p => Rgtb (Trail.life p) 0)
                (map age (projectileTrailParticles s))) s) l in
  match find_player (mutableNodes l1) with
  | Some p =>
    if PlayerState_eqb (Proj.playerState (projection (nextState l1))) PROJECTING
    then
      with_ns (fun s =>
        set_projectileTrailParticles
          (projectileTrailParticles s
           ++ [ {| Trail.x := Node.x p; Trail.y := Node.y p; Trail.life := 25 |} ])
          s) l1
    else l1
  | None => l1
  end.

(** *** case 'TICK' *)

Definition worldRadius_of (e : TickEnv) (state : GameState) : R :=
  Rmin (width e) (height e) * 1.5 / (zoomLevel state + 1).

Definition tick_locals (state : GameState) : Locals :=
  {| nextState := state; mutableNodes := nodes state;
     newShockwaves := shockwaves state;
     newFloatingTexts := floatingTexts state;
     newVisualEffects := visualEffects state; calls := 0 |}.

Definition state_machine_phase (e : TickEnv) (l : Locals) : Locals :=
  match find_player (mutableNodes l) with
  | Some p => projection_state_machine e p l
  | None => l
  end.

Definition physics_phase (e : TickEnv) (worldRadius : R) (l : Locals) : Locals :=
  node_physics e worldRadius [] (mutableNodes l) l.

(** The state of the locals just before the energy orbs are collected. *)
Definition before_orbs (e : TickEnv) (state : GameState) : Locals :=
  physics_phase e (worldRadius_of e state)
    (resources_and_karma
       (effects_updates
          (dust_physics
             (satellite_logic (state_machine_phase e (tick_locals state)))))).

Definition tick (e : TickEnv) (state : GameState) : GameState :=
  if isPaused state then state
  else
    let l := trail_update (orb_collection (before_orbs e state)) in
    set_nodes (mutableNodes l) (nextState l).

(** ** The reducer *)

(** The actions of the command surface of the simulation core.  [TICK]
    carries, besides its payload, the environment of the call.
    [CHANGE_SETTING_aimAssist] is [CHANGE_SETTING] with key ['aimAssist'] (the
    other keys write fields that are not modelled).  [START_GAME] and
    [LOAD_GAME], which replace the whole state, and [PURCHASE_UPGRADE], which
    applies a function taken from a table that is not among the sources, are
    not modelled; neither are the actions that only write fields left out of
    [GameState]. *)
Inductive GameAction : Type :=
  | TICK (e : TickEnv)
  | START_AIMING
  | SET_DIRECTION
  | LAUNCH_PLAYER
  | SELECT_NODE (nodeId : option string)
  | SET_PAUSED (payload : bool)
  | UPDATE_NODE_IMAGE (nodeId : string) (imageUrl : option string)
  | CHANGE_SETTING_aimAssist (value : bool).

Definition start_aiming (state : GameState) : GameState :=
  match Proj.playerState (projection state) with
  | IDLE =>
    let nextTutorialStep :=
      if Z.eqb (tutorialStep state) 0 then 1%Z else tutorialStep state in
    set_projection (set_playerState AIMING_DIRECTION (projection state))
      (set_tutorialStep nextTutorialStep state)
  | _ => state
  end.

Definition find_by_id (i : option string) (l : list Node.t) : option Node.t :=
  match i with
  | Some s => find (fun n => String.eqb (Node.id n) s) l
  | None => None
  end.

Definition set_direction (state : GameState) : GameState :=
  match Proj.playerState (projection state) with
  | AIMING_DIRECTION =>
    let nextTutorialStep2 :=
      if Z.eqb (tutorialStep state) 1 then 2%Z else tutorialStep state in
    let finalAimAngle :=
      match find_player (nodes state),
            find_by_id (aimAssistTargetId state) (nodes state) with
      | Some player, Some target =>
        atan2 (Node.y target - Node.y player) (Node.x target - Node.x player)
      | _, _ => Proj.aimAngle (projection state)
      end in
    set_projection
      (set_aimAngle finalAimAngle (set_playerState AIMING_POWER (projection state)))
      (set_tutorialStep nextTutorialStep2 state)
  | _ => state
  end.

Definition launch_player (state : GameState) : GameState :=
  match Proj.playerState (projection state) with
  | AIMING_POWER =>
    match find_player (nodes state) with
    | None => state
    | Some p =>
      let launchStrength := Proj.power (projection state) / 100 * MAX_LAUNCH_POWER in
      let a := Proj.aimAngle (projection state) in
      let newNodes :=
        map (fun n =>
               if String.eqb (Node.id n) (Node.id p)
               then set_velocity (cos a * launchStrength) (sin a * launchStrength) n
               else n) (nodes state) in
      let nextTutorialStep3 :=
        if Z.eqb (tutorialStep state) 2 then 3%Z else tutorialStep state in
      let newTrail :=
        {| Trail.x := Node.x p; Trail.y := Node.y p; Trail.life := 15 |} in
      set_turnHitIds []
        (set_projectileTrailParticles (projectileTrailParticles state ++ [newTrail])
           (set_projection
              (set_power 0 (set_playerState PROJECTING (projection state)))
              (set_nodes newNodes (set_tutorialStep nextTutorialStep3 state))))
    end
  | _ => state
  end.

Definition select_node (nodeId : option string) (state : GameState) : GameState :=
  let s1 := set_selectedNodeId nodeId state in
  let s2 := if truthy nodeId then set_aimAssistTargetId nodeId s1 else s1 in
  match nodeId with
  | Some i =>
    if Z.eqb (tutorialStep state) 2 && String.eqb i "tutorial_planet"
    then set_tutorialStep 3 s2 else s2
  | None => s2
  end.

Definition update_node_image (nodeId : string) (img : option string)
  (state : GameState) : GameState :=
  set_nodes
    (map (fun node =>
            if String.eqb (Node.id node) nodeId
            then Node.set_imageUrl img node else node) (nodes state)) state.

Definition gameReducer (state : GameState) (action : GameAction) : GameState :=
  match action with
  | TICK e => tick e state
  | START_AIMING => start_aiming state
  | SET_DIRECTION => set_direction state
  | LAUNCH_PLAYER => launch_player state
  | SELECT_NODE nodeId => select_node nodeId state
  | SET_PAUSED payload => set_isPaused payload state
  | UPDATE_NODE_IMAGE nodeId img => update_node_image nodeId img state
  | CHANGE_SETTING_aimAssist value => set_aimAssist value state
  end.

(** ** The initial state *)

Section Initial.

(** [NODE_IMAGE_MAP[type][0]]: the table is in [constants], which is not
    among the sources. *)
Variable NODE_IMAGE_MAP_0 : NodeType -> option string.

Definition initialProjectionState : Proj.t :=
  set_projection_fields IDLE 0 0 0.

Definition make_node (i lbl : string) (ty : NodeType) (px py r : R)
  (img : option string) (integrity : R) : Node.t :=
  {| Node.id := i; Node.label := lbl; Node.type := ty;
     Node.x := px; Node.y := py; Node.vx := 0; Node.vy := 0; Node.radius := r;
     Node.imageUrl := img; Node.maxIntegrity := integrity;
     Node.currentIntegrity := integrity; Node.integrityCooldown := 0 |}.

Definition ring_id (i : nat) : string :=
  ("asteroid_ring_" ++ String (Ascii.ascii_of_nat (48 + i)) EmptyString)%string.

Definition ring_asteroid (i : nat) : Node.t :=
  let angle := INR i / 8 * PI * 2 in
  make_node (ring_id i) "Asteroid" asteroid
    (cos angle * 350) (sin angle * 350) 15 None 1000.

Definition createInitialNodes : list Node.t :=
  [ make_node "player_consciousness" "You" player_consciousness 0 300 20
      (NODE_IMAGE_MAP_0 player_consciousness) 100;
    make_node "tutorial_planet" "Silent World" rocky_planet 0 (-150) 25
      (NODE_IMAGE_MAP_0 rocky_planet) 2;
    make_node "central_star" "Prime Star" star 0 0 40
      (NODE_IMAGE_MAP_0 star) 2 ]
  ++ map ring_asteroid (seq 0 8)
  ++ [ make_node "planet_left" "Barren Rock" rocky_planet (-250) (-50) 20
         (NODE_IMAGE_MAP_0 rocky_planet) 2;
       make_node "planet_right" "Ice Giant" rocky_planet 250 (-50) 22
         (NODE_IMAGE_MAP_0 rocky_planet) 2 ].

Definition initialState : GameState :=
  {| isPaused := false;
     energy := 50; knowledge := 10; biomass := 0; karma := 0;
     zoomLevel := 0; tutorialStep := 0;
     nodes := createInitialNodes;
     satellites := []; spaceDust := []; energyOrbs := [];
     projection := initialProjectionState;
     turnHitIds := [];
     shockwaves := []; floatingTexts := []; visualEffects := [];
     projectileTrailParticles := [];
     selectedNodeId := None; aimAssistTargetId := None;
     screenShake := {| intensity := 0; duration := 0 |};
     notifications := [];
     aimAssist := true |}.

End Initial.

(** The states the reducer reaches from the initial state. *)
Inductive reachable : GameState -> Prop :=
  | reachable_initial : forall imgs, reachable (initialState imgs)
  | reachable_step : forall s a, reachable s -> reachable (gameReducer s a).

(** ** Notions used in the statements *)

(** The sum of the three resources a hit can pay into. *)
Definition resources (s : GameState) : R := energy s + knowledge s + biomass s.

Definition playerState_of (s : GameState) : PlayerState :=
  Proj.playerState (projection s).

(** The five edges of the projection state machine. *)
Inductive legal_edge : PlayerState -> PlayerState -> Prop :=
  | edge_start_aim : legal_edge IDLE AIMING_DIRECTION
  | edge_confirm_direction : legal_edge AIMING_DIRECTION AIMING_POWER
  | edge_launch : legal_edge AIMING_POWER PROJECTING
  | edge_too_slow : legal_edge PROJECTING REFORMING
  | edge_timer_expired : legal_edge REFORMING IDLE.

(** A projection action sent in a state that does not accept it. *)
Definition wrong_state (s : GameState) (a : GameAction) : Prop :=
  match a with
  | START_AIMING => playerState_of s <> IDLE
  | SET_DIRECTION => playerState_of s <> AIMING_DIRECTION
  | LAUNCH_PLAYER => playerState_of s <> AIMING_POWER
  | _ => False
  end.

(** What the physics never writes: every field of a node but its position
    and velocity. *)
Definition body (n : Node.t)
  : string * string * NodeType * R * option string * R * R * R :=
  (Node.id n, Node.label n, Node.type n, Node.radius n, Node.imageUrl n,
   Node.maxIntegrity n, Node.currentIntegrity n, Node.integrityCooldown n).

(** The first node of [todo], other than the player [p], in contact with [p],
    and its index counted from [i]. *)
Fixpoint first_contact (p : Node.t) (todo : list Node.t) (i : nat)
  : option (nat * Node.t) :=
  match todo with
  | [] => None
  | node :: rest =>
    if negb (String.eqb (Node.id node) (Node.id p)) && in_contact p node
    then Some (i, node)
    else first_contact p rest (S i)
  end.

(** The collision a tick resolves, if it resolves one: the first node in
    contact with the player, provided the player is projecting and the
    cooldown of that node has expired. *)
Definition collision_of (s : GameState) : option (nat * Node.t) :=
  match find_player (nodes s), playerState_of s with
  | Some p, PROJECTING =>
    match first_contact p (nodes s) 0 with
    | Some (j, node) =>
      if Rleb (Node.integrityCooldown node) 0 then Some (j, node) else None
    | None => None
    end
  | _, _ => None
  end.

(** The node after the damage of a hit. *)
Definition damaged (node : Node.t) : Node.t :=
  Node.set_integrityCooldown 20
    (if is_asteroid node then node
     else Node.set_currentIntegrity (Node.currentIntegrity node - 1) node).

Definition reset_star (n : Node.t) : Node.t :=
  Node.set_integrityCooldown 600
    (Node.set_currentIntegrity (Node.maxIntegrity n) n).

(** The registry after the collision with [node], at index [j], positions and
    velocities apart. *)
Definition outcome (j : nat) (node : Node.t) (l : list Node.t) : list Node.t :=
  if Rleb (Node.currentIntegrity (damaged node)) 0 && negb (is_asteroid node)
  then
    match Node.type node with
    | star => update_at j (fun _ => reset_star (damaged node)) l
    | rocky_planet | life_seed | sentient_colony => remove_id (Node.id node) l
    | _ => update_at j (fun _ => damaged node) l
    end
  else update_at j (fun _ => damaged node) l.

(** The node destroyed by the collision with [node]: a non-asteroid whose
    integrity the hit brings to zero. *)
Definition destroyed (node : Node.t) : bool :=
  Rleb (Node.currentIntegrity node - 1) 0 && negb (is_asteroid node).

(** How the node physics may change a node: its body is kept, and a player
    that is not projecting and lies inside the boundary is not touched. *)
Definition moved (ps : PlayerState) (worldRadius : R) (n n' : Node.t) : Prop :=
  body n' = body n
  /\ (is_player n = true -> ps <> PROJECTING ->
      beyond_boundary worldRadius n = false -> n' = n).

(** ** Well-formed states *)

Definition integrity_in_range (n : Node.t) : Prop :=
  0 <= Node.currentIntegrity n <= Node.maxIntegrity n.

(** A node of the registry: its integrity is in range, and positive unless
    the node is an asteroid (an asteroid takes no damage). *)
Definition node_ok (n : Node.t) : Prop :=
  integrity_in_range n /\ (is_asteroid n = false -> 0 < Node.currentIntegrity n).

(** All the nodes of type [player_consciousness] carry one id. *)
Definition single_player (l : list Node.t) : Prop :=
  forall n m, In n l -> In m l -> is_player n = true -> is_player m = true ->
              Node.id n = Node.id m.

Definition power_in_range (s : GameState) : Prop :=
  0 <= Proj.power (projection s) <= 100.

Definition well_formed (s : GameState) : Prop :=
  Forall node_ok (nodes s) /\ single_player (nodes s) /\ power_in_range s.

Definition has_player (l : list Node.t) : bool := existsb is_player l.

(** The total value of a list of orbs. *)
Definition total_value (orbs : list Orb.t) : R :=
  fold_right (fun o acc => Orb.value o + acc) 0 orbs.

(** The satellite an assimilation creates from [node]; [k] is the number of
    calls of [Math.random()] made before, [count] the number of satellites
    there were. *)
Definition new_satellite (e : TickEnv) (k : nat) (node : Node.t) (count : nat)
  : Sat.t :=
  {| Sat.id := Node.id node; Sat.type := Node.type node;
     Sat.imageUrl := Node.imageUrl node; Sat.label := Node.label node;
     Sat.orbitRadius := 60 + INR count * 20;
     Sat.orbitSpeed := 0.02 + rnd e k * 0.01;
     Sat.angle := rnd e (k + 1) * PI * 2 |}.

(** The node a tick assimilates, if it assimilates one. *)
Definition captured (s : GameState) : option Node.t :=
  match collision_of s with
  | Some (_, node) =>
    if destroyed node && planet_like (Node.type node) then Some node else None
  | None => None
  end.

(** The collision as the specification words it: the first node, other than
    the player, in contact with the player and whose cooldown has expired. *)
Fixpoint first_vulnerable_contact (p : Node.t) (todo : list Node.t) (i : nat)
  : option (nat * Node.t) :=
  match todo with
  | [] => None
  | node :: rest =>
    if negb (String.eqb (Node.id node) (Node.id p)) && in_contact p node
       && Rleb (Node.integrityCooldown node) 0
    then Some (i, node)
    else first_vulnerable_contact p rest (S i)
  end.

(** ** Example inputs *)

Definition example_env : TickEnv :=
  {| width := 2000; height := 2000; now := 0; rnd := fun _ => 0.5 |}.

Definition example_node (i lbl : string) (ty : NodeType) (px py pvx pvy r : R)
  (integrity maxi cooldown : R) : Node.t :=
  {| Node.id := i; Node.label := lbl; Node.type := ty;
     Node.x := px; Node.y := py; Node.vx := pvx; Node.vy := pvy;
     Node.radius := r; Node.imageUrl := None; Node.maxIntegrity := maxi;
     Node.currentIntegrity := integrity; Node.integrityCooldown := cooldown |}.

Definition example_state (ps : PlayerState) (k : R) (ns : list Node.t)
  : GameState :=
  {| isPaused := false;
     energy := 50; knowledge := 10; biomass := 0; karma := k;
     zoomLevel := 0; tutorialStep := (-1);
     nodes := ns;
     satellites := []; spaceDust := []; energyOrbs := [];
     projection := set_projection_fields ps 0 0 0;
     turnHitIds := [];
     shockwaves := []; floatingTexts := []; visualEffects := [];
     projectileTrailParticles := [];
     selectedNodeId := None; aimAssistTargetId := None;
     screenShake := {| intensity := 0; duration := 0 |};
     notifications := [];
     aimAssist := true |}.

(** A launch in which the player overlaps a star that is still on cooldown
    and, later in the registry, a planet whose cooldown has expired. *)
Definition shield_player : Node.t :=
  example_node "player_consciousness" "You" player_consciousness 0 0 5 0 20
    100 100 0.

Definition shield_star : Node.t :=
  example_node "central_star" "Prime Star" star 30 0 0 0 40 1 2 20.

Definition shield_planet : Node.t :=
  example_node "tutorial_planet" "Silent World" rocky_planet 0 30 0 0 25 2 2 0.

Definition shielded_state : GameState :=
  example_state PROJECTING 0 [shield_player; shield_star; shield_planet].

Definition speed (n : Node.t) : R := hypot (Node.vx n) (Node.vy n).





(** The node array the physics loop leaves, as a function of the array alone:
    [done] holds the nodes already moved, [todo] those still to move. *)
Fixpoint physics_nodes (ps : PlayerState) (worldRadius : R)
  (done todo : list Node.t) : list Node.t :=
  match todo with
  | [] => done
  | node :: rest =>
    let n1 := move ps (done ++ node :: rest) node in
    let n2 := if beyond_boundary worldRadius n1 then bounce worldRadius n1 else n1 in
    physics_nodes ps worldRadius (done ++ [n2]) rest
  end.


(** A world at rest: the player idle, a planet and a star. *)
Definition rest_player : Node.t :=
  example_node "player_consciousness" "You" player_consciousness 0 300 0 0 20
    100 100 0.

Definition rest_planet : Node.t :=
  example_node "tutorial_planet" "Silent World" rocky_planet 0 (-150) 0 0 25
    2 2 0.

Definition rest_star : Node.t :=
  example_node "central_star" "Prime Star" star 0 0 0 0 40 2 2 0.

Definition world_at_rest : GameState :=
  example_state IDLE 0 [rest_player; rest_planet; rest_star].



(** A launch in which the player touches a planet that one more hit
    destroys. *)
Definition capture_planet : Node.t :=
  example_node "tutorial_planet" "Silent World" rocky_planet 0 30 0 0 25 1 2 0.

Definition capture_state : GameState :=
  example_state PROJECTING 0 [shield_player; capture_planet].

(** A launch in which the player touches a star that one more hit
    destroys. *)
Definition dying_star : Node.t :=
  example_node "central_star" "Prime Star" star 30 0 0 0 40 1 1000 0.

Definition supernova_state : GameState :=
  example_state PROJECTING 0 [shield_player; dying_star].

(** A world at rest in which karma is above the harmony threshold. *)
Definition harmonious_state : GameState :=
  example_state IDLE 60 [rest_player; rest_planet; rest_star].

(** A launch during which the star has been hit already. *)
Definition combo_locals : Locals :=
  tick_locals
    (set_turnHitIds ["central_star"%string]
       (example_state PROJECTING 0 [shield_player; rest_star])).

Definition first_hit_locals : Locals :=
  tick_locals (example_state PROJECTING 0 [shield_player; rest_star]).

(** ** Further notions: sequences of ticks, the player's step *)

Definition ticks (es : list TickEnv) (s : GameState) : GameState :=
  fold_left (fun st e => tick e st) es s.

(** What the node physics does to the player. *)
Definition player_step (ps : PlayerState) (worldRadius : R) (p : Node.t) : Node.t :=
  let n1 :=
    if PlayerState_eqb ps PROJECTING then integrate PROJECTILE_FRICTION p else p in
  if beyond_boundary worldRadius n1 then bounce worldRadius n1 else n1.

(** The bearing of [n] seen from [p]. *)
Definition bearing (p n : Node.t) : R :=
  atan2 (Node.y n - Node.y p) (Node.x n - Node.x p).

(** The factor a destruction outcome applies to the player's velocity after
    the bounce. *)
Definition outcome_factor (node : Node.t) : R :=
  if destroyed node then
    match Node.type node with
    | star => 1.5
    | rocky_planet | life_seed | sentient_colony => 0.6
    | _ => 1
    end
  else 1.

(** ** The Simulation component: clicks and camera director *)

(** The action [handlePlayerInteraction] dispatches, if any. *)
Definition handlePlayerInteraction (gameState : GameState) : option GameAction :=
  match playerState_of gameState with
  | IDLE => Some START_AIMING
  | AIMING_DIRECTION => Some SET_DIRECTION
  | AIMING_POWER => Some LAUNCH_PLAYER
  | _ => None
  end.

(** The action [handleContainerClick] dispatches; [onContainer] is
    [e.target === e.currentTarget] and [isPanning] is [isPanningRef.current]. *)
Definition handleContainerClick (onContainer isPanning : bool)
  (gameState : GameState) : option GameAction :=
  if onContainer && negb isPanning then
    if PlayerState_eqb (playerState_of gameState) IDLE
       && truthy (selectedNodeId gameState)
    then Some (SELECT_NODE None)
    else handlePlayerInteraction gameState
  else None.

Definition dispatch (gameState : GameState) (a : option GameAction) : GameState :=
  match a with
  | Some action => gameReducer gameState action
  | None => gameState
  end.

(** The camera director: the body of the effect of [Simulation].  The prop
    [setCameraTarget] is optional ([None] when the parent does not pass it,
    as [App] does); the result is the call of the callback the effect makes,
    [None] when it returns without calling it. *)
Definition cameraDirector {A : Type} (setCameraTarget : option (R -> R -> R -> A))
  (gameState : GameState) : option A :=
  match setCameraTarget, find_player (nodes gameState) with
  | Some callback, Some playerNode =>
    let '(focusX, focusY, targetScale) :=
      match playerState_of gameState with
      | AIMING_DIRECTION =>
        if truthy (aimAssistTargetId gameState) then
          match find_by_id (aimAssistTargetId gameState) (nodes gameState) with
          | Some target =>
            ((Node.x playerNode + Node.x target) / 2,
             (Node.y playerNode + Node.y target) / 2, 0.75)
          | None => (Node.x playerNode, Node.y playerNode, 0.75)
          end
        else
          let lookAheadDist := 200 in
          (Node.x playerNode
           + cos (Proj.aimAngle (projection gameState)) * lookAheadDist * 0.5,
           Node.y playerNode
           + sin (Proj.aimAngle (projection gameState)) * lookAheadDist * 0.5,
           0.75)
      | AIMING_POWER => (Node.x playerNode, Node.y playerNode, 1.6)
      | PROJECTING =>
        let speed := hypot (Node.vx playerNode) (Node.vy playerNode) in
        let leadFactor := 12 in
        (Node.x playerNode + Node.vx playerNode * leadFactor,
         Node.y playerNode + Node.vy playerNode * leadFactor,
         Rmax 0.6 (1.2 - speed / 40))
      | _ => (Node.x playerNode, Node.y playerNode, 1.2)
      end in
    Some (callback (- focusX * targetScale) (- focusY * targetScale) targetScale)
  | _, _ => None
  end.

(** ** The world-scale hook ([useWorldScale]) *)

Module Cam.

Record WorldTransform : Type := { x : R; y : R; scale : R }.

(** The state of the hook: the [transform] state and its four refs. *)
Record t : Type := {
  transform : WorldTransform;
  targetTransform : WorldTransform;
  isPanning : bool;
  lastMousePos : R * R;
  isAutoTracking : bool }.

Definition init (initialScale : R) : t :=
  {| transform := {| x := 0; y := 0; scale := initialScale |};
     targetTransform := {| x := 0; y := 0; scale := initialScale |};
     isPanning := false; lastMousePos := (0, 0); isAutoTracking := true |}.

(** [Math.max(0.2, Math.min(newScale, 5))] *)
Definition clamp (newScale : R) : R := Rmax 0.2 (Rmin newScale 5).

(** One animation frame of the interpolation loop, on the transform. *)
Definition lerp (target prev : WorldTransform) : WorldTransform :=
  let lerpFactor := 0.08 in
  let dx := x target - x prev in
  let dy := y target - y prev in
  let dScale := scale target - scale prev in
  if Rltb (Rabs dx) 0.1 && Rltb (Rabs dy) 0.1 && Rltb (Rabs dScale) 0.001
  then prev
  else {| x := x prev + dx * lerpFactor; y := y prev + dy * lerpFactor;
          scale := scale prev + dScale * lerpFactor |}.

Definition updateCamera (h : t) : t :=
  if isAutoTracking h && negb (isPanning h) then
    {| transform := lerp (targetTransform h) (transform h);
       targetTransform := targetTransform h; isPanning := isPanning h;
       lastMousePos := lastMousePos h; isAutoTracking := isAutoTracking h |}
  else h.

Definition setCameraTarget (tx ty tscale : R) (h : t) : t :=
  {| transform := transform h;
     targetTransform := {| x := tx; y := ty; scale := tscale |};
     isPanning := isPanning h; lastMousePos := lastMousePos h;
     isAutoTracking := true |}.

Definition handleWheel (deltaY : R) (h : t) : t :=
  let prev := transform h in
  let scaleFactor := 1.1 in
  let newScale :=
    if Rltb deltaY 0 then scale prev * scaleFactor else scale prev / scaleFactor in
  {| transform := {| x := x prev; y := y prev; scale := clamp newScale |};
     targetTransform := targetTransform h; isPanning := isPanning h;
     lastMousePos := lastMousePos h; isAutoTracking := false |}.

Definition handleMouseDown (button : Z) (clientX clientY : R) (h : t) : t :=
  if negb (Z.eqb button 0) then h
  else {| transform := transform h; targetTransform := targetTransform h;
          isPanning := true; lastMousePos := (clientX, clientY);
          isAutoTracking := false |}.

Definition handleMouseUp (h : t) : t :=
  {| transform := transform h; targetTransform := targetTransform h;
     isPanning := false; lastMousePos := lastMousePos h;
     isAutoTracking := isAutoTracking h |}.

Definition handleMouseMove (clientX clientY : R) (h : t) : t :=
  if negb (isPanning h) then h
  else
    let dx := clientX - fst (lastMousePos h) in
    let dy := clientY - snd (lastMousePos h) in
    let prev := transform h in
    {| transform := {| x := x prev + dx; y := y prev + dy; scale := scale prev |};
       targetTransform := targetTransform h; isPanning := isPanning h;
       lastMousePos := (clientX, clientY); isAutoTracking := isAutoTracking h |}.

Definition zoom (factor : R) (h : t) : t :=
  let prev := transform h in
  {| transform :=
       {| x := x prev; y := y prev; scale := clamp (scale prev * factor) |};
     targetTransform := targetTransform h; isPanning := isPanning h;
     lastMousePos := lastMousePos h; isAutoTracking := false |}.

Definition screenToWorld (h : t) (screenX screenY dwidth dheight : R) : R * R :=
  let translatedX := screenX - dwidth / 2 in
  let translatedY := screenY - dheight / 2 in
  let unpannedX := translatedX - x (transform h) in
  let unpannedY := translatedY - y (transform h) in
  (unpannedX / scale (transform h), unpannedY / scale (transform h)).

(** The events the hook reacts to. *)
Inductive event : Type :=
  | Frame
  | SetCameraTarget (tx ty tscale : R)
  | Wheel (deltaY : R)
  | MouseDown (button : Z) (clientX clientY : R)
  | MouseUp
  | MouseMove (clientX clientY : R)
  | Zoom (factor : R).

Definition step (h : t) (ev : event) : t :=
  match ev with
  | Frame => updateCamera h
  | SetCameraTarget tx ty ts => setCameraTarget tx ty ts h
  | Wheel d => handleWheel d h
  | MouseDown b cx cy => handleMouseDown b cx cy h
  | MouseUp => handleMouseUp h
  | MouseMove cx cy => handleMouseMove cx cy h
  | Zoom f => zoom f h
  end.

End Cam.

(** ** The retry wrapper of the generation service ([retryWithBackoff]) *)

Module Retry.

Definition MAX_RETRIES : nat := 5.
Definition INITIAL_BACKOFF_MS : Z := 5000.

(** [haystack.includes(needle)] *)
Definition includes (needle haystack : string) : bool :=
  match String.index 0 needle haystack with
  | Some _ => true
  | None => false
  end.

(** What the code reads of a caught value [error]: the value of
    [(error.toString() || '').toLowerCase()], or [None] when evaluating that
    expression throws (the value is [undefined] or [null], or its [toString]
    throws or does not give a string).  The expression is taken to give the
    same result each time it is evaluated. *)
Definition Error : Type := option string.

(** How one call of [operation] ends: it resolves, or it rejects (or throws)
    with a value [error]. *)
Inductive outcome (T : Type) : Type :=
  | Resolved (v : T)
  | Rejected (error : Error).

Arguments Resolved {T} v.
Arguments Rejected {T} error.

(** How an async function ends: its promise resolves with a value, or it
    rejects. *)
Inductive completion (T : Type) : Type :=
  | Returns (v : T)
  | Throws.

Arguments Returns {T} v.
Arguments Throws {T}.

(** [handleApiError].  [openSelectKey] stands for [window.aistudio]: [None]
    when [aistudio && aistudio.openSelectKey] is falsy, [Some true] when
    awaiting [aistudio.openSelectKey()] resolves, [Some false] when it
    throws. *)
Definition handleApiError (openSelectKey : option bool) (error : Error)
  : completion unit :=
  match error with
  | None => Throws
  | Some msg =>
    let isPermissionError :=
      includes "403" msg || includes "permission_denied" msg in
    let isNotFoundError :=
      includes "requested entity was not found" msg || includes "404" msg in
    if isPermissionError || isNotFoundError then
      match openSelectKey with
      | Some true => Returns tt
      | Some false => Throws
      | None => Returns tt
      end
    else Returns tt
  end.

(** [const isRateLimit] of the catch block. *)
Definition isRateLimit (errorMessage : string) : bool :=
  includes "429" errorMessage || includes "resource_exhausted" errorMessage.

(** What a run leaves behind: how the promise of [retryWithBackoff] settles,
    the delays slept (in milliseconds, in order), the number of calls of
    [operation], and whether [handleApiError] was called. *)
Record run (T : Type) : Type := {
  settled : completion (option T);
  delays : list Z;
  attempts : nat;
  handled : bool }.

Arguments settled {T} r.
Arguments delays {T} r.
Arguments attempts {T} r.
Arguments handled {T} r.

Definition stop {T : Type} (c : completion (option T)) : run T :=
  {| settled := c; delays := []; attempts := 0; handled := false |}.

Definition sleep {T : Type} (d : Z) (r : run T) : run T :=
  {| settled := settled r; delays := d :: delays r;
     attempts := attempts r; handled := handled r |}.

Definition called {T : Type} (r : run T) : run T :=
  {| settled := settled r; delays := delays r;
     attempts := S (attempts r); handled := handled r |}.

(** The [while (retries < MAX_RETRIES)] loop; [operation k] is the outcome of
    the call made when [retries] is [k], and [fuel] bounds the number of
    iterations. *)
Fixpoint loop {T : Type} (openSelectKey : option bool)
  (operation : nat -> outcome T) (fallbackValue : option T)
  (fuel retries : nat) : run T :=
  match fuel with
  | O => stop (Returns fallbackValue)
  | S fuel' =>
    if (retries <? MAX_RETRIES)%nat then
      called
        match operation retries with
        | Resolved v => stop (Returns (Some v))
        | Rejected error =>
          match error with
          | None => stop Throws
          | Some errorMessage =>
            if isRateLimit errorMessage then
              let retries' := S retries in
              if (MAX_RETRIES <=? retries')%nat then stop (Returns fallbackValue)
              else
                let delay :=
                  (INITIAL_BACKOFF_MS * 2 ^ Z.of_nat (retries' - 1))%Z in
                sleep delay
                  (loop openSelectKey operation fallbackValue fuel' retries')
            else
              {| settled :=
                   match handleApiError openSelectKey error with
                   | Returns _ => Returns fallbackValue
                   | Throws => Throws
                   end;
                 delays := []; attempts := 0; handled := true |}
          end
        end
    else stop (Returns fallbackValue)
  end.

Definition retryWithBackoff {T : Type} (openSelectKey : option bool)
  (operation : nat -> outcome T) (fallbackValue : option T) : run T :=
  loop openSelectKey operation fallbackValue MAX_RETRIES 0.

(** The call ends in the rate-limit branch of the catch block. *)
Definition rate_limited {T : Type} (o : outcome T) : bool :=
  match o with
  | Rejected (Some errorMessage) => isRateLimit errorMessage
  | _ => false
  end.

End Retry.

(** ** Notions used in the further statements *)

(** The fields no tick writes. *)
Definition settings_kept (s s' : GameState) : Prop :=
  isPaused s' = isPaused s /\ karma s' = karma s /\ zoomLevel s' = zoomLevel s
  /\ tutorialStep s' = tutorialStep s /\ selectedNodeId s' = selectedNodeId s
  /\ aimAssist s' = aimAssist s.

Definition unique_ids (l : list Node.t) : Prop := NoDup (map Node.id l).

(** The registry holds exactly one node of type [player_consciousness], and
    it is the player the game starts with. *)
Definition one_player (l : list Node.t) : Prop :=
  exists p, filter is_player l = [p]
            /\ Node.id p = "player_consciousness"%string
            /\ Node.currentIntegrity p = 100 /\ Node.maxIntegrity p = 100
            /\ Node.radius p = 20.

(** The scales of the hook are within the limits of the zoom. *)
Definition cam_in_range (h : Cam.t) : Prop :=
  0.2 <= Cam.scale (Cam.transform h) <= 5
  /\ 0.2 <= Cam.scale (Cam.targetTransform h) <= 5.

Definition cam_event_ok (ev : Cam.event) : Prop :=
  match ev with
  | Cam.SetCameraTarget _ _ tscale => 0.2 <= tscale <= 5
  | _ => True
  end.

Definition cam_run (evs : list Cam.event) (h : Cam.t) : Cam.t :=
  fold_left Cam.step evs h.

(** A drag: the mouse moves through the points of [moves]. *)
Definition drag (moves : list (R * R)) (h : Cam.t) : Cam.t :=
  fold_left (fun st m => Cam.handleMouseMove (fst m) (snd m) st) moves h.

(** ** Two more cases of the reducer *)


(** The step of the tutorial an action can complete. *)
Definition tutorial_trigger (a : GameAction) : option Z :=
  match a with
  | START_AIMING => Some 0%Z
  | SET_DIRECTION => Some 1%Z
  | LAUNCH_PLAYER => Some 2%Z
  | SELECT_NODE (Some i) =>
    if String.eqb i "tutorial_planet" then Some 2%Z else None
  | _ => None
  end.

(** The state after a sequence of actions. *)
Definition reduce (actions : list GameAction) (s : GameState) : GameState :=
  fold_left gameReducer actions s.

(** ** States and runs the further statements are evaluated on *)

Definition example_nodes : list Node.t := [rest_player; rest_planet; rest_star].

(** The player has just been launched with no speed, far from every node. *)
Definition flying_state : GameState := example_state PROJECTING 0 example_nodes.

Definition power_state : GameState := example_state AIMING_POWER 0 example_nodes.

Definition reforming_state : GameState := example_state REFORMING 0 example_nodes.

Definition selecting_state : GameState :=
  set_selectedNodeId (Some "central_star"%string)
    (example_state AIMING_DIRECTION 0 example_nodes).

Definition free_aim_state : GameState :=
  set_aimAssist false (example_state AIMING_DIRECTION 0 example_nodes).

Definition selected_idle_state : GameState :=
  set_selectedNodeId (Some "central_star"%string) world_at_rest.

Definition example_dust (i : nat) (px py : R) : Dust.t :=
  {| Dust.id := (0%Z, i); Dust.x := px; Dust.y := py; Dust.vx := 0.05;
     Dust.vy := 0; Dust.size := 1; Dust.cyan := false |}.

Definition dusty_state : GameState :=
  set_spaceDust [example_dust 0 0 300; example_dust 1 500 500] flying_state.

(** An operation that is rate limited twice and then resolves, and one
    that rejects with [undefined]. *)
Definition flaky_operation (k : nat) : Retry.outcome Z :=
  if (k <? 2)%nat then Retry.Rejected (Some "error: 429 too many requests"%string)
  else Retry.Resolved 7%Z.

Definition broken_operation (k : nat) : Retry.outcome Z := Retry.Rejected None.

Definition example_events : list Cam.event :=
  [Cam.Wheel 100; Cam.Zoom 100; Cam.SetCameraTarget 0 0 1; Cam.Frame].

(** * Properties *)

(** ** Comparisons *)

Lemma Rltb_true (a b : R) : Rltb a b = true <-> a < b.
Proof. unfold Rltb. destruct (Rlt_dec a b); split; intros; auto; discriminate || lra. Qed.

Lemma Rltb_false (a b : R) : Rltb a b = false <-> b <= a.
Proof. unfold Rltb. destruct (Rlt_dec a b); split; intros; auto; discriminate || lra. Qed.

Lemma Rleb_true (a b : R) : Rleb a b = true <-> a <= b.
Proof. unfold Rleb. destruct (Rle_dec a b); split; intros; auto; discriminate || lra. Qed.

Lemma Rleb_false (a b : R) : Rleb a b = false <-> b < a.
Proof. unfold Rleb. destruct (Rle_dec a b); split; intros; auto; discriminate || lra. Qed.

Lemma Rgtb_true (a b : R) : Rgtb a b = true <-> b < a.
Proof. apply Rltb_true. Qed.


Lemma hypot_nonneg (a b : R) : 0 <= hypot a b.
Proof. apply sqrt_pos. Qed.

Lemma hypot_lt (a b c : R) : 0 < c -> a * a + b * b < c * c -> hypot a b < c.
Proof.
  intros Hc H. unfold hypot.
  rewrite <- (sqrt_square c) by lra.
  apply sqrt_lt_1; nra.
Qed.

Lemma hypot_ge (a b c : R) : c * c <= a * a + b * b -> c <= hypot a b.
Proof.
  intros H. unfold hypot.
  destruct (Rle_dec 0 c) as [Hc | Hc].
  - rewrite <- (sqrt_square c) at 1 by lra. apply sqrt_le_1; nra.
  - pose proof (sqrt_pos (a * a + b * b)). lra.
Qed.

(** ** The standard hit and its reward (C7) *)

Lemma standard_hit_pays (e : TickEnv) (node : Node.t) (l : Locals) :
  resources (nextState (standard_hit e node l))
  = resources (nextState l)
    + hit_reward (Node.type node)
        (has_id (Node.id node) (turnHitIds (nextState l))).
Proof.
  unfold standard_hit, resources.
  destruct (Node.type node), (has_id (Node.id node) (turnHitIds (nextState l)));
    simpl; lra.
Qed.

Lemma hit_reward_combo (ty : NodeType) : hit_reward ty false < hit_reward ty true.
Proof. destruct ty; simpl; lra. Qed.

Lemma has_id_add (i : string) (ids : list string) : has_id i (add_id i ids) = true.
Proof.
  unfold add_id. destruct (has_id i ids) eqn:H; [exact H|].
  unfold has_id. rewrite existsb_app. simpl. rewrite String.eqb_refl.
  rewrite orb_true_r. reflexivity.
Qed.

Lemma standard_hit_records (e : TickEnv) (node : Node.t) (l : Locals) :
  has_id (Node.id node) (turnHitIds (nextState (standard_hit e node l))) = true.
Proof.
  unfold standard_hit.
  destruct (Node.type node), (has_id (Node.id node) (turnHitIds (nextState l)));
    simpl; apply has_id_add.
Qed.

(** C7: for every node type, the standard hit on a node whose id is already in
    the hit set of the launch pays strictly more than the standard hit on a
    node of the same type whose id is not in the set. *)
Theorem combo_reward_exceeds_first_hit :
  forall (e : TickEnv) (first combo : Node.t) (l l' : Locals),
    Node.type first = Node.type combo ->
    has_id (Node.id first) (turnHitIds (nextState l)) = false ->
    has_id (Node.id combo) (turnHitIds (nextState l')) = true ->
    resources (nextState (standard_hit e first l)) - resources (nextState l)
    < resources (nextState (standard_hit e combo l')) - resources (nextState l').
Proof.
  intros e first combo l l' Hty Hfirst Hcombo.
  rewrite !standard_hit_pays, Hfirst, Hcombo, Hty.
  pose proof (hit_reward_combo (Node.type combo)). lra.
Qed.

(** ** Frame lemmas: what each phase of the tick leaves alone *)

Ltac hit_cases :=
  unfold resolve_hit, supernova, assimilation, standard_hit;
  repeat match goal with
         | |- context [if ?c then _ else _] => destruct c eqn:?
         | |- context [match Node.type ?n with _ => _ end] =>
           destruct (Node.type n) eqn:?
         end;
  simpl.

Lemma satellite_income_frame (sats : list Sat.t) (s : GameState) :
  exists en bm, fold_left satellite_income sats s = set_biomass bm (set_energy en s).
Proof.
  revert s. induction sats as [|sat sats IH]; intros s; simpl.
  - exists (energy s), (biomass s). destruct s; reflexivity.
  - destruct (IH (satellite_income s sat)) as (en & bm & ->).
    exists en, bm. unfold satellite_income.
    destruct (NodeType_eqb (Sat.type sat) life_seed); reflexivity.
Qed.

Lemma node_physics_nextState (e : TickEnv) (wr : R) (todo done : list Node.t)
  (l : Locals) :
  exists orbs shake,
    nextState (node_physics e wr done todo l)
    = set_screenShake shake
        (set_energyOrbs (energyOrbs (nextState l) ++ orbs) (nextState l)).
Proof.
  revert done l. induction todo as [|node rest IH]; intros done l.
  - exists [], (screenShake (nextState l)). simpl. rewrite app_nil_r.
    destruct (nextState l); reflexivity.
  - simpl.
    destruct (beyond_boundary wr _ && is_player node);
      destruct (is_star node); try destruct (Rltb _ _);
      match goal with |- context [node_physics e wr ?d rest ?l2] =>
        destruct (IH d l2) as (orbs & shake & ->) end; simpl;
      rewrite <- ?app_assoc; do 2 eexists; unfold set_screenShake, set_energyOrbs; simpl; reflexivity.
Qed.

Lemma collision_loop_projection (e : TickEnv) (p : Node.t) (todo : list Node.t)
  (i : nat) (l : Locals) :
  projection (nextState (collision_loop e p todo i l)) = projection (nextState l).
Proof.
  revert i. induction todo as [|node rest IH]; intros i; simpl; [reflexivity|].
  destruct (String.eqb _ _); [apply IH|].
  destruct (in_contact p node); [|apply IH].
  destruct (Rleb _ _); [|reflexivity].
  hit_cases; reflexivity.
Qed.

Lemma dust_collision_projection (e : TickEnv) (p : Node.t) (l : Locals) :
  projection (nextState (dust_collision e p l)) = projection (nextState l).
Proof.
  unfold dust_collision. destruct (nodup _ _); reflexivity.
Qed.

Lemma state_machine_edge (e : TickEnv) (l : Locals) :
  let before := playerState_of (nextState l) in
  let after := playerState_of (nextState (state_machine_phase e l)) in
  after = before \/ legal_edge before after.
Proof.
  unfold state_machine_phase, playerState_of.
  destruct (find_player (mutableNodes l)) as [p|]; [|left; reflexivity].
  unfold projection_state_machine.
  destruct (Proj.playerState (projection (nextState l))) eqn:Hps; simpl.
  - left; congruence.
  - left; exact Hps.
  - left; exact Hps.
  - unfold projecting, reform_if_too_slow.
    destruct (find_player _); [destruct (Rltb _ _)|]; simpl;
      rewrite ?collision_loop_projection, ?dust_collision_projection, ?Hps;
      auto using legal_edge.
  - destruct (Rleb _ _); simpl; rewrite ?Hps; auto using legal_edge.
Qed.

Lemma satellite_logic_projection (l : Locals) :
  projection (nextState (satellite_logic l)) = projection (nextState l).
Proof.
  unfold satellite_logic. destruct (find_player (mutableNodes l)); simpl; [|reflexivity].
  destruct (satellite_income_frame (satellites (nextState l)) (nextState l))
    as (en & bm & ->). reflexivity.
Qed.

Lemma physics_phase_projection (e : TickEnv) (wr : R) (l : Locals) :
  projection (nextState (physics_phase e wr l)) = projection (nextState l).
Proof.
  unfold physics_phase.
  destruct (node_physics_nextState e wr (mutableNodes l) [] l) as (orbs & shake & ->).
  reflexivity.
Qed.

Lemma orb_collection_projection (l : Locals) :
  projection (nextState (orb_collection l)) = projection (nextState l).
Proof. unfold orb_collection. destruct (find_player _); reflexivity. Qed.

Lemma trail_update_projection (l : Locals) :
  projection (nextState (trail_update l)) = projection (nextState l).
Proof.
  unfold trail_update. destruct (find_player _); [destruct (PlayerState_eqb _ _)|];
    reflexivity.
Qed.

Lemma after_state_machine_projection (e : TickEnv) (wr : R) (l : Locals) :
  projection (nextState
    (trail_update (orb_collection
      (physics_phase e wr
        (resources_and_karma (effects_updates (dust_physics (satellite_logic l))))))))
  = projection (nextState l).
Proof.
  rewrite trail_update_projection, orb_collection_projection,
    physics_phase_projection.
  simpl. apply satellite_logic_projection.
Qed.

Lemma tick_edge (e : TickEnv) (s : GameState) :
  playerState_of (tick e s) = playerState_of s
  \/ legal_edge (playerState_of s) (playerState_of (tick e s)).
Proof.
  unfold tick. destruct (isPaused s); [left; reflexivity|].
  unfold playerState_of at 1 4. simpl. unfold before_orbs.
  rewrite after_state_machine_projection.
  exact (state_machine_edge e (tick_locals s)).
Qed.

(** C4: a projection action sent in the wrong state returns the state it was
    given, and no action moves the projection state except along one of the
    five edges IDLE, AIMING_DIRECTION, AIMING_POWER, PROJECTING, REFORMING,
    IDLE. *)
Theorem wrong_state_is_noop_and_edges_are_legal :
  forall (s : GameState) (a : GameAction),
    (wrong_state s a -> gameReducer s a = s)
    /\ (playerState_of (gameReducer s a) = playerState_of s
        \/ legal_edge (playerState_of s) (playerState_of (gameReducer s a))).
Proof.
  intros s a. split.
  - destruct a; simpl; try contradiction; unfold playerState_of;
      unfold start_aiming, set_direction, launch_player;
      destruct (Proj.playerState (projection s)); congruence.
  - destruct a; simpl.
    + apply tick_edge.
    + unfold start_aiming, playerState_of.
      destruct (Proj.playerState (projection s)) eqn:H; simpl;
        rewrite ?H; auto using legal_edge.
    + unfold set_direction, playerState_of.
      destruct (Proj.playerState (projection s)) eqn:H; simpl;
        rewrite ?H; auto using legal_edge.
    + unfold launch_player, playerState_of.
      destruct (Proj.playerState (projection s)) eqn:H; simpl;
        rewrite ?H; auto using legal_edge.
      destruct (find_player (nodes s)); simpl; rewrite ?H; auto using legal_edge.
    + left. unfold select_node, playerState_of.
      destruct nodeId as [i|]; simpl; [|reflexivity].
      destruct (negb _); destruct (_ && _); reflexivity.
    + left; reflexivity.
    + left; reflexivity.
    + left; reflexivity.
Qed.

(** ** Bodies: the fields the physics does not write *)

Lemma body_set_velocity (a b : R) (n : Node.t) : body (set_velocity a b n) = body n.
Proof. reflexivity. Qed.

Lemma body_scale_velocity (c : R) (n : Node.t) : body (scale_velocity c n) = body n.
Proof. reflexivity. Qed.

Lemma body_is_player (n n' : Node.t) : body n = body n' -> is_player n = is_player n'.
Proof. unfold body, is_player. intros H. injection H as _ _ -> _ _ _ _ _. reflexivity. Qed.

Lemma body_id (n n' : Node.t) : body n = body n' -> Node.id n = Node.id n'.
Proof. unfold body. intros H. injection H as -> _ _ _ _ _ _ _. reflexivity. Qed.

Lemma cons_eq_inv {A : Type} (a b : A) (l l' : list A) :
  a :: l = b :: l' -> a = b /\ l = l'.
Proof. intros H. injection H. auto. Qed.

Lemma map_body_update_player (f : Node.t -> Node.t) (l : list Node.t) :
  (forall n, body (f n) = body n) ->
  map body (update_player f l) = map body l.
Proof.
  intros Hf. induction l as [|n r IH]; simpl; [reflexivity|].
  destruct (is_player n); simpl; [rewrite Hf|rewrite IH]; reflexivity.
Qed.

Lemma map_body_update_at (j : nat) (g : Node.t -> Node.t) (l1 l2 : list Node.t) :
  (forall a b, body a = body b -> body (g a) = body (g b)) ->
  map body l1 = map body l2 ->
  map body (update_at j g l1) = map body (update_at j g l2).
Proof.
  intros Hg. revert j l2.
  induction l1 as [|a r IH]; intros j [|b r2] H; simpl in *; try discriminate;
    [reflexivity|].
  apply cons_eq_inv in H as [Hab Hr].
  destruct j; simpl; [rewrite (Hg a b Hab), Hr | rewrite Hab, (IH j r2 Hr)];
    reflexivity.
Qed.

Lemma map_body_remove_id (i : string) (l1 l2 : list Node.t) :
  map body l1 = map body l2 ->
  map body (remove_id i l1) = map body (remove_id i l2).
Proof.
  revert l2. induction l1 as [|a r IH]; intros [|b r2] H; simpl in *;
    try discriminate; [reflexivity|].
  apply cons_eq_inv in H as [Hab Hr]. rewrite (body_id a b Hab).
  destruct (negb _); simpl; [rewrite Hab|]; rewrite (IH r2 Hr); reflexivity.
Qed.

Lemma update_at_twice (j : nat) (g : Node.t -> Node.t) (m : Node.t) (l : list Node.t) :
  update_at j g (update_at j (fun _ => m) l) = update_at j (fun _ => g m) l.
Proof.
  revert j. induction l as [|a r IH]; intros [|j]; simpl; try reflexivity.
  rewrite IH. reflexivity.
Qed.

(** ** The collision loop stops at the first contact *)

Lemma collision_loop_first_contact (e : TickEnv) (p : Node.t)
  (todo : list Node.t) (i : nat) (l : Locals) :
  collision_loop e p todo i l
  = match first_contact p todo i with
    | Some (j, node) =>
      if Rleb (Node.integrityCooldown node) 0 then resolve_hit e p j node l else l
    | None => l
    end.
Proof.
  revert i. induction todo as [|node rest IH]; intros i; simpl; [reflexivity|].
  destruct (String.eqb (Node.id node) (Node.id p)); simpl; [apply IH|].
  destruct (in_contact p node); [reflexivity|apply IH].
Qed.

Lemma dust_collision_mutableNodes (e : TickEnv) (p : Node.t) (l : Locals) :
  mutableNodes (dust_collision e p l) = mutableNodes l.
Proof. unfold dust_collision. destruct (nodup _ _); reflexivity. Qed.

Lemma remove_id_update_at (j : nat) (node m : Node.t) (l : list Node.t) :
  nth_error l j = Some node -> Node.id m = Node.id node ->
  remove_id (Node.id node) (update_at j (fun _ => m) l) = remove_id (Node.id node) l.
Proof.
  intros Hj Hm. revert j Hj. induction l as [|a r IH]; intros [|j] Hj; simpl in *;
    try discriminate.
  - injection Hj as ->. rewrite Hm, String.eqb_refl. reflexivity.
  - rewrite (IH j Hj). reflexivity.
Qed.

Lemma first_contact_nth (p : Node.t) (todo : list Node.t) (i j : nat) (node : Node.t) :
  first_contact p todo i = Some (j, node) ->
  (i <= j)%nat /\ nth_error todo (j - i) = Some node
  /\ String.eqb (Node.id node) (Node.id p) = false /\ in_contact p node = true.
Proof.
  revert i. induction todo as [|a r IH]; intros i H; simpl in H; [discriminate|].
  destruct (negb _ && _) eqn:Hc.
  - injection H as <- <-. rewrite Nat.sub_diag. simpl.
    apply andb_true_iff in Hc as [Hid Hin]. apply negb_true_iff in Hid. auto.
  - destruct (IH _ H) as (Hle & Hn & Hrest).
    split; [lia|]. split; [|exact Hrest].
    replace (j - i)%nat with (S (j - S i)) by lia. exact Hn.
Qed.

Lemma resolve_hit_bodies (e : TickEnv) (p : Node.t) (j : nat) (node : Node.t)
  (l : Locals) :
  nth_error (mutableNodes l) j = Some node ->
  map body (mutableNodes (resolve_hit e p j node l))
  = map body (outcome j node (mutableNodes l)).
Proof.
  intros Hj. unfold outcome, resolve_hit, damaged.
  set (up := update_player _).
  assert (Hup : forall ns, map body (up ns) = map body ns)
    by (intros; apply map_body_update_player; reflexivity).
  assert (Hsc : forall c ns,
             map body (update_player (scale_velocity c) (up ns)) = map body ns)
    by (intros; rewrite map_body_update_player by reflexivity; apply Hup).
  destruct (is_asteroid node) eqn:Ha; simpl.
  - rewrite andb_false_r. unfold standard_hit.
    destruct (Node.type _), (has_id _ _); simpl; apply Hup.
  - rewrite !andb_true_r. destruct (Rleb _ _).
    + destruct (Node.type node) eqn:Hty; simpl; rewrite ?Hup; try reflexivity.
      * rewrite <- (update_at_twice j reset_star).
        apply (map_body_update_at j reset_star); [|apply Hsc].
        intros a b H. unfold body in *. simpl.
        injection H as -> -> -> -> -> -> _ _. reflexivity.
      * match goal with |- context [update_at j (fun _ => ?m) _] =>
          rewrite <- (remove_id_update_at j node m (mutableNodes l) Hj eq_refl) end.
        apply map_body_remove_id, Hsc.
      * match goal with |- context [update_at j (fun _ => ?m) _] =>
          rewrite <- (remove_id_update_at j node m (mutableNodes l) Hj eq_refl) end.
        apply map_body_remove_id, Hsc.
      * match goal with |- context [update_at j (fun _ => ?m) _] =>
          rewrite <- (remove_id_update_at j node m (mutableNodes l) Hj eq_refl) end.
        apply map_body_remove_id, Hsc.
    + unfold standard_hit.
      destruct (Node.type _), (has_id _ _); simpl; apply Hup.
Qed.

(** ** The node physics keeps the bodies *)

Lemma body_integrate (c : R) (n : Node.t) : body (integrate c n) = body n.
Proof. reflexivity. Qed.

Lemma body_move (ps : PlayerState) (all : list Node.t) (n : Node.t) :
  body (move ps all n) = body n.
Proof.
  unfold move. destruct (is_player n); [destruct (PlayerState_eqb _ _)|];
    reflexivity.
Qed.

Lemma body_bounce (wr : R) (n : Node.t) : body (bounce wr n) = body n.
Proof. unfold bounce. destruct (is_player n); reflexivity. Qed.

Lemma PlayerState_eqb_eq (a b : PlayerState) : PlayerState_eqb a b = true <-> a = b.
Proof. destruct a, b; simpl; split; intros; congruence. Qed.

Lemma node_physics_nodes (e : TickEnv) (wr : R) (todo done : list Node.t)
  (l : Locals) :
  exists tail,
    mutableNodes (node_physics e wr done todo l) = done ++ tail
    /\ Forall2 (moved (Proj.playerState (projection (nextState l))) wr) todo tail.
Proof.
  revert done l. induction todo as [|node rest IH]; intros done l.
  - exists []. simpl. rewrite app_nil_r. auto.
  - simpl.
    set (ps := Proj.playerState (projection (nextState l))).
    set (n1 := move ps (done ++ node :: rest) node).
    set (n2 := if beyond_boundary wr n1 then bounce wr n1 else n1).
    match goal with |- context [node_physics e wr (done ++ [n2]) rest ?l2] =>
      destruct (IH (done ++ [n2]) l2) as (tail & Hn & Hf);
      assert (Hps : Proj.playerState (projection (nextState l2)) = ps)
    end.
    { destruct (beyond_boundary wr n1 && is_player node);
        destruct (is_star node); try destruct (Rltb _ _); reflexivity. }
    rewrite Hps in Hf. exists (n2 :: tail). split.
    + rewrite Hn, <- app_assoc. reflexivity.
    + constructor; [|exact Hf]. split.
      * subst n2 n1. destruct (beyond_boundary _ _);
          rewrite ?body_bounce; apply body_move.
      * intros Hp Hnp Hin. subst n2 n1. unfold move. rewrite Hp.
        destruct (PlayerState_eqb ps PROJECTING) eqn:E;
          [apply PlayerState_eqb_eq in E; contradiction|].
        rewrite Hin. reflexivity.
Qed.

Lemma Forall2_moved_bodies (ps : PlayerState) (wr : R) (l l' : list Node.t) :
  Forall2 (moved ps wr) l l' -> map body l' = map body l.
Proof.
  induction 1 as [|a b r r' [Hb _] _ IH]; simpl; [reflexivity|].
  rewrite Hb, IH. reflexivity.
Qed.

Lemma physics_phase_nodes (e : TickEnv) (wr : R) (l : Locals) :
  Forall2 (moved (Proj.playerState (projection (nextState l))) wr)
    (mutableNodes l) (mutableNodes (physics_phase e wr l)).
Proof.
  unfold physics_phase.
  destruct (node_physics_nodes e wr (mutableNodes l) [] l) as (tail & -> & H).
  exact H.
Qed.

Lemma satellite_logic_mutableNodes (l : Locals) :
  mutableNodes (satellite_logic l) = mutableNodes l.
Proof. unfold satellite_logic. destruct (find_player _); reflexivity. Qed.

Lemma orb_collection_mutableNodes (l : Locals) :
  mutableNodes (orb_collection l) = mutableNodes l.
Proof. unfold orb_collection. destruct (find_player _); reflexivity. Qed.

Lemma trail_update_mutableNodes (l : Locals) :
  mutableNodes (trail_update l) = mutableNodes l.
Proof.
  unfold trail_update. destruct (find_player _); [destruct (PlayerState_eqb _ _)|];
    reflexivity.
Qed.

(** The nodes a tick returns are those the state machine left, moved by the
    physics. *)
Lemma tick_nodes (e : TickEnv) (s : GameState) :
  isPaused s = false ->
  let l1 := state_machine_phase e (tick_locals s) in
  Forall2 (moved (playerState_of (nextState l1)) (worldRadius_of e s))
    (mutableNodes l1) (nodes (tick e s)).
Proof.
  intros Hp l1. unfold tick. rewrite Hp. simpl.
  rewrite trail_update_mutableNodes, orb_collection_mutableNodes.
  unfold before_orbs.
  pose proof (physics_phase_nodes e (worldRadius_of e s)
    (resources_and_karma (effects_updates (dust_physics (satellite_logic l1))))) as H.
  simpl in H. rewrite satellite_logic_mutableNodes, satellite_logic_projection in H.
  exact H.
Qed.

Lemma reform_bodies (l : Locals) :
  map body (mutableNodes (reform_if_too_slow l)) = map body (mutableNodes l).
Proof.
  unfold reform_if_too_slow.
  destruct (find_player _); [destruct (Rltb _ _)|]; simpl; try reflexivity.
  apply map_body_update_player. reflexivity.
Qed.

Lemma state_machine_bodies (e : TickEnv) (s : GameState) :
  map body (mutableNodes (state_machine_phase e (tick_locals s)))
  = map body (match collision_of s with
              | Some (j, node) => outcome j node (nodes s)
              | None => nodes s
              end).
Proof.
  unfold state_machine_phase, collision_of, projection_state_machine, playerState_of.
  simpl. destruct (find_player (nodes s)) as [p|]; [|reflexivity].
  destruct (Proj.playerState (projection s)); try reflexivity.
  unfold projecting. rewrite reform_bodies, collision_loop_first_contact.
  rewrite (dust_collision_mutableNodes e p). simpl.
  destruct (first_contact p (nodes s) 0) as [[j node]|] eqn:Hc;
    [|rewrite ?(dust_collision_mutableNodes e p); reflexivity].
  destruct (Rleb _ _); [|rewrite ?(dust_collision_mutableNodes e p); reflexivity].
  rewrite resolve_hit_bodies; rewrite ?(dust_collision_mutableNodes e p); [reflexivity|].
  apply first_contact_nth in Hc as (_ & Hn & _). rewrite Nat.sub_0_r in Hn. exact Hn.
Qed.

Lemma tick_bodies (e : TickEnv) (s : GameState) :
  isPaused s = false ->
  map body (nodes (tick e s))
  = map body (match collision_of s with
              | Some (j, node) => outcome j node (nodes s)
              | None => nodes s
              end).
Proof.
  intros Hp. rewrite <- (state_machine_bodies e s).
  exact (Forall2_moved_bodies _ _ _ _ (tick_nodes e s Hp)).
Qed.

(** ** Well-formed states are kept by the reducer *)

Lemma in_map_body (l l' : list Node.t) (n : Node.t) :
  map body l = map body l' -> In n l -> exists m, In m l' /\ body m = body n.
Proof.
  intros H Hin. apply (in_map body) in Hin. rewrite H in Hin.
  apply in_map_iff in Hin as (m & Hm & Hi). eauto.
Qed.

Lemma node_ok_body (n m : Node.t) : body n = body m -> node_ok n -> node_ok m.
Proof.
  unfold body, node_ok, integrity_in_range, is_asteroid.
  intros H. injection H as _ _ Ht _ _ Hm Hc _. rewrite Ht, Hm, Hc. auto.
Qed.

Lemma Forall_node_ok_bodies (l l' : list Node.t) :
  map body l = map body l' -> Forall node_ok l' -> Forall node_ok l.
Proof.
  intros H Hf. apply Forall_forall. intros n Hn.
  destruct (in_map_body l l' n H Hn) as (m & Hm & Hb).
  apply (node_ok_body m n Hb). rewrite Forall_forall in Hf. auto.
Qed.

Lemma single_player_bodies (l l' : list Node.t) :
  map body l = map body l' -> single_player l' -> single_player l.
Proof.
  intros H Hs n m Hn Hm Pn Pm.
  destruct (in_map_body l l' n H Hn) as (n' & Hn' & Bn).
  destruct (in_map_body l l' m H Hm) as (m' & Hm' & Bm).
  rewrite <- (body_id _ _ Bn), <- (body_id _ _ Bm).
  apply Hs; auto.
  - rewrite (body_is_player _ _ Bn). exact Pn.
  - rewrite (body_is_player _ _ Bm). exact Pm.
Qed.

Lemma in_update_at (j : nat) (m : Node.t) (l : list Node.t) (n : Node.t) :
  In n (update_at j (fun _ => m) l) -> n = m \/ In n l.
Proof.
  revert j. induction l as [|a r IH]; intros [|j]; simpl; try tauto.
  - intros [H|H]; auto.
  - intros [H|H]; auto. destruct (IH j H); auto.
Qed.

Lemma in_remove_id (i : string) (l : list Node.t) (n : Node.t) :
  In n (remove_id i l) <-> In n l /\ String.eqb (Node.id n) i = false.
Proof.
  unfold remove_id. rewrite filter_In, negb_true_iff. tauto.
Qed.

Lemma find_player_In (l : list Node.t) (p : Node.t) :
  find_player l = Some p -> In p l /\ is_player p = true.
Proof. apply find_some. Qed.

(** What is known of the node a tick collides with. *)
Lemma collision_of_spec (s : GameState) (j : nat) (node : Node.t) :
  collision_of s = Some (j, node) ->
  exists p,
    find_player (nodes s) = Some p /\ playerState_of s = PROJECTING
    /\ first_contact p (nodes s) 0 = Some (j, node)
    /\ nth_error (nodes s) j = Some node
    /\ String.eqb (Node.id node) (Node.id p) = false
    /\ Node.integrityCooldown node <= 0.
Proof.
  unfold collision_of. destruct (find_player (nodes s)) as [p|]; [|discriminate].
  destruct (playerState_of s); try discriminate.
  destruct (first_contact p (nodes s) 0) as [[j' node']|] eqn:Hc; [|discriminate].
  destruct (Rleb _ _) eqn:Hcd; [|discriminate].
  intros H. injection H as -> ->. exists p.
  pose proof (first_contact_nth _ _ _ _ _ Hc) as (_ & Hn & Hid & _).
  rewrite Nat.sub_0_r in Hn. apply Rleb_true in Hcd. auto 10.
Qed.

Lemma type_not_asteroid (n : Node.t) :
  is_asteroid n = false <-> Node.type n <> asteroid.
Proof. unfold is_asteroid. destruct (Node.type n); simpl; split; congruence. Qed.

Lemma node_ok_damaged (node : Node.t) :
  node_ok node -> destroyed node = false -> node_ok (damaged node).
Proof.
  unfold node_ok, integrity_in_range, destroyed, damaged, is_asteroid.
  intros [Hr Hpos] Hd. destruct (NodeType_eqb (Node.type node) asteroid) eqn:Ha; simpl.
  - rewrite Ha. split; [exact Hr|discriminate].
  - rewrite andb_true_r in Hd. apply Rleb_false in Hd.
    rewrite Ha. split; [lra|intros; lra].
Qed.

Lemma node_ok_reset_star (node : Node.t) :
  node_ok node -> is_asteroid node = false -> node_ok (reset_star (damaged node)).
Proof.
  unfold node_ok, integrity_in_range, reset_star, damaged, is_asteroid.
  intros [Hr Hpos] Ha. rewrite Ha. simpl. rewrite Ha.
  specialize (Hpos Ha). split; [lra|intros; lra].
Qed.

Lemma Forall_update_at (P : Node.t -> Prop) (j : nat) (m : Node.t) (l : list Node.t) :
  P m -> Forall P l -> Forall P (update_at j (fun _ => m) l).
Proof.
  intros Hm Hl. apply Forall_forall. intros n Hn.
  destruct (in_update_at _ _ _ _ Hn) as [->|H]; [exact Hm|].
  rewrite Forall_forall in Hl. auto.
Qed.

Lemma Forall_remove_id (P : Node.t -> Prop) (i : string) (l : list Node.t) :
  Forall P l -> Forall P (remove_id i l).
Proof.
  intros Hl. apply Forall_forall. intros n Hn. apply in_remove_id in Hn as [Hn _].
  rewrite Forall_forall in Hl. auto.
Qed.

Lemma outcome_node_ok (s : GameState) (j : nat) (node : Node.t) :
  Forall node_ok (nodes s) -> single_player (nodes s) ->
  collision_of s = Some (j, node) ->
  Forall node_ok (outcome j node (nodes s)).
Proof.
  intros Hok Hsp Hc.
  destruct (collision_of_spec s j node Hc) as (p & Hp & _ & _ & Hn & Hid & _).
  assert (Hin : In node (nodes s)) by (eapply nth_error_In; eauto).
  assert (Hnode : node_ok node) by (rewrite Forall_forall in Hok; auto).
  unfold outcome.
  destruct (is_asteroid node) eqn:Ha.
  - rewrite andb_false_r. apply Forall_update_at; [|exact Hok].
    apply node_ok_damaged; [exact Hnode|].
    unfold destroyed. rewrite Ha, andb_false_r. reflexivity.
  - assert (Hd : Rleb (Node.currentIntegrity (damaged node)) 0 && negb false
                 = destroyed node).
    { unfold destroyed, damaged. rewrite Ha. reflexivity. }
    rewrite Hd. destruct (destroyed node) eqn:Hdes.
    + destruct (Node.type node) eqn:Hty.
      * exfalso. apply find_player_In in Hp as [Hpin Hpp].
        assert (Hnp : is_player node = true) by (unfold is_player; rewrite Hty; reflexivity).
        rewrite (Hsp node p Hin Hpin Hnp Hpp), String.eqb_refl in Hid. discriminate.
      * apply Forall_update_at; [|exact Hok]. apply node_ok_reset_star; assumption.
      * apply Forall_remove_id, Hok.
      * apply Forall_remove_id, Hok.
      * apply Forall_remove_id, Hok.
      * unfold is_asteroid in Ha. rewrite Hty in Ha. discriminate.
    + apply Forall_update_at; [|exact Hok]. apply node_ok_damaged; assumption.
Qed.

Lemma outcome_single_player (j : nat) (node : Node.t) (l : list Node.t) :
  nth_error l j = Some node -> single_player l -> single_player (outcome j node l).
Proof.
  intros Hn Hsp.
  assert (Hin : In node l) by (eapply nth_error_In; eauto).
  assert (Hsub : forall n, In n (outcome j node l) ->
                   exists m, In m l /\ Node.id m = Node.id n /\ is_player m = is_player n).
  { intros n H. unfold outcome in H.
    assert (Hd : forall m', Node.id m' = Node.id node -> is_player m' = is_player node ->
                 In n (update_at j (fun _ => m') l) ->
                 exists m, In m l /\ Node.id m = Node.id n /\ is_player m = is_player n).
    { intros m' Hi Ht H'. destruct (in_update_at _ _ _ _ H') as [->|H''].
      - exists node. auto.
      - exists n. auto. }
    assert (Hdam : Node.id (damaged node) = Node.id node
                   /\ is_player (damaged node) = is_player node).
    { unfold damaged. destruct (is_asteroid node); split; reflexivity. }
    destruct Hdam as [Hdi Hdt].
    destruct (_ && _); [destruct (Node.type node)|];
      try (apply (Hd _ Hdi Hdt H));
      try (apply in_remove_id in H as [H _]; exists n; auto).
    apply (Hd (reset_star (damaged node))); auto. }
  intros n m Hi Hm Pn Pm.
  destruct (Hsub n Hi) as (n' & Hn' & In' & Tn').
  destruct (Hsub m Hm) as (m' & Hm' & Im' & Tm').
  rewrite <- In', <- Im'. apply Hsp; auto; congruence.
Qed.

Lemma power_oscillation_range (t : Z) : 0 <= power_oscillation t <= 100.
Proof.
  unfold power_oscillation.
  pose proof (SIN_bound (IZR t / (1000 / POWER_OSCILLATION_SPEED))). lra.
Qed.

Lemma state_machine_power (e : TickEnv) (l : Locals) :
  power_in_range (nextState l) ->
  power_in_range (nextState (state_machine_phase e l)).
Proof.
  unfold power_in_range, state_machine_phase, projection_state_machine.
  intros H. destruct (find_player _) as [p|]; [|exact H].
  destruct (Proj.playerState _); simpl; try exact H.
  - apply power_oscillation_range.
  - unfold projecting, reform_if_too_slow.
    destruct (find_player _); [destruct (Rltb _ _)|]; simpl;
      rewrite ?collision_loop_projection, ?(dust_collision_projection e p); exact H.
  - destruct (Rleb _ _); exact H.
Qed.

Lemma tick_projection (e : TickEnv) (s : GameState) :
  isPaused s = false ->
  projection (tick e s)
  = projection (nextState (state_machine_phase e (tick_locals s))).
Proof.
  intros Hp. unfold tick. rewrite Hp. simpl. unfold before_orbs.
  apply after_state_machine_projection.
Qed.

Lemma well_formed_tick (e : TickEnv) (s : GameState) :
  well_formed s -> well_formed (tick e s).
Proof.
  intros (Hok & Hsp & Hpw).
  destruct (isPaused s) eqn:Hp; [unfold tick; rewrite Hp; split; [|split]; assumption|].
  pose proof (tick_bodies e s Hp) as Hb.
  split; [|split].
  - apply (Forall_node_ok_bodies _ _ Hb).
    destruct (collision_of s) as [[j node]|] eqn:Hc; [|exact Hok].
    apply outcome_node_ok; assumption.
  - apply (single_player_bodies _ _ Hb).
    destruct (collision_of s) as [[j node]|] eqn:Hc; [|exact Hsp].
    destruct (collision_of_spec s j node Hc) as (p & _ & _ & _ & Hn & _).
    apply outcome_single_player; assumption.
  - unfold power_in_range. rewrite (tick_projection e s Hp).
    apply (state_machine_power e (tick_locals s)). exact Hpw.
Qed.








(** ** The player stays in the registry *)

Lemma has_player_bodies (l l' : list Node.t) :
  map body l = map body l' -> has_player l = has_player l'.
Proof.
  revert l'. induction l as [|a r IH]; intros [|b r'] H; simpl in *;
    try discriminate; [reflexivity|].
  apply cons_eq_inv in H as [Hab Hr].
  rewrite (body_is_player a b Hab), (IH r' Hr). reflexivity.
Qed.

Lemma find_player_has_player (l : list Node.t) :
  has_player l = true <-> exists p, find_player l = Some p.
Proof.
  unfold has_player, find_player. induction l as [|a r IH]; simpl.
  - split; [discriminate|intros [p H]; discriminate].
  - destruct (is_player a); simpl; [split; eauto|exact IH].
Qed.

Lemma has_player_In (l : list Node.t) (p : Node.t) :
  In p l -> is_player p = true -> has_player l = true.
Proof. intros. apply existsb_exists. eauto. Qed.

Lemma in_update_at_other (j : nat) (m node p : Node.t) (l : list Node.t) :
  nth_error l j = Some node -> In p l -> Node.id p <> Node.id node ->
  In p (update_at j (fun _ => m) l).
Proof.
  revert j. induction l as [|a r IH]; intros [|j] Hn Hin Hne; simpl in *;
    try discriminate.
  - injection Hn as ->. destruct Hin as [->|Hin]; [contradiction|auto].
  - destruct Hin as [->|Hin]; auto.
Qed.

Lemma outcome_has_player (j : nat) (node p : Node.t) (l : list Node.t) :
  nth_error l j = Some node -> In p l -> is_player p = true ->
  String.eqb (Node.id node) (Node.id p) = false ->
  has_player (outcome j node l) = true.
Proof.
  intros Hn Hin Hp Hid.
  assert (Hne : Node.id p <> Node.id node).
  { intros E. rewrite E, String.eqb_refl in Hid. discriminate. }
  apply (has_player_In _ p); [|exact Hp].
  unfold outcome.
  destruct (_ && _); [destruct (Node.type node)|];
    try (apply (in_update_at_other j _ node); assumption);
    apply in_remove_id; (split; [exact Hin|]);
    rewrite String.eqb_sym; exact Hid.
Qed.

Lemma state_machine_has_player (e : TickEnv) (s : GameState) (p : Node.t) :
  find_player (nodes s) = Some p ->
  has_player (mutableNodes (state_machine_phase e (tick_locals s))) = true.
Proof.
  intros Hp. rewrite (has_player_bodies _ _ (state_machine_bodies e s)).
  destruct (find_player_In _ _ Hp) as [Hin Hpp].
  destruct (collision_of s) as [[j node]|] eqn:Hc.
  - destruct (collision_of_spec s j node Hc) as (p' & Hp' & _ & _ & Hn & Hid & _).
    rewrite Hp in Hp'. injection Hp' as <-.
    apply (outcome_has_player j node p); assumption.
  - apply (has_player_In _ p); assumption.
Qed.

Lemma tick_has_player (e : TickEnv) (s : GameState) (p : Node.t) :
  find_player (nodes s) = Some p -> exists p', find_player (nodes (tick e s)) = Some p'.
Proof.
  intros Hp. apply find_player_has_player.
  destruct (isPaused s) eqn:Hpa.
  - unfold tick. rewrite Hpa. apply find_player_has_player. eauto.
  - rewrite (has_player_bodies _ _ (tick_bodies e s Hpa)).
    rewrite <- (has_player_bodies _ _ (state_machine_bodies e s)).
    apply (state_machine_has_player e s p Hp).
Qed.

(** ** Knowledge (C1) *)

Lemma nextState_trail_update_frame (l : Locals) :
  exists tr, nextState (trail_update l) = set_projectileTrailParticles tr (nextState l).
Proof.
  unfold trail_update.
  destruct (find_player _); [destruct (PlayerState_eqb _ _)|]; simpl;
    eexists; unfold set_projectileTrailParticles; simpl; reflexivity.
Qed.

Lemma tick_knowledge (e : TickEnv) (s : GameState) :
  isPaused s = false ->
  knowledge (tick e s)
  = knowledge (nextState (state_machine_phase e (tick_locals s)))
    + BASE_KNOWLEDGE_RATE.
Proof.
  intros Hp. unfold tick. rewrite Hp. simpl.
  destruct (nextState_trail_update_frame (orb_collection (before_orbs e s)))
    as (tr & ->). simpl.
  assert (H : knowledge (nextState (orb_collection (before_orbs e s)))
              = knowledge (nextState (before_orbs e s))).
  { unfold orb_collection. destruct (find_player _); reflexivity. }
  rewrite H. unfold before_orbs, physics_phase.
  match goal with |- context [node_physics e ?wr [] ?t ?l] =>
    destruct (node_physics_nextState e wr t [] l) as (orbs & shake & ->) end.
  simpl. f_equal. unfold satellite_logic.
  destruct (find_player _); simpl; [|reflexivity].
  match goal with |- context [fold_left satellite_income ?a ?b] =>
    destruct (satellite_income_frame a b) as (en & bm & ->) end.
  reflexivity.
Qed.

Lemma state_machine_knowledge_idle (e : TickEnv) (l : Locals) :
  playerState_of (nextState l) <> PROJECTING ->
  knowledge (nextState (state_machine_phase e l)) = knowledge (nextState l).
Proof.
  unfold state_machine_phase, projection_state_machine, playerState_of.
  intros H. destruct (find_player _); [|reflexivity].
  destruct (Proj.playerState _); try reflexivity; contradiction.
Qed.

(** C1 (as the code behaves): outside a launch, an unpaused tick adds exactly
    [BASE_KNOWLEDGE_RATE] to knowledge also when karma exceeds the harmony
    threshold; the factor 1.25 is computed and not applied. *)
Theorem harmony_bonus_is_not_applied :
  forall (e : TickEnv) (s : GameState),
    isPaused s = false ->
    playerState_of s <> PROJECTING ->
    HARMONY_THRESHOLD < karma s ->
    knowledge (tick e s) - knowledge s = BASE_KNOWLEDGE_RATE
    /\ knowledge (tick e s) - knowledge s <> 1.25 * BASE_KNOWLEDGE_RATE.
Proof.
  intros e s Hp Hps _.
  rewrite (tick_knowledge e s Hp).
  rewrite (state_machine_knowledge_idle e (tick_locals s) Hps). simpl.
  unfold BASE_KNOWLEDGE_RATE. split; lra.
Qed.

(** ** Energy orbs (C10) *)





Lemma tick_nodes_before_orbs (e : TickEnv) (s : GameState) :
  isPaused s = false -> nodes (tick e s) = mutableNodes (before_orbs e s).
Proof.
  intros Hp. unfold tick. rewrite Hp. simpl.
  rewrite trail_update_mutableNodes, orb_collection_mutableNodes. reflexivity.
Qed.



(** ** Satellites (C8) *)

Lemma tick_satellites_after (e : TickEnv) (s : GameState) :
  isPaused s = false ->
  satellites (tick e s)
  = satellites (nextState (satellite_logic (state_machine_phase e (tick_locals s)))).
Proof.
  intros Hp. unfold tick. rewrite Hp. simpl.
  destruct (nextState_trail_update_frame (orb_collection (before_orbs e s)))
    as (tr & ->). simpl.
  assert (H : satellites (nextState (orb_collection (before_orbs e s)))
              = satellites (nextState (before_orbs e s))).
  { unfold orb_collection. destruct (find_player _); reflexivity. }
  rewrite H. unfold before_orbs, physics_phase.
  match goal with |- context [node_physics e ?wr [] ?t ?l] =>
    destruct (node_physics_nextState e wr t [] l) as (orbs & shake & ->) end.
  reflexivity.
Qed.

Lemma satellite_logic_satellites (l : Locals) :
  has_player (mutableNodes l) = true ->
  satellites (nextState (satellite_logic l)) = map orbit (satellites (nextState l)).
Proof.
  intros H. apply find_player_has_player in H as (p & Hp).
  unfold satellite_logic. rewrite Hp. reflexivity.
Qed.

Lemma destroyed_test (node : Node.t) :
  Rleb (Node.currentIntegrity (damaged node)) 0 && negb (is_asteroid node)
  = destroyed node.
Proof.
  unfold destroyed, damaged. destruct (is_asteroid node); simpl;
    rewrite ?andb_false_r; reflexivity.
Qed.

Lemma resolve_hit_satellites (e : TickEnv) (p : Node.t) (j : nat) (node : Node.t)
  (l : Locals) :
  satellites (nextState (resolve_hit e p j node l))
  = satellites (nextState l)
    ++ (if destroyed node && planet_like (Node.type node)
        then [new_satellite e (calls l) node
                (List.length (satellites (nextState l)))]
        else []).
Proof.
  unfold resolve_hit. fold (damaged node). rewrite destroyed_test.
  destruct (destroyed node); simpl.
  - destruct (Node.type node) eqn:Hty; simpl; rewrite ?app_nil_r;
      unfold supernova, assimilation, new_satellite, damaged; simpl;
      try (destruct (is_asteroid node); simpl; rewrite ?Hty; reflexivity).
  - rewrite app_nil_r. unfold standard_hit, damaged.
    destruct (is_asteroid node); simpl;
      destruct (Node.type node), (has_id _ _); reflexivity.
Qed.

Lemma dust_collision_satellites (e : TickEnv) (p : Node.t) (l : Locals) :
  satellites (nextState (dust_collision e p l)) = satellites (nextState l).
Proof. unfold dust_collision. destruct (nodup _ _); reflexivity. Qed.

Lemma reform_satellites (l : Locals) :
  satellites (nextState (reform_if_too_slow l)) = satellites (nextState l).
Proof.
  unfold reform_if_too_slow. destruct (find_player _); [destruct (Rltb _ _)|];
    reflexivity.
Qed.

Lemma state_machine_satellites (e : TickEnv) (s : GameState) :
  exists k,
    satellites (nextState (state_machine_phase e (tick_locals s)))
    = satellites s
      ++ match captured s with
         | Some node => [new_satellite e k node (List.length (satellites s))]
         | None => []
         end.
Proof.
  unfold captured, collision_of, state_machine_phase, projection_state_machine,
    playerState_of. simpl.
  destruct (find_player (nodes s)) as [p|];
    [|exists 0%nat; rewrite app_nil_r; reflexivity].
  destruct (Proj.playerState (projection s));
    try (exists 0%nat; simpl; rewrite ?app_nil_r; try reflexivity;
         destruct (Rleb _ _); reflexivity).
  unfold projecting. rewrite reform_satellites, collision_loop_first_contact.
  rewrite (dust_collision_mutableNodes e p). simpl.
  exists (calls (dust_collision e p (tick_locals s))).
  destruct (first_contact p (nodes s) 0) as [[j node]|];
    [|rewrite (dust_collision_satellites e p), app_nil_r; reflexivity].
  destruct (Rleb _ _);
    [|rewrite (dust_collision_satellites e p), app_nil_r; reflexivity].
  rewrite resolve_hit_satellites, (dust_collision_satellites e p). simpl.
  destruct (destroyed node && planet_like (Node.type node)); reflexivity.
Qed.

Lemma tick_satellites (e : TickEnv) (s : GameState) (p : Node.t) :
  isPaused s = false -> find_player (nodes s) = Some p ->
  exists k,
    satellites (tick e s)
    = map orbit
        (satellites s
         ++ match captured s with
            | Some node => [new_satellite e k node (List.length (satellites s))]
            | None => []
            end).
Proof.
  intros Hp Hfind. rewrite (tick_satellites_after e s Hp).
  rewrite satellite_logic_satellites by (apply (state_machine_has_player e s p Hfind)).
  destruct (state_machine_satellites e s) as (k & ->). eauto.
Qed.

Lemma captured_spec (s : GameState) (node : Node.t) :
  captured s = Some node ->
  exists j, collision_of s = Some (j, node)
            /\ destroyed node = true /\ planet_like (Node.type node) = true.
Proof.
  unfold captured. destruct (collision_of s) as [[j n]|]; [|discriminate].
  destruct (destroyed n && planet_like (Node.type n)) eqn:H; [|discriminate].
  intros E. injection E as ->. apply andb_true_iff in H. eauto.
Qed.

Lemma outcome_assimilated (j : nat) (node : Node.t) (l : list Node.t) :
  destroyed node = true -> planet_like (Node.type node) = true ->
  outcome j node l = remove_id (Node.id node) l.
Proof.
  intros Hd Hp. unfold outcome. rewrite destroyed_test, Hd.
  destruct (Node.type node); try discriminate; reflexivity.
Qed.

Lemma outcome_supernova (j : nat) (node : Node.t) (l : list Node.t) :
  destroyed node = true -> Node.type node = star ->
  outcome j node l = update_at j (fun _ => reset_star (damaged node)) l.
Proof.
  intros Hd Hs. unfold outcome. rewrite destroyed_test, Hd, Hs. reflexivity.
Qed.

Lemma assimilated_node_gone (e : TickEnv) (s : GameState) (j : nat) (node : Node.t) :
  isPaused s = false -> collision_of s = Some (j, node) ->
  destroyed node = true -> planet_like (Node.type node) = true ->
  forall n, In n (nodes (tick e s)) ->
            In (Node.id n) (map Node.id (nodes s)) /\ Node.id n <> Node.id node.
Proof.
  intros Hp Hc Hd Hpl n Hn.
  pose proof (tick_bodies e s Hp) as Hb. rewrite Hc in Hb.
  rewrite (outcome_assimilated j node _ Hd Hpl) in Hb.
  destruct (in_map_body _ _ n Hb Hn) as (m & Hm & Hbm).
  apply in_remove_id in Hm as [Hm Hid].
  rewrite <- (body_id _ _ Hbm). split; [apply in_map; exact Hm|].
  intros E. rewrite E, String.eqb_refl in Hid. discriminate.
Qed.

Lemma assimilated_satellite (e : TickEnv) (s : GameState) (node : Node.t) :
  isPaused s = false -> captured s = Some node ->
  exists sat,
    satellites (tick e s) = map orbit (satellites s) ++ [sat]
    /\ Sat.id sat = Node.id node /\ Sat.type sat = Node.type node
    /\ Sat.label sat = Node.label node /\ Sat.imageUrl sat = Node.imageUrl node
    /\ Sat.orbitRadius sat = 60 + INR (List.length (satellites s)) * 20.
Proof.
  intros Hp Hcap.
  destruct (captured_spec s node Hcap) as (j & Hc & _).
  destruct (collision_of_spec s j node Hc) as (p & Hfind & _).
  destruct (tick_satellites e s p Hp Hfind) as (k & ->).
  rewrite Hcap, map_app. simpl. eexists. split; [reflexivity|].
  simpl. auto 10.
Qed.

(** C8: when a tick destroys a planet-like node, the tick returns a registry
    without any node of that id and a satellite list extended by exactly one
    satellite that carries the id, type, label and visual reference of the
    node, at orbit radius 60 + 20 times the number of satellites there were;
    and no id is in both collections afterwards if none was before. *)
Theorem assimilation_moves_node_to_satellites :
  forall (e : TickEnv) (s : GameState) (node : Node.t),
    isPaused s = false ->
    captured s = Some node ->
    (forall n, In n (nodes (tick e s)) -> Node.id n <> Node.id node)
    /\ (exists sat,
          satellites (tick e s) = map orbit (satellites s) ++ [sat]
          /\ Sat.id sat = Node.id node /\ Sat.type sat = Node.type node
          /\ Sat.label sat = Node.label node
          /\ Sat.imageUrl sat = Node.imageUrl node
          /\ Sat.orbitRadius sat = 60 + INR (List.length (satellites s)) * 20)
    /\ ((forall n sat, In n (nodes s) -> In sat (satellites s) ->
                       Node.id n <> Sat.id sat) ->
        forall n sat, In n (nodes (tick e s)) -> In sat (satellites (tick e s)) ->
                      Node.id n <> Sat.id sat).
Proof.
  intros e s node Hp Hcap.
  destruct (captured_spec s node Hcap) as (j & Hc & Hd & Hpl).
  pose proof (assimilated_node_gone e s j node Hp Hc Hd Hpl) as Hgone.
  destruct (assimilated_satellite e s node Hp Hcap) as (sat & Hsat & Hid & Hrest).
  split; [intros n Hn; apply (Hgone n Hn)|].
  split; [exists sat; auto|].
  intros Hdis n sat' Hn Hs'. destruct (Hgone n Hn) as [Hold Hne].
  rewrite Hsat in Hs'. apply in_app_or in Hs' as [Hs'|[<-|[]]].
  - apply in_map_iff in Hs' as (sat0 & <- & Hs0).
    apply in_map_iff in Hold as (n0 & Hn0 & Hin0).
    rewrite <- Hn0. exact (Hdis n0 sat0 Hin0 Hs0).
  - rewrite Hid. exact Hne.
Qed.

Lemma nth_error_update_at (j : nat) (m node : Node.t) (l : list Node.t) :
  nth_error l j = Some node -> nth_error (update_at j (fun _ => m) l) j = Some m.
Proof.
  revert j. induction l as [|a r IH]; intros [|j] H; simpl in *; try discriminate;
    auto.
Qed.

Lemma supernova_resets_star (e : TickEnv) (s : GameState) (j : nat) (node : Node.t) :
  isPaused s = false -> collision_of s = Some (j, node) ->
  destroyed node = true -> Node.type node = star ->
  exists n', nth_error (nodes (tick e s)) j = Some n'
             /\ Node.id n' = Node.id node
             /\ Node.currentIntegrity n' = Node.maxIntegrity node
             /\ Node.integrityCooldown n' = 600.
Proof.
  intros Hp Hc Hd Hs.
  pose proof (tick_bodies e s Hp) as Hb. rewrite Hc in Hb.
  rewrite (outcome_supernova j node _ Hd Hs) in Hb.
  destruct (collision_of_spec s j node Hc) as (p & _ & _ & _ & Hn & _).
  pose proof (nth_error_update_at j (reset_star (damaged node)) node _ Hn) as Hu.
  apply (map_nth_error body) in Hu. rewrite <- Hb in Hu.
  rewrite nth_error_map in Hu.
  destruct (nth_error (nodes (tick e s)) j) as [n'|]; [|discriminate].
  simpl in Hu.
  assert (Hbn' : body n' = body (reset_star (damaged node)))
    by (remember (body n') as b; remember (body (reset_star (damaged node))) as b';
        congruence).
  clear Hu. exists n'. split; [reflexivity|].
  unfold body, reset_star, damaged in Hbn'.
  assert (Ha : is_asteroid node = false) by (unfold is_asteroid; rewrite Hs; reflexivity).
  rewrite Ha in Hbn'. simpl in Hbn'.
  injection Hbn' as -> _ _ _ _ _ -> ->. auto.
Qed.

(** C3: after a tick no node other than an asteroid is left in the registry
    with integrity 0.  This is an invariant of the well-formed states
    (integrity in range, and positive unless the node is an asteroid), which
    the initial state is and every action keeps ([reachable_well_formed]): a
    tick keeps a well-formed state well formed; the star a hit destroys is
    back at its maximum integrity with a cooldown of 600 ticks, and the
    planet-like node a hit destroys is out of the registry, with a satellite
    of its id, type and visual reference in the satellite list. *)
Theorem no_node_left_at_zero_integrity :
  forall (s : GameState) (e : TickEnv),
    well_formed s ->
    well_formed (tick e s)
    /\ Forall (fun n => is_asteroid n = false -> Node.currentIntegrity n <> 0)
              (nodes (tick e s))
    /\ (forall j node,
          isPaused s = false -> collision_of s = Some (j, node) ->
          destroyed node = true ->
          (Node.type node = star ->
           exists n', nth_error (nodes (tick e s)) j = Some n'
                      /\ Node.id n' = Node.id node
                      /\ Node.currentIntegrity n' = Node.maxIntegrity node
                      /\ Node.integrityCooldown n' = 600)
          /\ (planet_like (Node.type node) = true ->
              (forall n, In n (nodes (tick e s)) -> Node.id n <> Node.id node)
              /\ exists sat, In sat (satellites (tick e s))
                             /\ Sat.id sat = Node.id node
                             /\ Sat.type sat = Node.type node
                             /\ Sat.imageUrl sat = Node.imageUrl node)).
Proof.
  intros s e Hw. split; [exact (well_formed_tick e s Hw)|]. split.
  - destruct (well_formed_tick e s Hw) as (Hok & _).
    eapply Forall_impl; [|exact Hok].
    intros n [_ Hpos] Ha. specialize (Hpos Ha). lra.
  - intros j node Hp Hc Hd. split.
    + intros Hs. exact (supernova_resets_star e s j node Hp Hc Hd Hs).
    + intros Hpl. split.
      * intros n Hn. apply (assimilated_node_gone e s j node Hp Hc Hd Hpl n Hn).
      * assert (Hcap : captured s = Some node)
          by (unfold captured; rewrite Hc, Hd, Hpl; reflexivity).
        destruct (assimilated_satellite e s node Hp Hcap)
          as (sat & Hsat & Hid & Hty & _ & Him & _).
        exists sat. rewrite Hsat. split; [apply in_or_app; right; left; reflexivity|].
        auto.
Qed.

(** ** The collision loop (C2) *)

Lemma in_contact_true (p n : Node.t) :
  0 < Node.radius p + Node.radius n ->
  (Node.x p - Node.x n) * (Node.x p - Node.x n)
  + (Node.y p - Node.y n) * (Node.y p - Node.y n)
  < (Node.radius p + Node.radius n) * (Node.radius p + Node.radius n) ->
  in_contact p n = true.
Proof. intros H1 H2. apply Rltb_true, hypot_lt; assumption. Qed.

Lemma in_contact_false (p n : Node.t) :
  (Node.radius p + Node.radius n) * (Node.radius p + Node.radius n)
  <= (Node.x p - Node.x n) * (Node.x p - Node.x n)
     + (Node.y p - Node.y n) * (Node.y p - Node.y n) ->
  in_contact p n = false.
Proof. intros H. apply Rltb_false, hypot_ge. exact H. Qed.

(** C2 (as the code behaves): while projecting, the loop stops at the first
    node of the registry, other than the player, that is in contact with the
    player; the collision with that node is resolved if its cooldown has
    expired, and otherwise no collision is resolved in this tick. *)
Theorem collision_is_resolved_only_at_first_contact :
  forall (e : TickEnv) (p : Node.t) (l : Locals),
    projecting e p l
    = reform_if_too_slow
        (match first_contact p (mutableNodes l) 0 with
         | Some (j, node) =>
           if Rleb (Node.integrityCooldown node) 0
           then resolve_hit e p j node (dust_collision e p l)
           else dust_collision e p l
         | None => dust_collision e p l
         end).
Proof.
  intros e p l. unfold projecting.
  rewrite collision_loop_first_contact, (dust_collision_mutableNodes e p).
  reflexivity.
Qed.

Lemma shield_contacts :
  in_contact shield_player shield_star = true
  /\ in_contact shield_player shield_planet = true.
Proof.
  split; apply in_contact_true; unfold shield_player, shield_star, shield_planet;
    simpl; lra.
Qed.

(** C2, counterexample: the planet is the first node in contact whose
    cooldown has expired, yet the tick resolves no collision, because the
    loop stops at the star, which is in contact and on cooldown: no node of
    the registry is damaged and no hit is recorded. *)
Lemma contact_on_cooldown_shields_later_node :
  first_vulnerable_contact shield_player (nodes shielded_state) 0
  = Some (2%nat, shield_planet)
  /\ collision_of shielded_state = None
  /\ map body (nodes (tick example_env shielded_state))
     = map body (nodes shielded_state).
Proof.
  destruct shield_contacts as [Hs Hp].
  assert (Hcd : Rleb (Node.integrityCooldown shield_star) 0 = false)
    by (apply Rleb_false; unfold shield_star; simpl; lra).
  assert (Hcp : Rleb (Node.integrityCooldown shield_planet) 0 = true)
    by (apply Rleb_true; unfold shield_planet; simpl; lra).
  assert (Hc : collision_of shielded_state = None).
  { unfold collision_of, shielded_state, example_state, playerState_of.
    cbn [nodes projection find_player find is_player shield_player example_node
         Node.type NodeType_eqb Proj.playerState set_projection_fields
         first_contact].
    change (String.eqb (Node.id shield_player) (Node.id shield_player)) with true.
    change (String.eqb (Node.id shield_star) (Node.id shield_player)) with false.
    cbn [negb andb]. rewrite Hs, Hcd. reflexivity. }
  split; [|split; [exact Hc|]].
  - unfold shielded_state, example_state.
    cbn [nodes first_vulnerable_contact].
    change (String.eqb (Node.id shield_player) (Node.id shield_player)) with true.
    change (String.eqb (Node.id shield_star) (Node.id shield_player)) with false.
    change (String.eqb (Node.id shield_planet) (Node.id shield_player)) with false.
    cbn [negb andb]. rewrite Hs, Hp, Hcd, Hcp. reflexivity.
  - rewrite (tick_bodies example_env shielded_state eq_refl), Hc. reflexivity.
Qed.

(** ** Boundary reflection (C6) *)

Lemma hypot_scaled_unit (a d : R) : hypot (cos a * d) (sin a * d) = Rabs d.
Proof.
  unfold hypot. rewrite <- sqrt_Rsqr_abs. f_equal.
  pose proof (sin2_cos2 a) as H. unfold Rsqr in *. nra.
Qed.

Lemma hypot_scale (c a b : R) : hypot (a * c) (b * c) = Rabs c * hypot a b.
Proof.
  unfold hypot.
  replace (a * c * (a * c) + b * c * (b * c))
    with (Rsqr c * (a * a + b * b)) by (unfold Rsqr; ring).
  rewrite sqrt_mult; [|apply Rle_0_sqr|nra]. rewrite sqrt_Rsqr_abs. reflexivity.
Qed.












Lemma atan2_at_origin : atan2 0 0 = 0.
Proof.
  unfold atan2. destruct (Rlt_dec 0 0); [lra|]. reflexivity.
Qed.

Lemma hypot_axis (a : R) : 0 <= a -> hypot 0 a = a /\ hypot a 0 = a.
Proof.
  intros H. unfold hypot. split.
  - replace (0 * 0 + a * a) with (a * a) by ring. apply sqrt_square, H.
  - replace (a * a + 0 * 0) with (a * a) by ring. apply sqrt_square, H.
Qed.



(** ** The idle tick (C9) *)

Lemma node_physics_mutableNodes (e : TickEnv) (wr : R) (todo done : list Node.t)
  (l : Locals) :
  mutableNodes (node_physics e wr done todo l)
  = physics_nodes (Proj.playerState (projection (nextState l))) wr done todo.
Proof.
  revert done l. induction todo as [|node rest IH]; intros done l; [reflexivity|].
  simpl. rewrite IH. f_equal.
  destruct (beyond_boundary wr _ && is_player node);
    destruct (is_star node); try destruct (Rltb _ _); reflexivity.
Qed.

Lemma state_machine_idle (e : TickEnv) (l : Locals) :
  playerState_of (nextState l) = IDLE -> state_machine_phase e l = l.
Proof.
  unfold state_machine_phase, projection_state_machine, playerState_of.
  intros H. destruct (find_player _); [rewrite H|]; reflexivity.
Qed.









(** *** Two bodies at rest start to move *)















(** ** The theorems at concrete inputs *)

Lemma harmony_bonus_is_not_applied_witness :
  isPaused harmonious_state = false
  /\ playerState_of harmonious_state <> PROJECTING
  /\ HARMONY_THRESHOLD < karma harmonious_state
  /\ knowledge (tick example_env harmonious_state) - knowledge harmonious_state
     = BASE_KNOWLEDGE_RATE
  /\ knowledge (tick example_env harmonious_state) - knowledge harmonious_state
     <> 1.25 * BASE_KNOWLEDGE_RATE.
Proof.
  assert (H1 : isPaused harmonious_state = false) by reflexivity.
  assert (H2 : playerState_of harmonious_state <> PROJECTING) by discriminate.
  assert (H3 : HARMONY_THRESHOLD < karma harmonious_state)
    by (unfold HARMONY_THRESHOLD; simpl; lra).
  split; [exact H1|]. split; [exact H2|]. split; [exact H3|].
  exact (harmony_bonus_is_not_applied example_env harmonious_state H1 H2 H3).
Defined.

Lemma wrong_state_is_noop_witness :
  wrong_state (initialState (fun _ => None)) LAUNCH_PLAYER
  /\ gameReducer (initialState (fun _ => None)) LAUNCH_PLAYER
     = initialState (fun _ => None).
Proof.
  assert (H : wrong_state (initialState (fun _ => None)) LAUNCH_PLAYER)
    by (simpl; discriminate).
  split; [exact H|].
  exact (proj1 (wrong_state_is_noop_and_edges_are_legal
                  (initialState (fun _ => None)) LAUNCH_PLAYER) H).
Defined.



Lemma combo_reward_exceeds_first_hit_witness :
  resources (nextState (standard_hit example_env rest_star first_hit_locals))
  - resources (nextState first_hit_locals)
  < resources (nextState (standard_hit example_env rest_star combo_locals))
    - resources (nextState combo_locals).
Proof.
  apply (combo_reward_exceeds_first_hit example_env rest_star rest_star
           first_hit_locals combo_locals); reflexivity.
Defined.

Lemma capture_state_captures : captured capture_state = Some capture_planet.
Proof.
  assert (Hc : in_contact shield_player capture_planet = true)
    by (apply in_contact_true; unfold shield_player, capture_planet; simpl; lra).
  assert (Hcd : Rleb (Node.integrityCooldown capture_planet) 0 = true)
    by (apply Rleb_true; unfold capture_planet; simpl; lra).
  assert (Hd : destroyed capture_planet = true).
  { unfold destroyed. apply andb_true_iff. split; [|reflexivity].
    apply Rleb_true. unfold capture_planet. simpl. lra. }
  unfold captured, collision_of, capture_state, example_state, playerState_of.
  cbn [nodes projection find_player find is_player shield_player example_node
       Node.type NodeType_eqb Proj.playerState set_projection_fields
       first_contact].
  change (String.eqb (Node.id shield_player) (Node.id shield_player)) with true.
  change (String.eqb (Node.id capture_planet) (Node.id shield_player)) with false.
  cbn [negb andb]. rewrite Hc, Hcd, Hd. reflexivity.
Qed.

Lemma capture_state_collision :
  collision_of capture_state = Some (1%nat, capture_planet).
Proof.
  assert (Hc : in_contact shield_player capture_planet = true)
    by (apply in_contact_true; unfold shield_player, capture_planet; simpl; lra).
  assert (Hcd : Rleb (Node.integrityCooldown capture_planet) 0 = true)
    by (apply Rleb_true; unfold capture_planet; simpl; lra).
  unfold collision_of, capture_state, example_state, playerState_of.
  cbn [nodes projection find_player find is_player shield_player example_node
       Node.type NodeType_eqb Proj.playerState set_projection_fields
       first_contact].
  change (String.eqb (Node.id shield_player) (Node.id shield_player)) with true.
  change (String.eqb (Node.id capture_planet) (Node.id shield_player)) with false.
  cbn [negb andb]. rewrite Hc, Hcd. reflexivity.
Qed.

Lemma supernova_state_collision :
  collision_of supernova_state = Some (1%nat, dying_star).
Proof.
  assert (Hc : in_contact shield_player dying_star = true)
    by (apply in_contact_true; unfold shield_player, dying_star; simpl; lra).
  assert (Hcd : Rleb (Node.integrityCooldown dying_star) 0 = true)
    by (apply Rleb_true; unfold dying_star; simpl; lra).
  unfold collision_of, supernova_state, example_state, playerState_of.
  cbn [nodes projection find_player find is_player shield_player example_node
       Node.type NodeType_eqb Proj.playerState set_projection_fields
       first_contact].
  change (String.eqb (Node.id shield_player) (Node.id shield_player)) with true.
  change (String.eqb (Node.id dying_star) (Node.id shield_player)) with false.
  cbn [negb andb]. rewrite Hc, Hcd. reflexivity.
Qed.

Lemma destroyed_at_one (n : Node.t) :
  Node.currentIntegrity n = 1 -> is_asteroid n = false -> destroyed n = true.
Proof.
  intros H Ha. unfold destroyed. rewrite Ha, H. apply andb_true_iff.
  split; [apply Rleb_true; lra|reflexivity].
Qed.

Lemma well_formed_pair (a b : Node.t) :
  node_ok a -> node_ok b -> is_player b = false ->
  well_formed (example_state PROJECTING 0 [a; b]).
Proof.
  intros Ha Hb Hpb. split; [|split].
  - simpl. apply Forall_cons; [exact Ha|]. apply Forall_cons; [exact Hb|].
    apply Forall_nil.
  - intros n m Hn Hm Pn Pm. simpl in Hn, Hm.
    destruct Hn as [<-|[<-|[]]]; destruct Hm as [<-|[<-|[]]];
      try reflexivity; congruence.
  - unfold power_in_range. simpl. lra.
Qed.

Lemma capture_state_well_formed : well_formed capture_state.
Proof.
  apply well_formed_pair; [| |reflexivity];
    (split; [unfold integrity_in_range; simpl; lra|intros _; simpl; lra]).
Qed.

Lemma supernova_state_well_formed : well_formed supernova_state.
Proof.
  apply well_formed_pair; [| |reflexivity];
    (split; [unfold integrity_in_range; simpl; lra|intros _; simpl; lra]).
Qed.

Lemma no_node_left_at_zero_integrity_witness :
  (well_formed capture_state
   /\ collision_of capture_state = Some (1%nat, capture_planet)
   /\ destroyed capture_planet = true
   /\ planet_like (Node.type capture_planet) = true
   /\ Forall (fun n => is_asteroid n = false -> Node.currentIntegrity n <> 0)
        (nodes (tick example_env capture_state))
   /\ (forall n, In n (nodes (tick example_env capture_state)) ->
                 Node.id n <> Node.id capture_planet)
   /\ exists sat, In sat (satellites (tick example_env capture_state))
                  /\ Sat.id sat = Node.id capture_planet
                  /\ Sat.type sat = Node.type capture_planet
                  /\ Sat.imageUrl sat = Node.imageUrl capture_planet)
  /\ (well_formed supernova_state
      /\ collision_of supernova_state = Some (1%nat, dying_star)
      /\ destroyed dying_star = true
      /\ Node.type dying_star = star
      /\ Forall (fun n => is_asteroid n = false -> Node.currentIntegrity n <> 0)
           (nodes (tick example_env supernova_state))
      /\ exists n', nth_error (nodes (tick example_env supernova_state)) 1 = Some n'
                    /\ Node.id n' = Node.id dying_star
                    /\ Node.currentIntegrity n' = Node.maxIntegrity dying_star
                    /\ Node.integrityCooldown n' = 600).
Proof.
  assert (P1 : well_formed capture_state) by exact capture_state_well_formed.
  assert (P2 : collision_of capture_state = Some (1%nat, capture_planet))
    by exact capture_state_collision.
  assert (P3 : destroyed capture_planet = true)
    by (apply destroyed_at_one; reflexivity).
  assert (P4 : planet_like (Node.type capture_planet) = true) by reflexivity.
  assert (S1 : well_formed supernova_state) by exact supernova_state_well_formed.
  assert (S2 : collision_of supernova_state = Some (1%nat, dying_star))
    by exact supernova_state_collision.
  assert (S3 : destroyed dying_star = true)
    by (apply destroyed_at_one; reflexivity).
  assert (S4 : Node.type dying_star = star) by reflexivity.
  split.
  - split; [exact P1|]. split; [exact P2|]. split; [exact P3|]. split; [exact P4|].
    destruct (no_node_left_at_zero_integrity capture_state example_env P1)
      as (_ & Hz & Hd).
    split; [exact Hz|].
    exact (proj2 (Hd 1%nat capture_planet eq_refl P2 P3) P4).
  - split; [exact S1|]. split; [exact S2|]. split; [exact S3|]. split; [exact S4|].
    destruct (no_node_left_at_zero_integrity supernova_state example_env S1)
      as (_ & Hz & Hd).
    split; [exact Hz|].
    exact (proj1 (Hd 1%nat dying_star eq_refl S2 S3) S4).
Defined.

Lemma assimilation_moves_node_to_satellites_witness :
  isPaused capture_state = false
  /\ captured capture_state = Some capture_planet
  /\ forall n, In n (nodes (tick example_env capture_state)) ->
               Node.id n <> Node.id capture_planet.
Proof.
  assert (H1 : isPaused capture_state = false) by reflexivity.
  assert (H2 : captured capture_state = Some capture_planet)
    by exact capture_state_captures.
  split; [exact H1|]. split; [exact H2|].
  exact (proj1 (assimilation_moves_node_to_satellites example_env capture_state
                  capture_planet H1 H2)).
Defined.



(** * Further properties of the reducer *)

(** ** What a tick never writes *)

Lemma settings_kept_refl (s : GameState) : settings_kept s s.
Proof. unfold settings_kept. auto 10. Qed.

Lemma settings_kept_trans (s1 s2 s3 : GameState) :
  settings_kept s1 s2 -> settings_kept s2 s3 -> settings_kept s1 s3.
Proof.
  unfold settings_kept.
  intros (A1 & A2 & A3 & A4 & A5 & A6) (B1 & B2 & B3 & B4 & B5 & B6).
  repeat split; congruence.
Qed.

Lemma collision_loop_settings (e : TickEnv) (p : Node.t) (todo : list Node.t)
  (i : nat) (l : Locals) :
  settings_kept (nextState l) (nextState (collision_loop e p todo i l)).
Proof.
  rewrite collision_loop_first_contact.
  destruct (first_contact p todo i) as [[j node]|]; [|apply settings_kept_refl].
  destruct (Rleb _ _); [|apply settings_kept_refl].
  hit_cases; unfold settings_kept; simpl; auto 10.
Qed.

Lemma state_machine_settings (e : TickEnv) (l : Locals) :
  settings_kept (nextState l) (nextState (state_machine_phase e l)).
Proof.
  unfold state_machine_phase, projection_state_machine.
  destruct (find_player _) as [p|]; [|apply settings_kept_refl].
  destruct (Proj.playerState _); try (unfold settings_kept; simpl; auto 10; fail).
  unfold projecting.
  eapply settings_kept_trans; [|unfold reform_if_too_slow;
    destruct (find_player _); [destruct (Rltb _ _)|];
    unfold settings_kept; simpl; auto 10].
  eapply settings_kept_trans; [|apply collision_loop_settings].
  unfold dust_collision. destruct (nodup _ _); unfold settings_kept; simpl; auto 10.
Qed.

Lemma after_state_machine_settings (e : TickEnv) (wr : R) (l : Locals) :
  settings_kept (nextState l)
    (nextState
       (trail_update (orb_collection
          (physics_phase e wr
             (resources_and_karma
                (effects_updates (dust_physics (satellite_logic l)))))))).
Proof.
  match goal with |- settings_kept _ (nextState (trail_update ?l1)) =>
    destruct (nextState_trail_update_frame l1) as (tr & ->) end.
  unfold orb_collection, physics_phase.
  match goal with |- context [node_physics e wr [] ?t ?l5] =>
    destruct (node_physics_nextState e wr t [] l5) as (orbs & shake & Hn) end.
  assert (Hs : settings_kept (nextState l) (nextState (satellite_logic l))).
  { unfold satellite_logic. destruct (find_player _); [|apply settings_kept_refl].
    simpl.
    destruct (satellite_income_frame (satellites (nextState l)) (nextState l))
      as (en & bm & ->). unfold settings_kept; simpl; auto 10. }
  destruct (find_player _); cbn [nextState with_ns]; rewrite Hn;
    unfold settings_kept in *; simpl; exact Hs.
Qed.

Lemma tick_settings_kept (e : TickEnv) (s : GameState) :
  settings_kept s (tick e s).
Proof.
  unfold tick. destruct (isPaused s); [apply settings_kept_refl|].
  cbv zeta.
  eapply settings_kept_trans;
    [apply (state_machine_settings e (tick_locals s))|].
  pose proof (after_state_machine_settings e (worldRadius_of e s)
                (state_machine_phase e (tick_locals s))) as H.
  unfold before_orbs. unfold settings_kept in *. simpl. exact H.
Qed.

(** X1: no sequence of ticks changes the pause flag, karma, the zoom level,
    the tutorial step, the selected node or the aim-assist setting. *)
Theorem tick_keeps_settings :
  forall (es : list TickEnv) (s : GameState), settings_kept s (ticks es s).
Proof.
  induction es as [|e es IH]; intros s; [apply settings_kept_refl|].
  cbn [ticks fold_left]. fold (ticks es (tick e s)).
  eapply settings_kept_trans; [apply tick_settings_kept|apply IH].
Qed.

(** ** The cooldown of a node is not recovered *)

Lemma map_id_bodies (l l' : list Node.t) :
  map body l = map body l' -> map Node.id l = map Node.id l'.
Proof.
  revert l'. induction l as [|a r IH]; intros [|b r'] H; simpl in *;
    try discriminate; [reflexivity|].
  apply cons_eq_inv in H as [Hab Hr].
  rewrite (body_id a b Hab), (IH r' Hr). reflexivity.
Qed.

Lemma map_id_update_at (j : nat) (m node : Node.t) (l : list Node.t) :
  nth_error l j = Some node -> Node.id m = Node.id node ->
  map Node.id (update_at j (fun _ => m) l) = map Node.id l.
Proof.
  revert j. induction l as [|a r IH]; intros [|j] H Hm; simpl in *;
    try discriminate.
  - injection H as ->. rewrite Hm. reflexivity.
  - rewrite (IH j H Hm). reflexivity.
Qed.

Lemma NoDup_map_filter {A B : Type} (f : A -> B) (g : A -> bool) (l : list A) :
  NoDup (map f l) -> NoDup (map f (filter g l)).
Proof.
  induction l as [|a r IH]; simpl; intros H; [constructor|].
  inversion H as [|? ? Hn Hr]; subst.
  destruct (g a); simpl; [|apply IH, Hr].
  constructor; [|apply IH, Hr].
  intros Hin. apply Hn. apply in_map_iff in Hin as (x & Hx & Hf).
  apply filter_In in Hf as [Hf _]. apply in_map_iff. eauto.
Qed.

Lemma damaged_id (node : Node.t) : Node.id (damaged node) = Node.id node.
Proof. unfold damaged. destruct (is_asteroid node); reflexivity. Qed.

Lemma outcome_unique_ids (j : nat) (node : Node.t) (l : list Node.t) :
  nth_error l j = Some node -> unique_ids l -> unique_ids (outcome j node l).
Proof.
  intros Hn Hu. unfold unique_ids, outcome in *.
  destruct (_ && _); [destruct (Node.type node)|];
    try (rewrite (map_id_update_at j _ node l Hn); [exact Hu|]);
    try apply damaged_id; try (apply NoDup_map_filter, Hu).
Qed.

Lemma NoDup_map_eq {A B : Type} (f : A -> B) (l : list A) (a b : A) :
  NoDup (map f l) -> In a l -> In b l -> f a = f b -> a = b.
Proof.
  induction l as [|x r IH]; simpl; intros H Ha Hb E; [contradiction|].
  inversion H as [|? ? Hn Hr]; subst.
  destruct Ha as [->|Ha], Hb as [->|Hb]; auto.
  - exfalso. apply Hn. rewrite E. apply in_map, Hb.
  - exfalso. apply Hn. rewrite <- E. apply in_map, Ha.
Qed.

Lemma outcome_keeps_other (j : nat) (node n : Node.t) (l : list Node.t) :
  nth_error l j = Some node -> unique_ids l -> In n l -> n <> node ->
  In n (outcome j node l).
Proof.
  intros Hn Hu Hin Hne.
  assert (Hid : Node.id n <> Node.id node).
  { intros E. apply Hne. apply (NoDup_map_eq Node.id l); auto.
    eapply nth_error_In; eauto. }
  unfold outcome.
  destruct (_ && _); [destruct (Node.type node)|];
    try (apply (in_update_at_other j _ node); assumption);
    apply in_remove_id; (split; [exact Hin|]);
    apply String.eqb_neq; exact Hid.
Qed.

Lemma tick_unique_ids (e : TickEnv) (s : GameState) :
  unique_ids (nodes s) -> unique_ids (nodes (tick e s)).
Proof.
  intros Hu. destruct (isPaused s) eqn:Hp; [unfold tick; rewrite Hp; exact Hu|].
  unfold unique_ids. rewrite (map_id_bodies _ _ (tick_bodies e s Hp)).
  destruct (collision_of s) as [[j node]|] eqn:Hc; [|exact Hu].
  destruct (collision_of_spec s j node Hc) as (p & _ & _ & _ & Hn & _).
  apply outcome_unique_ids; assumption.
Qed.

Lemma tick_keeps_cooling_node (e : TickEnv) (s : GameState) (n : Node.t) :
  unique_ids (nodes s) -> In n (nodes s) -> 0 < Node.integrityCooldown n ->
  exists n', In n' (nodes (tick e s)) /\ body n' = body n.
Proof.
  intros Hu Hin Hcd.
  destruct (isPaused s) eqn:Hp; [unfold tick; rewrite Hp; eauto|].
  pose proof (tick_bodies e s Hp) as Hb.
  assert (Hstay : In n (match collision_of s with
                        | Some (j, node) => outcome j node (nodes s)
                        | None => nodes s
                        end)).
  { destruct (collision_of s) as [[j node]|] eqn:Hc; [|exact Hin].
    destruct (collision_of_spec s j node Hc) as (p & _ & _ & _ & Hn & _ & Hle).
    apply outcome_keeps_other; try assumption.
    intros ->. lra. }
  symmetry in Hb. destruct (in_map_body _ _ n Hb Hstay) as (m & Hm & Hbm). eauto.
Qed.

(** X2: the cooldown a hit sets is never recovered in the state a tick
    returns (the recovery is applied to the node objects of the previous
    state): in a registry with distinct ids, a node on cooldown is still in
    the registry after any number of ticks, with the same integrity and the
    same cooldown, so it can never be hit again. *)
Theorem node_on_cooldown_is_never_hit :
  forall (es : list TickEnv) (s : GameState) (n : Node.t),
    unique_ids (nodes s) -> In n (nodes s) -> 0 < Node.integrityCooldown n ->
    exists n', In n' (nodes (ticks es s)) /\ body n' = body n.
Proof.
  induction es as [|e es IH]; intros s n Hu Hin Hcd; [simpl; eauto|].
  destruct (tick_keeps_cooling_node e s n Hu Hin Hcd) as (n1 & Hin1 & Hb1).
  assert (Hcd1 : 0 < Node.integrityCooldown n1).
  { unfold body in Hb1. injection Hb1 as _ _ _ _ _ _ _ ->. exact Hcd. }
  destruct (IH (tick e s) n1 (tick_unique_ids e s Hu) Hin1 Hcd1) as (n' & Hin' & Hb').
  exists n'. split; [exact Hin'|congruence].
Qed.

(** ** Exactly one player *)

Lemma filter_player_bodies (l l' : list Node.t) :
  map body l = map body l' ->
  map body (filter is_player l) = map body (filter is_player l').
Proof.
  revert l'. induction l as [|a r IH]; intros [|b r'] H; simpl in *;
    try discriminate; [reflexivity|].
  apply cons_eq_inv in H as [Hab Hr].
  rewrite (body_is_player a b Hab). destruct (is_player b); simpl;
    rewrite ?Hab, (IH r' Hr); reflexivity.
Qed.

Lemma one_player_bodies (l l' : list Node.t) :
  map body l = map body l' -> one_player l' -> one_player l.
Proof.
  intros H (p & Hf & Hid & Hc & Hm & Hr).
  apply filter_player_bodies in H. rewrite Hf in H.
  destruct (filter is_player l) as [|q [|q' r]] eqn:E; simpl in H; try discriminate.
  apply cons_eq_inv in H as [Hb _]. exists q. split; [exact E|].
  unfold body in Hb. injection Hb as -> _ _ -> _ -> -> _. auto.
Qed.

Lemma find_player_filter (l : list Node.t) :
  find_player l = hd_error (filter is_player l).
Proof.
  unfold find_player. induction l as [|a r IH]; simpl; [reflexivity|].
  destruct (is_player a); [reflexivity|exact IH].
Qed.

Lemma filter_player_update_at (j : nat) (m node : Node.t) (l : list Node.t) :
  nth_error l j = Some node -> is_player node = false -> is_player m = false ->
  filter is_player (update_at j (fun _ => m) l) = filter is_player l.
Proof.
  revert j. induction l as [|a r IH]; intros [|j] H Hn Hm; simpl in *;
    try discriminate.
  - injection H as ->. rewrite Hn, Hm. reflexivity.
  - rewrite (IH j H Hn Hm). reflexivity.
Qed.

Lemma filter_player_remove_id (i : string) (p : Node.t) (l : list Node.t) :
  filter is_player l = [p] -> String.eqb (Node.id p) i = false ->
  filter is_player (remove_id i l) = [p].
Proof.
  intros H Hid. unfold remove_id.
  assert (E : filter is_player (filter (fun n => negb (String.eqb (Node.id n) i)) l)
              = filter (fun n => negb (String.eqb (Node.id n) i)) (filter is_player l)).
  { clear. induction l as [|a r IH]; simpl; [reflexivity|].
    destruct (negb _) eqn:E1, (is_player a) eqn:E2; simpl;
      rewrite ?E1, ?E2, IH; reflexivity. }
  rewrite E, H. simpl. rewrite Hid. reflexivity.
Qed.

Lemma outcome_one_player (s : GameState) (j : nat) (node : Node.t) :
  collision_of s = Some (j, node) -> one_player (nodes s) ->
  one_player (outcome j node (nodes s)).
Proof.
  intros Hc (p & Hf & Hrest).
  destruct (collision_of_spec s j node Hc) as (p' & Hp' & _ & _ & Hn & Hid & _).
  rewrite find_player_filter, Hf in Hp'. injection Hp' as <-.
  assert (Hnp : is_player node = false).
  { destruct (is_player node) eqn:E; [|reflexivity]. exfalso.
    assert (Hin : In node (filter is_player (nodes s))).
    { apply filter_In. split; [eapply nth_error_In; eauto|exact E]. }
    rewrite Hf in Hin. destruct Hin as [<-|[]].
    rewrite String.eqb_refl in Hid. discriminate. }
  assert (Hdp : is_player (damaged node) = false).
  { unfold damaged. destruct (is_asteroid node); exact Hnp. }
  exists p. split; [|exact Hrest].
  unfold outcome.
  destruct (_ && _); [destruct (Node.type node)|];
    try (rewrite (filter_player_update_at j _ node); assumption);
    try (apply filter_player_remove_id; [exact Hf|];
         rewrite String.eqb_sym; exact Hid).
Qed.

Lemma one_player_tick (e : TickEnv) (s : GameState) :
  one_player (nodes s) -> one_player (nodes (tick e s)).
Proof.
  intros H. destruct (isPaused s) eqn:Hp; [unfold tick; rewrite Hp; exact H|].
  apply (one_player_bodies _ _ (tick_bodies e s Hp)).
  destruct (collision_of s) as [[j node]|] eqn:Hc; [|exact H].
  apply outcome_one_player; assumption.
Qed.

Lemma one_player_map (f : Node.t -> Node.t) (l : list Node.t) :
  (forall n, Node.id (f n) = Node.id n /\ Node.type (f n) = Node.type n
             /\ Node.currentIntegrity (f n) = Node.currentIntegrity n
             /\ Node.maxIntegrity (f n) = Node.maxIntegrity n
             /\ Node.radius (f n) = Node.radius n) ->
  one_player l -> one_player (map f l).
Proof.
  intros Hf (p & Hp & Hid & Hc & Hm & Hr).
  assert (E : filter is_player (map f l) = map f (filter is_player l)).
  { clear - Hf. induction l as [|a r IH]; simpl; [reflexivity|].
    destruct (Hf a) as (_ & Ht & _). unfold is_player at 1. rewrite Ht.
    fold (is_player a). destruct (is_player a); simpl; rewrite IH; reflexivity. }
  exists (f p). rewrite E, Hp. split; [reflexivity|].
  destruct (Hf p) as (-> & _ & -> & -> & ->). auto.
Qed.

Lemma one_player_step (s : GameState) (a : GameAction) :
  one_player (nodes s) -> one_player (nodes (gameReducer s a)).
Proof.
  intros H. destruct a; simpl.
  - apply one_player_tick, H.
  - unfold start_aiming. destruct (Proj.playerState _); exact H.
  - unfold set_direction. destruct (Proj.playerState _); exact H.
  - unfold launch_player. destruct (Proj.playerState _); try exact H.
    destruct (find_player (nodes s)); [|exact H]. simpl.
    apply one_player_map; [|exact H].
    intros n. destruct (String.eqb _ _); simpl; auto 10.
  - unfold select_node. destruct nodeId as [i|]; simpl; [|exact H].
    destruct (negb _); destruct (_ && _); exact H.
  - exact H.
  - apply one_player_map; [|exact H].
    intros n. destruct (String.eqb _ _); simpl; auto 10.
  - exact H.
Qed.

(** X3: every state reached from the initial state holds exactly one node of
    type player; it has the id player_consciousness, radius 20 and integrity
    100 out of 100: the player is never damaged, removed or duplicated. *)
Theorem reachable_states_have_one_player :
  forall s : GameState, reachable s -> one_player (nodes s).
Proof.
  induction 1 as [imgs|s a _ IH]; [|apply one_player_step, IH].
  eexists. split; [reflexivity|]. simpl. repeat split; reflexivity.
Qed.

(** ** Launch *)

Lemma find_player_map (f : Node.t -> Node.t) (l : list Node.t) :
  (forall n, is_player (f n) = is_player n) ->
  find_player (map f l) = option_map f (find_player l).
Proof.
  intros Hf. unfold find_player. induction l as [|a r IH]; simpl; [reflexivity|].
  rewrite Hf. destruct (is_player a); [reflexivity|exact IH].
Qed.

(** X4: confirming the power with a player in the registry launches it: the
    player gets the velocity of norm |power| / 100 * MAX_LAUNCH_POWER along
    the aim angle, the state becomes PROJECTING, the power is reset to 0, the
    hit set of the launch is emptied and one trail particle of life 15 is
    added at the player's position. *)
Theorem launch_sets_velocity :
  forall (s : GameState) (p : Node.t),
    playerState_of s = AIMING_POWER ->
    find_player (nodes s) = Some p ->
    let s' := gameReducer s LAUNCH_PLAYER in
    let a := Proj.aimAngle (projection s) in
    let strength := Proj.power (projection s) / 100 * MAX_LAUNCH_POWER in
    find_player (nodes s')
    = Some (set_velocity (cos a * strength) (sin a * strength) p)
    /\ (forall p', find_player (nodes s') = Some p' -> speed p' = Rabs strength)
    /\ playerState_of s' = PROJECTING
    /\ Proj.power (projection s') = 0
    /\ Proj.aimAngle (projection s') = a
    /\ turnHitIds s' = []
    /\ projectileTrailParticles s'
       = projectileTrailParticles s
         ++ [ {| Trail.x := Node.x p; Trail.y := Node.y p; Trail.life := 15 |} ].
Proof.
  intros s p Hps Hp s' a strength. subst s'. simpl.
  unfold launch_player. unfold playerState_of in Hps. rewrite Hps, Hp.
  unfold playerState_of. simpl.
  assert (Hf : find_player
                 (map (fun n => if String.eqb (Node.id n) (Node.id p)
                                then set_velocity (cos a * strength)
                                       (sin a * strength) n
                                else n) (nodes s))
               = Some (set_velocity (cos a * strength) (sin a * strength) p)).
  { rewrite find_player_map; [|intros n; destruct (String.eqb _ _); reflexivity].
    rewrite Hp. simpl. rewrite String.eqb_refl. reflexivity. }
  fold a. fold strength. rewrite Hf.
  split; [reflexivity|]. split; [|auto 10].
  intros p' E. injection E as <-. unfold speed. simpl. apply hypot_scaled_unit.
Qed.

(** ** Reforming *)

Lemma idle_tick_projection (e : TickEnv) (s : GameState) :
  playerState_of s = IDLE -> projection (tick e s) = projection s.
Proof.
  intros Hi. destruct (isPaused s) eqn:Hp; [unfold tick; rewrite Hp; reflexivity|].
  rewrite (tick_projection e s Hp), (state_machine_idle e (tick_locals s) Hi).
  reflexivity.
Qed.

Lemma ticks_stay_idle (es : list TickEnv) (s : GameState) :
  playerState_of s = IDLE -> playerState_of (ticks es s) = IDLE.
Proof.
  revert s. induction es as [|e es IH]; intros s Hi; [exact Hi|].
  simpl. apply IH. unfold playerState_of. rewrite (idle_tick_projection e s Hi).
  exact Hi.
Qed.

Lemma reforming_tick (e : TickEnv) (s : GameState) (p : Node.t) :
  isPaused s = false -> playerState_of s = REFORMING ->
  find_player (nodes s) = Some p ->
  projection (tick e s)
  = let t := Proj.reformTimer (projection s) - 1 in
    if Rleb t 0
    then set_playerState IDLE (set_reformTimer t (projection s))
    else set_reformTimer t (projection s).
Proof.
  intros Hp Hr Hf. rewrite (tick_projection e s Hp).
  unfold state_machine_phase, projection_state_machine. simpl. rewrite Hf.
  unfold playerState_of in Hr. rewrite Hr. reflexivity.
Qed.

(** X5: reforming lasts as many ticks as its timer: from a state that is
    reforming, unpaused and has a player, the state is still REFORMING after
    fewer ticks than the timer, with the timer lowered by their number, and it
    is IDLE after any number of ticks that reaches the timer. *)
Theorem reform_lasts_its_timer :
  forall (es : list TickEnv) (s : GameState) (p : Node.t),
    isPaused s = false ->
    playerState_of s = REFORMING ->
    find_player (nodes s) = Some p ->
    (INR (List.length es) < Proj.reformTimer (projection s) ->
     playerState_of (ticks es s) = REFORMING
     /\ Proj.reformTimer (projection (ticks es s))
        = Proj.reformTimer (projection s) - INR (List.length es))
    /\ (es <> [] -> Proj.reformTimer (projection s) <= INR (List.length es) ->
        playerState_of (ticks es s) = IDLE).
Proof.
  induction es as [|e es IH]; intros s p Hp Hr Hf.
  - simpl. split; [intros _; split; [exact Hr|lra]|intros H; contradiction].
  - cbn [ticks fold_left List.length]. rewrite S_INR.
    pose proof (reforming_tick e s p Hp Hr Hf) as Hpr. cbv zeta in Hpr.
    destruct (tick_settings_kept e s) as (Hp1 & _).
    destruct (tick_has_player e s p Hf) as (p1 & Hf1).
    destruct (Rleb (Proj.reformTimer (projection s) - 1) 0) eqn:Ht.
    + apply Rleb_true in Ht.
      assert (Hi : playerState_of (tick e s) = IDLE)
        by (unfold playerState_of; rewrite Hpr; reflexivity).
      pose proof (INR_pos_or_zero := pos_INR (List.length es)).
      split; [intros H; lra|]. intros _ _. fold (ticks es (tick e s)).
      apply ticks_stay_idle, Hi.
    + apply Rleb_false in Ht.
      assert (Hr1 : playerState_of (tick e s) = REFORMING).
      { unfold playerState_of in *. rewrite Hpr. simpl. exact Hr. }
      assert (Ht1 : Proj.reformTimer (projection (tick e s))
                    = Proj.reformTimer (projection s) - 1)
        by (rewrite Hpr; reflexivity).
      rewrite Hp in Hp1.
      destruct (IH (tick e s) p1 Hp1 Hr1 Hf1) as [IH1 IH2].
      fold (ticks es (tick e s)). rewrite Ht1 in IH1, IH2. split.
      * intros H. destruct IH1 as [A B]; [lra|]. split; [exact A|]. rewrite B. lra.
      * intros _ H. apply IH2; [|lra].
        intros ->. simpl in H. lra.
Qed.

(** ** The player's step *)

Lemma projecting_unfolded (e : TickEnv) (p : Node.t)
  (l : Locals) :
  projecting e p l
  = reform_if_too_slow
      (match first_contact p (mutableNodes l) 0 with
       | Some (j, node) =>
         if Rleb (Node.integrityCooldown node) 0
         then resolve_hit e p j node (dust_collision e p l)
         else dust_collision e p l
       | None => dust_collision e p l
       end).
Proof.
  unfold projecting.
  rewrite collision_loop_first_contact, (dust_collision_mutableNodes e p).
  reflexivity.
Qed.

Lemma find_player_app_none (l l' : list Node.t) :
  find_player l = None -> find_player (l ++ l') = find_player l'.
Proof.
  unfold find_player. induction l as [|a r IH]; simpl; [reflexivity|].
  destruct (is_player a); [discriminate|exact IH].
Qed.

Lemma physics_nodes_prefix (ps : PlayerState) (wr : R) (todo done : list Node.t) :
  exists tail, physics_nodes ps wr done todo = done ++ tail.
Proof.
  revert done. induction todo as [|node rest IH]; intros done; simpl.
  - exists []. rewrite app_nil_r. reflexivity.
  - match goal with |- context [physics_nodes ps wr (done ++ [?n2]) rest] =>
      destruct (IH (done ++ [n2])) as (tail & ->); exists (n2 :: tail) end.
    rewrite <- app_assoc. reflexivity.
Qed.

Lemma physics_nodes_find_player (ps : PlayerState) (wr : R)
  (todo done : list Node.t) :
  find_player done = None ->
  find_player (physics_nodes ps wr done todo)
  = option_map (player_step ps wr) (find_player todo).
Proof.
  revert done. induction todo as [|node rest IH]; intros done Hd; simpl.
  - exact Hd.
  - set (n1 := move ps (done ++ node :: rest) node).
    set (n2 := if beyond_boundary wr n1 then bounce wr n1 else n1).
    assert (Hp2 : is_player n2 = is_player node).
    { subst n2 n1. apply body_is_player.
      destruct (beyond_boundary _ _); rewrite ?body_bounce; apply body_move. }
    destruct (is_player node) eqn:Hp.
    + destruct (physics_nodes_prefix ps wr rest (done ++ [n2])) as (tail & ->).
      rewrite <- !app_assoc, (find_player_app_none done _ Hd). simpl.
      unfold find_player. simpl. rewrite Hp2. simpl. f_equal.
      subst n2 n1. unfold player_step, move. rewrite Hp. reflexivity.
    + apply IH. rewrite (find_player_app_none done _ Hd).
      unfold find_player. simpl. rewrite Hp2. reflexivity.
Qed.

Lemma tick_player (e : TickEnv) (s : GameState) :
  isPaused s = false ->
  let l1 := state_machine_phase e (tick_locals s) in
  find_player (nodes (tick e s))
  = option_map (player_step (playerState_of (nextState l1)) (worldRadius_of e s))
      (find_player (mutableNodes l1)).
Proof.
  intros Hp l1. rewrite (tick_nodes_before_orbs e s Hp).
  unfold before_orbs, physics_phase. rewrite node_physics_mutableNodes.
  simpl. rewrite satellite_logic_projection, satellite_logic_mutableNodes.
  apply physics_nodes_find_player. reflexivity.
Qed.

Lemma find_player_update_player (f : Node.t -> Node.t) (l : list Node.t) :
  (forall n, is_player (f n) = is_player n) ->
  find_player (update_player f l) = option_map f (find_player l).
Proof.
  intros Hf. unfold find_player. induction l as [|a r IH]; simpl; [reflexivity|].
  destruct (is_player a) eqn:Ha; simpl; [rewrite Hf, Ha|rewrite Ha]; auto.
Qed.

Lemma speed_integrate (c : R) (p : Node.t) :
  0 <= c -> speed (integrate c p) = c * speed p.
Proof.
  intros Hc. unfold speed, integrate. simpl.
  rewrite hypot_scale, Rabs_pos_eq by exact Hc. reflexivity.
Qed.

(** X6: a projecting player that touches no node.  If its speed is below 0.8
    the tick stops it: the state becomes REFORMING with the timer at
    REFORM_DURATION, the velocity is zero and, inside the boundary, the
    player stays where it is.  Otherwise the state stays PROJECTING and,
    inside the boundary, the player advances by its velocity and its speed is
    multiplied by PROJECTILE_FRICTION. *)
Theorem projecting_without_contact :
  forall (e : TickEnv) (s : GameState) (p : Node.t),
    isPaused s = false ->
    playerState_of s = PROJECTING ->
    find_player (nodes s) = Some p ->
    first_contact p (nodes s) 0 = None ->
    let wr := worldRadius_of e s in
    (speed p < 0.8 ->
     playerState_of (tick e s) = REFORMING
     /\ Proj.reformTimer (projection (tick e s)) = REFORM_DURATION
     /\ (beyond_boundary wr (set_velocity 0 0 p) = false ->
         find_player (nodes (tick e s)) = Some (set_velocity 0 0 p)))
    /\ (0.8 <= speed p ->
        playerState_of (tick e s) = PROJECTING
        /\ (beyond_boundary wr (integrate PROJECTILE_FRICTION p) = false ->
            exists p', find_player (nodes (tick e s)) = Some p'
                       /\ Node.x p' = Node.x p + Node.vx p
                       /\ Node.y p' = Node.y p + Node.vy p
                       /\ speed p' = PROJECTILE_FRICTION * speed p)).
Proof.
  intros e s p Hp Hps Hf Hc wr.
  pose proof (tick_player e s Hp) as Hpl. cbv zeta in Hpl.
  pose proof (tick_projection e s Hp) as Hpr.
  assert (Hsm : state_machine_phase e (tick_locals s)
                = reform_if_too_slow (dust_collision e p (tick_locals s))).
  { unfold state_machine_phase, projection_state_machine. simpl. rewrite Hf.
    unfold playerState_of in Hps. rewrite Hps.
    rewrite projecting_unfolded. simpl. rewrite Hc.
    reflexivity. }
  rewrite Hsm in Hpl, Hpr. unfold reform_if_too_slow in Hpl, Hpr.
  rewrite (dust_collision_mutableNodes e p) in Hpl, Hpr. simpl in Hpl, Hpr.
  rewrite Hf in Hpl, Hpr. fold (speed p) in Hpl, Hpr.
  unfold playerState_of in *. split.
  - intros Hslow. apply Rltb_true in Hslow. rewrite Hslow in Hpl, Hpr.
    simpl in Hpl, Hpr. rewrite Hpr. simpl. split; [reflexivity|].
    split; [reflexivity|]. intros Hin.
    rewrite Hpl, find_player_update_player by reflexivity.
    rewrite (dust_collision_mutableNodes e p). simpl. rewrite Hf. simpl.
    unfold player_step. simpl. fold wr. rewrite Hin. reflexivity.
  - intros Hfast. apply Rltb_false in Hfast. rewrite Hfast in Hpl, Hpr.
    rewrite Hpr, (dust_collision_projection e p). simpl. split; [exact Hps|].
    intros Hin. rewrite Hpl, (dust_collision_mutableNodes e p),
      (dust_collision_projection e p). simpl. rewrite Hf, Hps. simpl.
    unfold player_step. simpl. fold wr. rewrite Hin.
    eexists. split; [reflexivity|]. simpl.
    split; [reflexivity|]. split; [reflexivity|].
    apply speed_integrate. unfold PROJECTILE_FRICTION. lra.
Qed.

(** ** The bounce of a resolved collision *)

Lemma find_player_update_at_id (j : nat) (g : Node.t -> Node.t) (i : string)
  (p : Node.t) (l : list Node.t) :
  find_player l = Some p ->
  nth_error (map Node.id l) j = Some i -> String.eqb i (Node.id p) = false ->
  (forall x, nth_error l j = Some x -> is_player (g x) = is_player x) ->
  find_player (update_at j g l) = Some p.
Proof.
  intros Hf Hn Hid Hg. unfold find_player in *. revert j Hn Hf Hg.
  induction l as [|a r IH]; intros [|j] Hn Hf Hg; simpl in *; try discriminate.
  - injection Hn as <-. rewrite (Hg a eq_refl). destruct (is_player a); [|exact Hf].
    injection Hf as <-. rewrite String.eqb_refl in Hid. discriminate.
  - destruct (is_player a); [exact Hf|]. apply IH; assumption.
Qed.

Lemma find_player_remove_id (i : string) (p : Node.t) (l : list Node.t) :
  find_player l = Some p -> String.eqb (Node.id p) i = false ->
  find_player (remove_id i l) = Some p.
Proof.
  intros Hf Hid. unfold find_player, remove_id in *.
  induction l as [|a r IH]; simpl in *; [discriminate|].
  destruct (is_player a) eqn:Ha.
  - injection Hf as ->. rewrite Hid. simpl. rewrite Ha. reflexivity.
  - destruct (negb _); simpl; rewrite ?Ha; apply IH, Hf.
Qed.

Lemma map_id_update_player (f : Node.t -> Node.t) (l : list Node.t) :
  (forall n, Node.id (f n) = Node.id n) ->
  map Node.id (update_player f l) = map Node.id l.
Proof.
  intros Hf. induction l as [|a r IH]; simpl; [reflexivity|].
  destruct (is_player a); simpl; [rewrite Hf|rewrite IH]; reflexivity.
Qed.

Lemma standard_hit_mutableNodes (e : TickEnv) (node : Node.t) (l : Locals) :
  mutableNodes (standard_hit e node l) = mutableNodes l.
Proof.
  unfold standard_hit. destruct (Node.type node), (has_id _ _); reflexivity.
Qed.

Lemma outcome_factor_pos (node : Node.t) : 0 < outcome_factor node.
Proof.
  unfold outcome_factor. destruct (destroyed node); [destruct (Node.type node)|]; lra.
Qed.

Lemma bounceFactor_pos (ty : NodeType) : 0 < bounceFactor ty.
Proof. destruct ty; simpl; lra. Qed.

(** X7: the collision handler sends the player straight away from the
    centre of the node it hit, whatever its direction was: its position is
    kept, and its velocity points along the bearing from the node to the
    player with norm speed * bounceFactor (1.3 asteroid, 1.1 star, 0.85
    others), times 1.5 when the hit destroys a star and 0.6 when it destroys
    a planet-like node. *)
Theorem collision_sends_player_away :
  forall (e : TickEnv) (p : Node.t) (j : nat) (node : Node.t) (l : Locals),
    find_player (mutableNodes l) = Some p ->
    nth_error (mutableNodes l) j = Some node ->
    String.eqb (Node.id node) (Node.id p) = false ->
    exists p',
      find_player (mutableNodes (resolve_hit e p j node l)) = Some p'
      /\ body p' = body p /\ Node.x p' = Node.x p /\ Node.y p' = Node.y p
      /\ let k := speed p * bounceFactor (Node.type node) * outcome_factor node in
         Node.vx p' = cos (bearing node p) * k
         /\ Node.vy p' = sin (bearing node p) * k
         /\ speed p' = k.
Proof.
  intros e p j node l Hf Hn Hid.
  set (a := bearing node p).
  set (b := bounceFactor (Node.type node)).
  set (f := set_velocity (cos a * speed p * b) (sin a * speed p * b)).
  set (ns1 := update_player f (update_at j (fun _ => damaged node) (mutableNodes l))).
  assert (Hdp : is_player (damaged node) = is_player node)
    by (unfold damaged; destruct (is_asteroid node); reflexivity).
  assert (Hidj : nth_error (map Node.id (mutableNodes l)) j = Some (Node.id node))
    by (rewrite nth_error_map, Hn; reflexivity).
  assert (H1 : find_player ns1 = Some (f p)).
  { subst ns1. rewrite find_player_update_player by reflexivity.
    rewrite (find_player_update_at_id j _ (Node.id node) p); auto.
    intros x Hx. rewrite Hn in Hx. injection Hx as <-. exact Hdp. }
  assert (Hid1 : nth_error (map Node.id ns1) j = Some (Node.id node)).
  { subst ns1. rewrite map_id_update_player by reflexivity.
    rewrite (map_id_update_at j _ node _ Hn (damaged_id node)). exact Hidj. }
  assert (Hk : forall c, 0 < c ->
             exists p', Some (scale_velocity c (f p)) = Some p'
                        /\ body p' = body p /\ Node.x p' = Node.x p
                        /\ Node.y p' = Node.y p
                        /\ Node.vx p' = cos a * (speed p * b * c)
                        /\ Node.vy p' = sin a * (speed p * b * c)
                        /\ speed p' = speed p * b * c).
  { intros c Hc. eexists. split; [reflexivity|]. simpl.
    split; [reflexivity|]. split; [reflexivity|]. split; [reflexivity|].
    split; [ring|]. split; [ring|]. unfold speed at 1. simpl.
    replace (cos a * speed p * b * c) with (cos a * (speed p * b * c)) by ring.
    replace (sin a * speed p * b * c) with (sin a * (speed p * b * c)) by ring.
    rewrite hypot_scaled_unit. apply Rabs_pos_eq.
    pose proof (hypot_nonneg (Node.vx p) (Node.vy p)) as H0. fold (speed p) in H0.
    pose proof (bounceFactor_pos (Node.type node)) as Hb. fold b in Hb.
    apply Rmult_le_pos; [apply Rmult_le_pos|]; lra. }
  assert (Hk1 : exists p', Some (f p) = Some p'
                        /\ body p' = body p /\ Node.x p' = Node.x p
                        /\ Node.y p' = Node.y p
                        /\ Node.vx p' = cos a * (speed p * b * 1)
                        /\ Node.vy p' = sin a * (speed p * b * 1)
                        /\ speed p' = speed p * b * 1).
  { exists (f p). split; [reflexivity|]. simpl.
    split; [reflexivity|]. split; [reflexivity|]. split; [reflexivity|].
    split; [ring|]. split; [ring|]. unfold speed at 1. simpl.
    replace (cos a * speed p * b) with (cos a * (speed p * b * 1)) by ring.
    replace (sin a * speed p * b) with (sin a * (speed p * b * 1)) by ring.
    rewrite hypot_scaled_unit. apply Rabs_pos_eq.
    pose proof (hypot_nonneg (Node.vx p) (Node.vy p)) as H0. fold (speed p) in H0.
    pose proof (bounceFactor_pos (Node.type node)) as Hb. fold b in Hb.
    apply Rmult_le_pos; [apply Rmult_le_pos|]; lra. }
  cbv zeta. fold b. unfold resolve_hit. fold (damaged node). fold a.
  change (atan2 (Node.y p - Node.y node) (Node.x p - Node.x node)) with a.
  fold (speed p). fold b. fold f.
  change (with_nodes _ l) with (with_nodes (fun _ => ns1) l) at 1.
  rewrite destroyed_test. unfold outcome_factor.
  destruct (destroyed node) eqn:Hd.
  - destruct (Node.type node) eqn:Hty.
    + simpl. fold ns1. rewrite H1. exact Hk1.
    + simpl. rewrite (find_player_update_at_id j _ (Node.id node) (scale_velocity 1.5 (f p))).
      * apply Hk. lra.
      * rewrite find_player_update_player by reflexivity. fold ns1. rewrite H1.
        reflexivity.
      * rewrite map_id_update_player by reflexivity. exact Hid1.
      * exact Hid.
      * intros x _. reflexivity.
    + simpl. change (Node.id (if is_asteroid node then node else _))
        with (Node.id (damaged node)). rewrite damaged_id.
      rewrite (find_player_remove_id _ (scale_velocity 0.6 (f p)));
        [apply Hk; lra| |rewrite String.eqb_sym; exact Hid].
      rewrite find_player_update_player by reflexivity. fold ns1. rewrite H1.
      reflexivity.
    + simpl. change (Node.id (if is_asteroid node then node else _))
        with (Node.id (damaged node)). rewrite damaged_id.
      rewrite (find_player_remove_id _ (scale_velocity 0.6 (f p)));
        [apply Hk; lra| |rewrite String.eqb_sym; exact Hid].
      rewrite find_player_update_player by reflexivity. fold ns1. rewrite H1.
      reflexivity.
    + simpl. change (Node.id (if is_asteroid node then node else _))
        with (Node.id (damaged node)). rewrite damaged_id.
      rewrite (find_player_remove_id _ (scale_velocity 0.6 (f p)));
        [apply Hk; lra| |rewrite String.eqb_sym; exact Hid].
      rewrite find_player_update_player by reflexivity. fold ns1. rewrite H1.
      reflexivity.
    + simpl. fold ns1. rewrite H1. exact Hk1.
  - rewrite standard_hit_mutableNodes. simpl. fold ns1. rewrite H1. exact Hk1.
Qed.

(** ** The supernova *)

Lemma eruption_orb_facts (e : TickEnv) (node : Node.t) (k : nat) :
  let o := eruption_orb e node k in
  Orb.x o = Node.x node /\ Orb.y o = Node.y node /\ Orb.value o = 50
  /\ Orb.radius o = 8 /\ hypot (Orb.vx o) (Orb.vy o) = 9.
Proof.
  simpl. repeat split; try reflexivity.
  rewrite hypot_scaled_unit. apply Rabs_pos_eq. lra.
Qed.

(** X8: the hit that destroys a star pays 1000 energy, posts the
    notification and throws 15 orbs from the centre of the star, each of
    radius 8, worth 50 (750 in all) and leaving at speed 9 in the direction
    drawn for it; it uses 15 random numbers. *)
Theorem supernova_eruption :
  forall (e : TickEnv) (p : Node.t) (j : nat) (node : Node.t) (l : Locals),
    Node.type node = star ->
    destroyed node = true ->
    let l' := resolve_hit e p j node l in
    energy (nextState l') = energy (nextState l) + 1000
    /\ notifications (nextState l')
       = notifications (nextState l) ++ ["SOLAR SUPER-CHARGE!"%string]
    /\ calls l' = (calls l + 15)%nat
    /\ exists orbs,
         energyOrbs (nextState l') = energyOrbs (nextState l) ++ orbs
         /\ List.length orbs = 15%nat
         /\ total_value orbs = 750
         /\ Forall (fun o => Orb.x o = Node.x node /\ Orb.y o = Node.y node
                             /\ Orb.value o = 50 /\ Orb.radius o = 8
                             /\ hypot (Orb.vx o) (Orb.vy o) = 9) orbs.
Proof.
  intros e p j node l Hty Hd l'. subst l'.
  unfold resolve_hit. fold (damaged node). rewrite destroyed_test, Hd, Hty.
  unfold supernova. cbn [nextState with_ns with_nodes push_floatingText
    push_shockwave use_random calls mutableNodes].
  cbn [energy set_energyOrbs set_notifications set_screenShake set_energy
       notifications energyOrbs].
  split; [reflexivity|]. split; [reflexivity|]. split; [reflexivity|].
  eexists. split; [reflexivity|]. split; [reflexivity|]. split.
  - cbn [map seq total_value fold_right eruption_orb Orb.value]. lra.
  - apply Forall_map. apply Forall_forall. intros k _.
    pose proof (eruption_orb_facts e (damaged node) (calls l + k)) as H.
    cbv zeta in H. unfold damaged in H at 2 3.
    assert (Hx : Node.x (damaged node) = Node.x node
                 /\ Node.y (damaged node) = Node.y node)
      by (unfold damaged; destruct (is_asteroid node); split; reflexivity).
    destruct Hx as [Hx Hy]. rewrite <- Hx, <- Hy.
    destruct H as (A & B & C); repeat split; tauto.
Qed.

(** ** Aiming *)

Lemma tick_aimAssistTargetId (e : TickEnv) (s : GameState) :
  isPaused s = false ->
  aimAssistTargetId (tick e s)
  = aimAssistTargetId (nextState (state_machine_phase e (tick_locals s))).
Proof.
  intros Hp. unfold tick. rewrite Hp. cbv zeta.
  match goal with |- context [trail_update ?l1] =>
    destruct (nextState_trail_update_frame l1) as (tr & ->) end.
  unfold orb_collection, before_orbs, physics_phase.
  match goal with |- context [node_physics e ?wr [] ?t ?l5] =>
    destruct (node_physics_nextState e wr t [] l5) as (orbs & shake & Hn) end.
  assert (Hs : forall l, aimAssistTargetId (nextState (satellite_logic l))
                         = aimAssistTargetId (nextState l)).
  { intros l. unfold satellite_logic. destruct (find_player _); [|reflexivity].
    simpl.
    destruct (satellite_income_frame (satellites (nextState l)) (nextState l))
      as (en & bm & ->). reflexivity. }
  destruct (find_player _); cbn [nextState with_ns]; rewrite Hn; simpl; apply Hs.
Qed.

Lemma aiming_tick (e : TickEnv) (s : GameState) (p : Node.t) :
  isPaused s = false -> playerState_of s = AIMING_DIRECTION ->
  find_player (nodes s) = Some p ->
  projection (tick e s) = projection (nextState (aiming_direction p (tick_locals s)))
  /\ aimAssistTargetId (tick e s)
     = aimAssistTargetId (nextState (aiming_direction p (tick_locals s))).
Proof.
  intros Hp Ha Hf.
  rewrite (tick_projection e s Hp), (tick_aimAssistTargetId e s Hp).
  unfold state_machine_phase, projection_state_machine. simpl. rewrite Hf.
  unfold playerState_of in Ha. rewrite Ha. auto.
Qed.

(** X9: while the direction is being aimed, a selected node that is in the
    registry takes the aim: after the tick the aim angle is the bearing of
    that node from the player, the aim-assist target is the selected id, and
    the state is still AIMING_DIRECTION. *)
Theorem selected_target_locks_aim :
  forall (e : TickEnv) (s : GameState) (p target : Node.t) (sid : string),
    isPaused s = false ->
    playerState_of s = AIMING_DIRECTION ->
    find_player (nodes s) = Some p ->
    selectedNodeId s = Some sid -> sid <> EmptyString ->
    find (fun n => String.eqb (Node.id n) sid) (nodes s) = Some target ->
    Proj.aimAngle (projection (tick e s)) = bearing p target
    /\ aimAssistTargetId (tick e s) = Some sid
    /\ playerState_of (tick e s) = AIMING_DIRECTION.
Proof.
  intros e s p target sid Hp Ha Hf Hsel Hne Hfind.
  destruct (aiming_tick e s p Hp Ha Hf) as [Hpr Hta].
  unfold playerState_of. rewrite Hpr, Hta. unfold aiming_direction. simpl.
  rewrite Hsel. simpl.
  assert (Hn : String.eqb sid EmptyString = false) by (apply String.eqb_neq; exact Hne).
  rewrite Hn. simpl. rewrite Hfind. simpl. rewrite Hn. simpl.
  unfold playerState_of in Ha. auto.
Qed.

Lemma free_aiming_tick (e : TickEnv) (s : GameState) (p : Node.t) :
  isPaused s = false -> playerState_of s = AIMING_DIRECTION ->
  find_player (nodes s) = Some p ->
  selectedNodeId s = None -> aimAssist s = false ->
  projection (tick e s)
  = set_aimAngle (Proj.aimAngle (projection s) + AIM_ROTATION_SPEED) (projection s)
  /\ aimAssistTargetId (tick e s) = None.
Proof.
  intros Hp Ha Hf Hsel Has.
  destruct (aiming_tick e s p Hp Ha Hf) as [-> ->].
  unfold aiming_direction. simpl. rewrite Hsel, Has. simpl. auto.
Qed.

(** X10: with nothing selected and aim assist switched off, the aim turns by
    AIM_ROTATION_SPEED in every tick for as long as the direction is being
    aimed, without being brought back into a range, and no target is
    tracked. *)
Theorem free_aim_rotates_steadily :
  forall (es : list TickEnv) (s : GameState) (p : Node.t),
    isPaused s = false ->
    playerState_of s = AIMING_DIRECTION ->
    find_player (nodes s) = Some p ->
    selectedNodeId s = None -> aimAssist s = false ->
    Proj.aimAngle (projection (ticks es s))
    = Proj.aimAngle (projection s) + AIM_ROTATION_SPEED * INR (List.length es)
    /\ playerState_of (ticks es s) = AIMING_DIRECTION
    /\ (es <> [] -> aimAssistTargetId (ticks es s) = None).
Proof.
  induction es as [|e es IH]; intros s p Hp Ha Hf Hsel Has.
  - simpl. split; [lra|]. split; [exact Ha|]. intros H. contradiction.
  - cbn [ticks fold_left List.length]. fold (ticks es (tick e s)). rewrite S_INR.
    destruct (free_aiming_tick e s p Hp Ha Hf Hsel Has) as [Hpr Hta].
    destruct (tick_settings_kept e s) as (Hp1 & _ & _ & _ & Hs1 & Ha1).
    destruct (tick_has_player e s p Hf) as (p1 & Hf1).
    assert (Hst : playerState_of (tick e s) = AIMING_DIRECTION)
      by (unfold playerState_of in *; rewrite Hpr; exact Ha).
    rewrite Hp in Hp1. rewrite Hsel in Hs1. rewrite Has in Ha1.
    destruct (IH (tick e s) p1 Hp1 Hst Hf1 Hs1 Ha1) as (A & B & C).
    split; [rewrite A, Hpr; simpl; lra|]. split; [exact B|].
    intros _. destruct es as [|e' es']; [exact Hta|]. apply C. discriminate.
Qed.

(** X11: the aim-assist scan.  When it finds no node the aim angle is left
    as it is.  When it locks, the target is a node of the registry other than
    the player, and, provided the aim is at most a full turn away from the
    bearing of that node, the new aim is within a tenth of AIM_ASSIST_ANGLE of
    that bearing. *)
Theorem aim_assist_scan_snaps :
  forall (p : Node.t) (newAngle : R) (todo : list Node.t),
    match aim_assist_scan p newAngle todo with
    | (None, a') => a' = newAngle
    | (Some i, a') =>
      exists node, In node todo /\ Node.id node = i
                   /\ String.eqb (Node.id node) (Node.id p) = false
                   /\ (Rabs (newAngle - bearing p node) <= 2 * PI ->
                       Rabs (a' - bearing p node) < 0.1 * AIM_ASSIST_ANGLE)
    end.
Proof.
  intros p newAngle todo. induction todo as [|node rest IH]; simpl; [reflexivity|].
  destruct (String.eqb (Node.id node) (Node.id p)) eqn:Hid.
  - destruct (aim_assist_scan p newAngle rest) as [[i|] a']; [|exact IH].
    destruct IH as (n & Hin & Hrest). exists n. auto.
  - fold (bearing p node).
    set (d := Rabs (newAngle - bearing p node)).
    set (angleDiff := if Rgtb d PI then 2 * PI - d else d).
    destruct (Rltb angleDiff AIM_ASSIST_ANGLE) eqn:Hlt.
    + exists node. split; [left; reflexivity|]. split; [reflexivity|].
      split; [exact Hid|]. intros Hturn. apply Rltb_true in Hlt.
      assert (Hd0 : 0 <= d) by apply Rabs_pos.
      assert (Had : 0 <= angleDiff < AIM_ASSIST_ANGLE).
      { subst angleDiff. destruct (Rgtb d PI) eqn:Hg; [|lra].
        apply Rgtb_true in Hg. fold d in Hturn. lra. }
      unfold AIM_ASSIST_ANGLE in *.
      destruct (Rgtb newAngle (bearing p node)).
      * replace (bearing p node + angleDiff * 0.1 * -1 - bearing p node)
          with (- (0.1 * angleDiff)) by lra.
        rewrite Rabs_Ropp, Rabs_pos_eq; lra.
      * replace (bearing p node + angleDiff * 0.1 * 1 - bearing p node)
          with (0.1 * angleDiff) by lra.
        rewrite Rabs_pos_eq; lra.
    + destruct (aim_assist_scan p newAngle rest) as [[i|] a']; [|exact IH].
      destruct IH as (n & Hin & Hrest). exists n. auto.
Qed.

(** ** Dust *)

Lemma createSpaceDust_from_length (e : TickEnv) (w h : R) (count k i : nat) :
  List.length (createSpaceDust_from e w h k i count) = count.
Proof.
  revert k i. induction count as [|c IH]; intros k i; simpl; [reflexivity|].
  rewrite IH. reflexivity.
Qed.

Lemma dust_id_eqb_eq (a b : Z * nat) : dust_id_eqb a b = true <-> a = b.
Proof.
  unfold dust_id_eqb. destruct a as [a1 a2], b as [b1 b2]. simpl.
  rewrite andb_true_iff, Z.eqb_eq, Nat.eqb_eq. split.
  - intros [-> ->]. reflexivity.
  - intros H. injection H. auto.
Qed.

Lemma filter_split_length {A : Type} (f : A -> bool) (l : list A) :
  (List.length (filter f l) + List.length (filter (fun x => negb (f x)) l)
   = List.length l)%nat.
Proof.
  induction l as [|a r IH]; simpl; [reflexivity|].
  destruct (f a); simpl; lia.
Qed.

Lemma dust_collision_count (e : TickEnv) (p : Node.t) (l : Locals) :
  NoDup (map Dust.id (spaceDust (nextState l))) ->
  List.length (spaceDust (nextState (dust_collision e p l)))
  = List.length (spaceDust (nextState l)).
Proof.
  intros Hnd. unfold dust_collision.
  set (dust := spaceDust (nextState l)) in *.
  set (hits := filter (dust_hit p) dust).
  assert (Hh : NoDup (map Dust.id hits)) by (apply NoDup_map_filter, Hnd).
  rewrite (nodup_fixed_point dust_id_dec Hh).
  destruct (map Dust.id hits) as [|i0 ids] eqn:Hids; [reflexivity|].
  rewrite <- Hids. simpl. rewrite length_app.
  unfold createSpaceDust. rewrite createSpaceDust_from_length, length_map.
  assert (Hk : filter (fun d => negb (existsb (dust_id_eqb (Dust.id d))
                                        (map Dust.id hits))) dust
               = filter (fun d => negb (dust_hit p d)) dust).
  { apply filter_ext_in. intros d Hd. f_equal.
    destruct (dust_hit p d) eqn:Hhit.
    - apply existsb_exists. exists (Dust.id d). split; [|apply dust_id_eqb_eq; reflexivity].
      apply in_map. subst hits. apply filter_In. auto.
    - destruct (existsb _ _) eqn:Hex; [|reflexivity].
      apply existsb_exists in Hex as (i & Hi & Hi').
      apply dust_id_eqb_eq in Hi'. subst i.
      apply in_map_iff in Hi as (h & Hhd & Hin).
      subst hits. apply filter_In in Hin as [Hin Hhh].
      assert (h = d) by (apply (NoDup_map_eq Dust.id dust); auto).
      subst h. congruence. }
  rewrite Hk. pose proof (filter_split_length (dust_hit p) dust) as H.
  fold hits in H. lia.
Qed.

Lemma collision_loop_spaceDust (e : TickEnv) (p : Node.t) (todo : list Node.t)
  (i : nat) (l : Locals) :
  spaceDust (nextState (collision_loop e p todo i l)) = spaceDust (nextState l).
Proof.
  rewrite collision_loop_first_contact.
  destruct (first_contact p todo i) as [[j node]|]; [|reflexivity].
  destruct (Rleb _ _); [|reflexivity]. hit_cases; reflexivity.
Qed.

Lemma tick_spaceDust (e : TickEnv) (s : GameState) :
  isPaused s = false ->
  spaceDust (tick e s)
  = map drift (spaceDust (nextState (state_machine_phase e (tick_locals s)))).
Proof.
  intros Hp. unfold tick. rewrite Hp. cbv zeta.
  match goal with |- context [trail_update ?l1] =>
    destruct (nextState_trail_update_frame l1) as (tr & ->) end.
  unfold orb_collection, before_orbs, physics_phase.
  match goal with |- context [node_physics e ?wr [] ?t ?l5] =>
    destruct (node_physics_nextState e wr t [] l5) as (orbs & shake & Hn) end.
  assert (Hs : forall l, spaceDust (nextState (satellite_logic l))
                         = spaceDust (nextState l)).
  { intros l. unfold satellite_logic. destruct (find_player _); [|reflexivity].
    simpl.
    destruct (satellite_income_frame (satellites (nextState l)) (nextState l))
      as (en & bm & ->). reflexivity. }
  destruct (find_player _); cbn [nextState with_ns]; rewrite Hn; simpl;
    rewrite Hs; reflexivity.
Qed.

(** X12: the dust population is kept: when the dust particles of the state
    have distinct ids, a tick returns as many particles as it was given
    (those the player sweeps up are replaced one for one). *)
Theorem dust_population_is_kept :
  forall (e : TickEnv) (s : GameState),
    NoDup (map Dust.id (spaceDust s)) ->
    List.length (spaceDust (tick e s)) = List.length (spaceDust s).
Proof.
  intros e s Hnd.
  destruct (isPaused s) eqn:Hp; [unfold tick; rewrite Hp; reflexivity|].
  rewrite (tick_spaceDust e s Hp), length_map.
  unfold state_machine_phase, projection_state_machine. simpl.
  destruct (find_player (nodes s)) as [p|]; [|reflexivity].
  destruct (Proj.playerState (projection s)); try reflexivity.
  unfold projecting, reform_if_too_slow.
    destruct (find_player _); [destruct (Rltb _ _)|]; simpl;
      rewrite collision_loop_spaceDust;
      apply (dust_collision_count e p (tick_locals s)); exact Hnd.
Qed.

(** ** The effects ledger *)

Lemma tick_effects (e : TickEnv) (s : GameState) :
  isPaused s = false ->
  let l1 := state_machine_phase e (tick_locals s) in
  shockwaves (tick e s)
  = filter (fun w => Rltb (Shockwave.life w) 1) (map grow (newShockwaves l1))
  /\ floatingTexts (tick e s)
     = filter (fun t => Rgtb (FloatingText.life t) 0) (map rise (newFloatingTexts l1))
  /\ visualEffects (tick e s)
     = filter (fun v => Rgtb (VisualEffect.life v) 0) (map fade (newVisualEffects l1)).
Proof.
  intros Hp l1. unfold tick. rewrite Hp. cbv zeta.
  match goal with |- context [trail_update ?l2] =>
    destruct (nextState_trail_update_frame l2) as (tr & ->) end.
  unfold orb_collection, before_orbs, physics_phase.
  match goal with |- context [node_physics e ?wr [] ?t ?l5] =>
    destruct (node_physics_nextState e wr t [] l5) as (orbs & shake & Hn) end.
  fold l1 in Hn |- *.
  assert (Hs : newShockwaves (satellite_logic l1) = newShockwaves l1
               /\ newFloatingTexts (satellite_logic l1) = newFloatingTexts l1
               /\ newVisualEffects (satellite_logic l1) = newVisualEffects l1).
  { unfold satellite_logic. destruct (find_player _); auto. }
  destruct Hs as (H1 & H2 & H3).
  destruct (find_player _); cbn [nextState with_ns]; rewrite Hn; simpl;
    rewrite H1, H2, H3; auto.
Qed.

(** X13: what the ledger holds after a tick is alive: every floating text,
    visual effect and trail particle has a positive life and every shockwave
    a life below 1.  The visual effects are those the state machine left,
    aged by one tick: the spark the node physics creates when the player
    bounces off the boundary is not among them. *)
Theorem effects_ledger_after_tick :
  forall (e : TickEnv) (s : GameState),
    isPaused s = false ->
    Forall (fun w => Shockwave.life w < 1) (shockwaves (tick e s))
    /\ Forall (fun t => 0 < FloatingText.life t) (floatingTexts (tick e s))
    /\ Forall (fun v => 0 < VisualEffect.life v) (visualEffects (tick e s))
    /\ Forall (fun p => 0 < Trail.life p) (projectileTrailParticles (tick e s))
    /\ (playerState_of s <> PROJECTING ->
        visualEffects (tick e s)
        = filter (fun v => Rgtb (VisualEffect.life v) 0)
                 (map fade (visualEffects s))).
Proof.
  intros e s Hp. destruct (tick_effects e s Hp) as (Hs & Hf & Hv).
  split; [|split; [|split; [|split]]].
  - rewrite Hs. apply Forall_forall. intros w Hw.
    apply filter_In in Hw as [_ Hw]. apply Rltb_true in Hw. exact Hw.
  - rewrite Hf. apply Forall_forall. intros t Ht.
    apply filter_In in Ht as [_ Ht]. apply Rgtb_true in Ht. exact Ht.
  - rewrite Hv. apply Forall_forall. intros v Hv'.
    apply filter_In in Hv' as [_ Hv']. apply Rgtb_true in Hv'. exact Hv'.
  - unfold tick. rewrite Hp. cbv zeta. simpl.
    unfold trail_update.
    set (l0 := orb_collection (before_orbs e s)).
    assert (Ha : Forall (fun p => 0 < Trail.life p)
                   (filter (fun p => Rgtb (Trail.life p) 0)
                      (map age (projectileTrailParticles (nextState l0))))).
    { apply Forall_forall. intros q Hq. apply filter_In in Hq as [_ Hq].
      apply Rgtb_true in Hq. exact Hq. }
    destruct (find_player _); [destruct (PlayerState_eqb _ _)|]; simpl;
      try exact Ha.
    apply Forall_app. split; [exact Ha|]. constructor; [simpl; lra|constructor].
  - intros Hnp. rewrite Hv. unfold state_machine_phase, projection_state_machine.
    simpl. destruct (find_player (nodes s)); [|reflexivity].
    unfold playerState_of in Hnp.
    destruct (Proj.playerState (projection s)); try reflexivity. contradiction.
Qed.

(** ** Pausing, images, selection and clicks *)

Lemma paused_ticks (es : list TickEnv) (s : GameState) :
  isPaused s = true -> ticks es s = s.
Proof.
  intros Hp. induction es as [|e es IH]; [reflexivity|].
  cbn [ticks fold_left]. unfold tick at 2. rewrite Hp. exact IH.
Qed.

(** X14: pausing freezes the world: any number of ticks sent while the state
    is paused return it unchanged, and setting the pause flag back gives
    exactly the state there was before the pause. *)
Theorem pause_freezes_the_world :
  forall (es : list TickEnv) (s : GameState),
    ticks es (gameReducer s (SET_PAUSED true)) = gameReducer s (SET_PAUSED true)
    /\ gameReducer (ticks es (gameReducer s (SET_PAUSED true)))
         (SET_PAUSED (isPaused s)) = s.
Proof.
  intros es s.
  assert (H : ticks es (gameReducer s (SET_PAUSED true))
              = gameReducer s (SET_PAUSED true))
    by (apply paused_ticks; reflexivity).
  split; [exact H|]. rewrite H. destruct s; reflexivity.
Qed.

Lemma map_unchanged {A : Type} (f : A -> A) (l : list A) :
  (forall a, In a l -> f a = a) -> map f l = l.
Proof.
  intros H. induction l as [|a r IH]; simpl; [reflexivity|].
  rewrite H by (left; reflexivity). rewrite IH; [reflexivity|].
  intros b Hb. apply H. right. exact Hb.
Qed.

(** X15: UPDATE_NODE_IMAGE with an id that no node of the registry carries
    returns the state unchanged; and sending the same update twice is the
    same as sending it once. *)
Theorem update_node_image_edge_cases :
  forall (s : GameState) (nodeId : string) (img : option string),
    ((forall n, In n (nodes s) -> Node.id n <> nodeId) ->
     gameReducer s (UPDATE_NODE_IMAGE nodeId img) = s)
    /\ gameReducer (gameReducer s (UPDATE_NODE_IMAGE nodeId img))
         (UPDATE_NODE_IMAGE nodeId img)
       = gameReducer s (UPDATE_NODE_IMAGE nodeId img).
Proof.
  intros s nodeId img. split.
  - intros H. simpl. unfold update_node_image. rewrite map_unchanged.
    + destruct s; reflexivity.
    + intros n Hn. specialize (H n Hn). apply String.eqb_neq in H. rewrite H.
      reflexivity.
  - simpl. unfold update_node_image.
    set (f := fun node => if String.eqb (Node.id node) nodeId
                          then Node.set_imageUrl img node else node).
    assert (H : map f (map f (nodes s)) = map f (nodes s)).
    { rewrite map_map. apply map_ext. intros n. subst f. simpl.
      destruct (String.eqb (Node.id n) nodeId) eqn:E; simpl; rewrite E; reflexivity. }
    unfold set_nodes. simpl. rewrite H. reflexivity.
Qed.

(** X16: a click on the player never sends a projection action in a state
    that does not accept it; it sends none while the player is projecting or
    reforming; and three clicks in a row take an idle player that is in the
    registry to PROJECTING. *)
Theorem clicks_follow_the_state_machine :
  forall s : GameState,
    (forall a, handlePlayerInteraction s = Some a -> ~ wrong_state s a)
    /\ (playerState_of s = PROJECTING \/ playerState_of s = REFORMING ->
        handlePlayerInteraction s = None)
    /\ (forall p, playerState_of s = IDLE -> find_player (nodes s) = Some p ->
        let s1 := dispatch s (handlePlayerInteraction s) in
        let s2 := dispatch s1 (handlePlayerInteraction s1) in
        let s3 := dispatch s2 (handlePlayerInteraction s2) in
        playerState_of s1 = AIMING_DIRECTION
        /\ playerState_of s2 = AIMING_POWER
        /\ playerState_of s3 = PROJECTING).
Proof.
  intros s. split; [|split].
  - intros a H. unfold handlePlayerInteraction in H.
    destruct (playerState_of s) eqn:E; try discriminate;
      injection H as <-; simpl; rewrite E; intros C; apply C; reflexivity.
  - intros [H|H]; unfold handlePlayerInteraction; rewrite H; reflexivity.
  - intros p Hi Hf s1 s2 s3.
    assert (H1 : playerState_of s1 = AIMING_DIRECTION /\ nodes s1 = nodes s).
    { subst s1. unfold handlePlayerInteraction. rewrite Hi. simpl.
      unfold start_aiming. unfold playerState_of in *. rewrite Hi. auto. }
    destruct H1 as [H1 N1].
    assert (H2 : playerState_of s2 = AIMING_POWER /\ nodes s2 = nodes s).
    { subst s2. unfold handlePlayerInteraction. rewrite H1. simpl.
      unfold set_direction. unfold playerState_of in *. rewrite H1. simpl.
      rewrite N1. auto. }
    destruct H2 as [H2 N2].
    split; [exact H1|]. split; [exact H2|].
    subst s3. unfold handlePlayerInteraction. rewrite H2. simpl.
    unfold launch_player. unfold playerState_of in *. rewrite H2, N2, Hf.
    reflexivity.
Qed.

(** X17: a click on the empty container while the player is idle and a node
    is selected only clears the selection: the projection does not move, the
    aim-assist target stays what it was, and the next click starts the
    aim. *)
Theorem container_click_deselects_first :
  forall (s : GameState) (sid : string),
    playerState_of s = IDLE ->
    selectedNodeId s = Some sid -> sid <> EmptyString ->
    let s1 := dispatch s (handleContainerClick true false s) in
    let s2 := dispatch s1 (handleContainerClick true false s1) in
    selectedNodeId s1 = None
    /\ projection s1 = projection s
    /\ aimAssistTargetId s1 = aimAssistTargetId s
    /\ playerState_of s2 = AIMING_DIRECTION.
Proof.
  intros s sid Hi Hsel Hne s1 s2.
  assert (Hn : String.eqb sid EmptyString = false) by (apply String.eqb_neq; exact Hne).
  assert (E1 : s1 = set_selectedNodeId None s).
  { subst s1. unfold handleContainerClick. rewrite Hi, Hsel. simpl. rewrite Hn.
    reflexivity. }
  subst s2. rewrite E1. simpl. split; [reflexivity|]. split; [reflexivity|].
  split; [reflexivity|].
  unfold handleContainerClick, playerState_of in *. simpl. rewrite Hi. simpl.
  unfold handlePlayerInteraction, playerState_of. simpl. rewrite Hi. simpl.
  unfold start_aiming. simpl. rewrite Hi. reflexivity.
Qed.

(** ** Dust creation *)

Lemma createSpaceDust_from_spec (e : TickEnv) (w h : R) (count k i : nat) :
  (forall j, 0 <= rnd e j < 1) -> 0 <= w -> 0 <= h ->
  let ds := createSpaceDust_from e w h k i count in
  map Dust.id ds = map (fun j => (now e, j)) (seq i count)
  /\ Forall (fun d => - w <= Dust.x d <= w /\ - h <= Dust.y d <= h
                      /\ Rabs (Dust.vx d) <= 0.1 /\ Rabs (Dust.vy d) <= 0.1
                      /\ 1 <= Dust.size d < 3) ds.
Proof.
  intros Hr Hw Hh. revert k i.
  induction count as [|c IH]; intros k i; simpl; [split; [reflexivity|constructor]|].
  destruct (IH (k + 6)%nat (S i)) as [Hid Hall]. split.
  - rewrite Hid. reflexivity.
  - constructor; [|exact Hall]. simpl.
    pose proof (Hr k) as H0. pose proof (Hr (k + 1)%nat) as H1.
    pose proof (Hr (k + 2)%nat) as H2. pose proof (Hr (k + 3)%nat) as H3.
    pose proof (Hr (k + 4)%nat) as H4.
    repeat split; try nra; try lra;
      apply Rabs_le; lra.
Qed.

Lemma NoDup_map_injective {A B : Type} (f : A -> B) (l : list A) :
  (forall a b, f a = f b -> a = b) -> NoDup l -> NoDup (map f l).
Proof.
  intros Hf. induction 1 as [|a r Hn _ IH]; simpl; constructor; [|exact IH].
  intros Hin. apply in_map_iff in Hin as (b & Hb & Hin).
  apply Hf in Hb. subst b. contradiction.
Qed.

(** X18: [createSpaceDust] returns as many particles as asked for, with
    distinct ids; when the random numbers are in [0, 1) and the two extents
    are not negative, every particle lies within the extents, has speed
    components of at most 0.1 and a size in [1, 3). *)
Theorem createSpaceDust_spec :
  forall (e : TickEnv) (k count : nat) (w h : R),
    (forall j, 0 <= rnd e j < 1) -> 0 <= w -> 0 <= h ->
    let ds := createSpaceDust e k count w h in
    List.length ds = count
    /\ NoDup (map Dust.id ds)
    /\ Forall (fun d => - w <= Dust.x d <= w /\ - h <= Dust.y d <= h
                        /\ Rabs (Dust.vx d) <= 0.1 /\ Rabs (Dust.vy d) <= 0.1
                        /\ 1 <= Dust.size d < 3) ds.
Proof.
  intros e k count w h Hr Hw Hh ds. subst ds. unfold createSpaceDust.
  destruct (createSpaceDust_from_spec e w h count k 0 Hr Hw Hh) as [Hid Hall].
  split; [apply createSpaceDust_from_length|]. split; [|exact Hall].
  rewrite Hid. apply NoDup_map_injective; [|apply seq_NoDup].
  intros a b H. injection H. auto.
Qed.

(** * The camera *)

(** X19: the camera director.  Without the optional callback (the case of
    [App], which does not pass it) the effect does nothing.  With a callback,
    it returns without calling it exactly when the registry has no player;
    otherwise it calls it once, with a scale between 0.6 and 1.6, and no more
    than 1.2 while the player is projecting; while the player is idle,
    reforming or setting the power, the view is centred on the player.
    Passed the setter of the world-scale hook, the target it sets is within
    the limits of the zoom. *)
Theorem camera_director_target :
  forall (A : Type) (s : GameState),
    cameraDirector (A := A) None s = None
    /\ (forall callback : R -> R -> R -> A,
          (cameraDirector (Some callback) s = None
           <-> find_player (nodes s) = None)
          /\ forall p,
               find_player (nodes s) = Some p ->
               exists tx ty sc,
                 cameraDirector (Some callback) s = Some (callback tx ty sc)
                 /\ 0.6 <= sc <= 1.6
                 /\ (playerState_of s = PROJECTING -> sc <= 1.2)
                 /\ (playerState_of s = IDLE \/ playerState_of s = REFORMING
                     \/ playerState_of s = AIMING_POWER ->
                     tx = - Node.x p * sc /\ ty = - Node.y p * sc))
    /\ (forall ev, cameraDirector (Some Cam.SetCameraTarget) s = Some ev ->
                   cam_event_ok ev).
Proof.
  intros A s.
  assert (Hcall : forall (B : Type) (callback : R -> R -> R -> B) p,
             find_player (nodes s) = Some p ->
             exists tx ty sc,
               cameraDirector (Some callback) s = Some (callback tx ty sc)
               /\ 0.6 <= sc <= 1.6
               /\ (playerState_of s = PROJECTING -> sc <= 1.2)
               /\ (playerState_of s = IDLE \/ playerState_of s = REFORMING
                   \/ playerState_of s = AIMING_POWER ->
                   tx = - Node.x p * sc /\ ty = - Node.y p * sc)).
  { intros B callback p Hp. unfold cameraDirector. rewrite Hp.
    destruct (playerState_of s) eqn:E.
    - do 3 eexists. split; [reflexivity|]. split; [lra|].
      split; [discriminate|]. intros _. auto.
    - destruct (truthy _); [destruct (find_by_id _ _)|];
        (do 3 eexists; split; [reflexivity|]; split; [lra|];
         split; [discriminate|]; intros [C|[C|C]]; discriminate).
    - do 3 eexists. split; [reflexivity|]. split; [lra|].
      split; [discriminate|]. intros _. auto.
    - pose proof (hypot_nonneg (Node.vx p) (Node.vy p)) as H0.
      assert (Hm : 0.6 <= Rmax 0.6 (1.2 - hypot (Node.vx p) (Node.vy p) / 40)
                   <= 1.2).
      { split; [apply Rmax_l|]. apply Rmax_lub; lra. }
      do 3 eexists. split; [reflexivity|]. split; [lra|].
      split; [intros _; lra|]. intros [C|[C|C]]; discriminate.
    - do 3 eexists. split; [reflexivity|]. split; [lra|].
      split; [discriminate|]. intros _. auto. }
  split; [reflexivity|]. split.
  - intros callback. split; [|apply Hcall].
    split.
    + intros H. destruct (find_player (nodes s)) as [p|] eqn:Hp; [|reflexivity].
      destruct (Hcall A callback p eq_refl) as (tx & ty & sc & Hc & _).
      rewrite Hc in H. discriminate.
    + intros H. unfold cameraDirector. rewrite H. reflexivity.
  - intros ev Hev.
    destruct (find_player (nodes s)) as [p|] eqn:Hp.
    + destruct (Hcall Cam.event Cam.SetCameraTarget p eq_refl)
        as (tx & ty & sc & Hc & Hr & _).
      rewrite Hc in Hev. injection Hev as <-. simpl. lra.
    + unfold cameraDirector in Hev. rewrite Hp in Hev. discriminate.
Qed.

Lemma clamp_range (newScale : R) : 0.2 <= Cam.clamp newScale <= 5.
Proof.
  unfold Cam.clamp. split; [apply Rmax_l|].
  apply Rmax_lub; [lra|apply Rmin_r].
Qed.

Lemma clamp_inside (newScale : R) :
  0.2 <= newScale <= 5 -> Cam.clamp newScale = newScale.
Proof.
  intros H. unfold Cam.clamp. rewrite Rmin_left by lra. apply Rmax_right. lra.
Qed.

Lemma lerp_between (t p : R) :
  let n := p + (t - p) * 0.08 in
  Rabs (t - n) = 0.92 * Rabs (t - p) /\ (p <= n <= t \/ t <= n <= p).
Proof.
  simpl. split.
  - replace (t - (p + (t - p) * 0.08)) with (0.92 * (t - p)) by lra.
    rewrite Rabs_mult, (Rabs_pos_eq 0.92) by lra. reflexivity.
  - destruct (Rle_dec p t); [left|right]; lra.
Qed.

Lemma lerp_scale_range (target prev : Cam.WorldTransform) :
  0.2 <= Cam.scale target <= 5 -> 0.2 <= Cam.scale prev <= 5 ->
  0.2 <= Cam.scale (Cam.lerp target prev) <= 5.
Proof.
  intros Ht Hp. unfold Cam.lerp.
  destruct (_ && _); [exact Hp|]. simpl.
  destruct (lerp_between (Cam.scale target) (Cam.scale prev)) as [_ [H|H]]; lra.
Qed.

Lemma cam_step_in_range (h : Cam.t) (ev : Cam.event) :
  cam_in_range h -> cam_event_ok ev -> cam_in_range (Cam.step h ev).
Proof.
  intros [Ht Hg] Hev. unfold cam_in_range.
  destruct ev; simpl in *.
  - unfold Cam.updateCamera. destruct (_ && _); simpl; [|auto].
    split; [apply lerp_scale_range; assumption|exact Hg].
  - auto.
  - split; [apply clamp_range|exact Hg].
  - unfold Cam.handleMouseDown. destruct (negb _); simpl; auto.
  - auto.
  - unfold Cam.handleMouseMove. destruct (negb _); simpl; auto.
  - split; [apply clamp_range|exact Hg].
Qed.

(** X20: the zoom stays within its limits: starting from the initial scale
    of the application (0.4), whatever the user does with the wheel, the
    mouse and the zoom buttons, and whatever targets of scale between 0.2 and
    5 the camera director sets, the scale of the view is between 0.2 and 5
    after every event. *)
Theorem view_scale_stays_in_range :
  forall evs : list Cam.event,
    Forall cam_event_ok evs ->
    cam_in_range (cam_run evs (Cam.init 0.4)).
Proof.
  intros evs Hev.
  assert (H0 : cam_in_range (Cam.init 0.4)) by (unfold cam_in_range; simpl; lra).
  unfold cam_run. revert H0. generalize (Cam.init 0.4).
  induction Hev as [|ev evs Hok _ IH]; intros h Hh; [exact Hh|].
  simpl. apply IH. apply cam_step_in_range; assumption.
Qed.

(** X21: one frame of the camera interpolation.  Each of the three
    coordinates of the view ends between its old value and the target: the
    camera never overshoots.  When the view is moved at all, the distance of
    every coordinate to the target is multiplied by 0.92; it is left alone
    exactly when x and y are within 0.1 and the scale within 0.001 of the
    target. *)
Theorem camera_frame_approaches_target :
  forall target prev : Cam.WorldTransform,
    let new := Cam.lerp target prev in
    let close :=
      Rabs (Cam.x target - Cam.x prev) < 0.1
      /\ Rabs (Cam.y target - Cam.y prev) < 0.1
      /\ Rabs (Cam.scale target - Cam.scale prev) < 0.001 in
    (close -> new = prev)
    /\ (~ close ->
        Rabs (Cam.x target - Cam.x new) = 0.92 * Rabs (Cam.x target - Cam.x prev)
        /\ Rabs (Cam.y target - Cam.y new) = 0.92 * Rabs (Cam.y target - Cam.y prev)
        /\ Rabs (Cam.scale target - Cam.scale new)
           = 0.92 * Rabs (Cam.scale target - Cam.scale prev))
    /\ Rabs (Cam.x target - Cam.x new) <= Rabs (Cam.x target - Cam.x prev)
    /\ Rabs (Cam.y target - Cam.y new) <= Rabs (Cam.y target - Cam.y prev)
    /\ Rabs (Cam.scale target - Cam.scale new)
       <= Rabs (Cam.scale target - Cam.scale prev).
Proof.
  intros target prev new close. subst new close. unfold Cam.lerp.
  destruct (Rltb (Rabs (Cam.x target - Cam.x prev)) 0.1) eqn:Hx;
    destruct (Rltb (Rabs (Cam.y target - Cam.y prev)) 0.1) eqn:Hy;
    destruct (Rltb (Rabs (Cam.scale target - Cam.scale prev)) 0.001) eqn:Hs;
    simpl;
    try apply Rltb_true in Hx; try apply Rltb_false in Hx;
    try apply Rltb_true in Hy; try apply Rltb_false in Hy;
    try apply Rltb_true in Hs; try apply Rltb_false in Hs.
  1: { split; [reflexivity|]. split; [intros C; exfalso; apply C; auto|].
       repeat split; apply Rle_refl. }
  all: destruct (lerp_between (Cam.x target) (Cam.x prev)) as [Ex _];
    destruct (lerp_between (Cam.y target) (Cam.y prev)) as [Ey _];
    destruct (lerp_between (Cam.scale target) (Cam.scale prev)) as [Es _];
    pose proof (Rabs_pos (Cam.x target - Cam.x prev));
    pose proof (Rabs_pos (Cam.y target - Cam.y prev));
    pose proof (Rabs_pos (Cam.scale target - Cam.scale prev));
    (split; [intros (A & B & C); lra|]);
    (split; [intros _; auto|]);
    rewrite Ex, Ey, Es; repeat split; lra.
Qed.

Lemma drag_spec (moves : list (R * R)) (h : Cam.t) :
  Cam.isPanning h = true ->
  let h' := drag moves h in
  let last_point := last moves (Cam.lastMousePos h) in
  Cam.x (Cam.transform h')
  = Cam.x (Cam.transform h) + (fst last_point - fst (Cam.lastMousePos h))
  /\ Cam.y (Cam.transform h')
     = Cam.y (Cam.transform h) + (snd last_point - snd (Cam.lastMousePos h))
  /\ Cam.scale (Cam.transform h') = Cam.scale (Cam.transform h)
  /\ Cam.lastMousePos h' = last_point
  /\ Cam.isPanning h' = true.
Proof.
  revert h. induction moves as [|m r IH]; intros h Hp; simpl.
  - repeat split; try lra; exact Hp.
  - set (h1 := Cam.handleMouseMove (fst m) (snd m) h).
    assert (Hp1 : Cam.isPanning h1 = true)
      by (subst h1; unfold Cam.handleMouseMove; rewrite Hp; reflexivity).
    destruct (IH h1 Hp1) as (Hx & Hy & Hs & Hl & Hq).
    fold (drag r h1). rewrite Hx, Hy, Hs, Hl.
    assert (E : Cam.lastMousePos h1 = m
                /\ Cam.x (Cam.transform h1)
                   = Cam.x (Cam.transform h) + (fst m - fst (Cam.lastMousePos h))
                /\ Cam.y (Cam.transform h1)
                   = Cam.y (Cam.transform h) + (snd m - snd (Cam.lastMousePos h))
                /\ Cam.scale (Cam.transform h1) = Cam.scale (Cam.transform h)).
    { subst h1. unfold Cam.handleMouseMove. rewrite Hp. simpl.
      destruct m; auto. }
    destruct E as (E1 & E2 & E3 & E4). rewrite E1, E2, E3, E4.
    assert (El : last r m = match r with [] => m | _ :: _ => last r (Cam.lastMousePos h) end).
    { destruct r as [|m' r']; [reflexivity|].
      clear. revert m'. induction r' as [|a r'' IH]; intros m'; [reflexivity|].
      simpl in *. apply IH. }
    rewrite El. destruct r; repeat split; try lra; exact Hq.
Qed.

(** X22: a drag with the left button translates the view by the total
    displacement of the mouse, whatever path it takes, leaves the scale alone
    and switches the automatic tracking off, so that the frames of the
    interpolation loop do not move the view until a new camera target is
    set. *)
Theorem drag_translates_the_view :
  forall (h : Cam.t) (startX startY : R) (moves : list (R * R)),
    let h' := drag moves (Cam.handleMouseDown 0 startX startY h) in
    let last_point := last moves (startX, startY) in
    Cam.x (Cam.transform h') = Cam.x (Cam.transform h) + (fst last_point - startX)
    /\ Cam.y (Cam.transform h') = Cam.y (Cam.transform h) + (snd last_point - startY)
    /\ Cam.scale (Cam.transform h') = Cam.scale (Cam.transform h)
    /\ Cam.updateCamera (Cam.handleMouseUp h') = Cam.handleMouseUp h'.
Proof.
  intros h sx sy moves h' last_point. subst h' last_point.
  set (h0 := Cam.handleMouseDown 0 sx sy h).
  assert (Hp : Cam.isPanning h0 = true) by reflexivity.
  destruct (drag_spec moves h0 Hp) as (Hx & Hy & Hs & _ & _).
  cbv zeta in Hx, Hy, Hs. simpl in Hx, Hy, Hs.
  split; [exact Hx|]. split; [exact Hy|]. split; [exact Hs|].
  assert (Ha : forall ms g, Cam.isAutoTracking g = false ->
                            Cam.isAutoTracking (drag ms g) = false).
  { induction ms as [|m r IH]; intros g Hg; [exact Hg|]. simpl. apply IH.
    unfold Cam.handleMouseMove. destruct (negb _); exact Hg. }
  unfold Cam.updateCamera. simpl. rewrite (Ha moves h0 eq_refl). reflexivity.
Qed.

(** * The retry wrapper of the service calls *)

Lemma retry_loop_step {T : Type} (osk : option bool)
  (operation : nat -> Retry.outcome T) (fallbackValue : option T)
  (fuel retries : nat) :
  Retry.loop osk operation fallbackValue (S fuel) retries
  = if (retries <? Retry.MAX_RETRIES)%nat then
      Retry.called
        match operation retries with
        | Retry.Resolved v => Retry.stop (Retry.Returns (Some v))
        | Retry.Rejected error =>
          match error with
          | None => Retry.stop Retry.Throws
          | Some errorMessage =>
            if Retry.isRateLimit errorMessage then
              if (Retry.MAX_RETRIES <=? S retries)%nat
              then Retry.stop (Retry.Returns fallbackValue)
              else Retry.sleep
                     (Retry.INITIAL_BACKOFF_MS * 2 ^ Z.of_nat (S retries - 1))%Z
                     (Retry.loop osk operation fallbackValue fuel (S retries))
            else
              {| Retry.settled :=
                   match Retry.handleApiError osk error with
                   | Retry.Returns _ => Retry.Returns fallbackValue
                   | Retry.Throws => Retry.Throws
                   end;
                 Retry.delays := []; Retry.attempts := 0%nat;
                 Retry.handled := true |}
          end
        end
    else Retry.stop (Retry.Returns fallbackValue).
Proof. reflexivity. Qed.

Lemma retry_loop_more_fuel {T : Type} (osk : option bool)
  (operation : nat -> Retry.outcome T) (fallbackValue : option T)
  (fuel retries : nat) :
  (Retry.MAX_RETRIES - retries <= fuel)%nat ->
  Retry.loop osk operation fallbackValue (S fuel) retries
  = Retry.loop osk operation fallbackValue fuel retries.
Proof.
  unfold Retry.MAX_RETRIES. revert retries.
  induction fuel as [|f IH]; intros retries H.
  - simpl. unfold Retry.MAX_RETRIES.
    destruct (Nat.ltb_spec retries 5); [lia|reflexivity].
  - rewrite (retry_loop_step osk operation fallbackValue (S f) retries),
      (retry_loop_step osk operation fallbackValue f retries).
    rewrite (IH (S retries)) by lia. reflexivity.
Qed.

Lemma retry_loop_enough_fuel {T : Type} (osk : option bool)
  (operation : nat -> Retry.outcome T) (fallbackValue : option T) (extra : nat) :
  Retry.loop osk operation fallbackValue (Retry.MAX_RETRIES + extra) 0
  = Retry.retryWithBackoff osk operation fallbackValue.
Proof.
  unfold Retry.retryWithBackoff. induction extra as [|n IH].
  - rewrite Nat.add_0_r. reflexivity.
  - rewrite Nat.add_succ_r, retry_loop_more_fuel; [exact IH|].
    unfold Retry.MAX_RETRIES. lia.
Qed.

(** One call of the operation, by cases. *)
Ltac retry_call operation k :=
  let v := fresh "v" in
  let msg := fresh "msg" in
  let E := fresh "E" in
  let R := fresh "R" in
  let Hh := fresh "Hh" in
  destruct (operation k) as [v|[msg|]] eqn:E;
  [|destruct (Retry.isRateLimit msg) eqn:R;
    [|destruct (Retry.handleApiError _ (Some msg)) eqn:Hh]|].

(** X23: [retryWithBackoff] always settles: the operation is called at least
    once and at most five times, a delay is slept between two consecutive
    calls and nowhere else, and the delays are, in order, the first ones of
    5 s, 10 s, 20 s, 40 s, so that a run sleeps 75 s at most.  The loop needs
    no more than five iterations: any larger bound gives the same run.  The
    promise rejects only through the catch block of the last call: the value
    caught there cannot be read (its [toString] fails), or it is not a rate
    limit and [handleApiError] rejects; the error handler is called for no
    other value than one that is read and is not a rate limit. *)
Theorem retry_is_bounded :
  forall (T : Type) (openSelectKey : option bool)
         (operation : nat -> Retry.outcome T) (fallbackValue : option T),
    let r := Retry.retryWithBackoff openSelectKey operation fallbackValue in
    (1 <= Retry.attempts r <= 5)%nat
    /\ Retry.attempts r = S (List.length (Retry.delays r))
    /\ Retry.delays r
       = firstn (Retry.attempts r - 1) [5000; 10000; 20000; 40000]%Z
    /\ (fold_right Z.add 0 (Retry.delays r) <= 75000)%Z
    /\ (forall fuel, (5 <= fuel)%nat ->
                     Retry.loop openSelectKey operation fallbackValue fuel 0 = r)
    /\ (Retry.handled r = true ->
        exists msg, operation (Retry.attempts r - 1)%nat = Retry.Rejected (Some msg)
                    /\ Retry.isRateLimit msg = false)
    /\ (Retry.settled r = Retry.Throws ->
        exists error,
          operation (Retry.attempts r - 1)%nat = Retry.Rejected error
          /\ (error = None
              \/ (Retry.handled r = true
                  /\ Retry.handleApiError openSelectKey error = Retry.Throws))).
Proof.
  intros T osk operation fallbackValue r.
  assert (Hfuel : forall fuel, (5 <= fuel)%nat ->
                               Retry.loop osk operation fallbackValue fuel 0 = r).
  { intros fuel H. replace fuel with (Retry.MAX_RETRIES + (fuel - 5))%nat
      by (unfold Retry.MAX_RETRIES; lia).
    apply retry_loop_enough_fuel. }
  split; [|split; [|split; [|split; [|split; [exact Hfuel|split]]]]];
    clear Hfuel; subst r; unfold Retry.retryWithBackoff; simpl;
    retry_call operation 0%nat; simpl; try lia; try reflexivity; try discriminate;
    try (intros _; eexists; split; [eassumption|]; auto; fail);
    retry_call operation 1%nat; simpl; try lia; try reflexivity; try discriminate;
    try (intros _; eexists; split; [eassumption|]; auto; fail);
    retry_call operation 2%nat; simpl; try lia; try reflexivity; try discriminate;
    try (intros _; eexists; split; [eassumption|]; auto; fail);
    retry_call operation 3%nat; simpl; try lia; try reflexivity; try discriminate;
    try (intros _; eexists; split; [eassumption|]; auto; fail);
    retry_call operation 4%nat; simpl; try lia; try reflexivity; try discriminate;
    try (intros _; eexists; split; [eassumption|]; auto; fail).
Qed.

Lemma retry_skips_rate_limits {T : Type} (osk : option bool)
  (operation : nat -> Retry.outcome T) (fallbackValue : option T)
  (fuel retries : nat) :
  Retry.rate_limited (operation retries) = true ->
  (S retries < Retry.MAX_RETRIES)%nat ->
  Retry.loop osk operation fallbackValue (S fuel) retries
  = Retry.called
      (Retry.sleep (Retry.INITIAL_BACKOFF_MS * 2 ^ Z.of_nat retries)%Z
         (Retry.loop osk operation fallbackValue fuel (S retries))).
Proof.
  intros Hop H. rewrite retry_loop_step.
  destruct (operation retries) as [v|[msg|]]; try discriminate.
  simpl in Hop. rewrite Hop.
  destruct (Nat.ltb_spec retries Retry.MAX_RETRIES); [|lia].
  destruct (Nat.leb_spec Retry.MAX_RETRIES (S retries)); [lia|].
  replace (S retries - 1)%nat with retries by lia. reflexivity.
Qed.

(** X24: the result of [retryWithBackoff] is settled by the first call that
    does not end in the rate-limit branch.  If the calls before call number
    [k] (from 0, with k < 5) are all rate limited, then: when call [k]
    resolves, its value is returned; when it rejects with a value that cannot
    be read, the promise rejects, without the error handler; when it rejects
    with a readable value that is not a rate limit, the error handler runs
    and the fallback value is returned, unless the handler rejects, which it
    does only for a permission or not-found message when opening the key
    dialog fails.  In all three cases the operation has been called k + 1
    times and never again.  If the first five calls are all rate limited, the
    fallback value is returned after five calls and four delays, without the
    error handler. *)
Theorem retry_settles_at_first_answer :
  forall (T : Type) (openSelectKey : option bool)
         (operation : nat -> Retry.outcome T) (fallbackValue : option T)
         (k : nat),
    (forall j, (j < k)%nat -> Retry.rate_limited (operation j) = true) ->
    let r := Retry.retryWithBackoff openSelectKey operation fallbackValue in
    ((k < 5)%nat ->
     forall v, operation k = Retry.Resolved v ->
               Retry.settled r = Retry.Returns (Some v)
               /\ Retry.attempts r = S k /\ Retry.handled r = false)
    /\ ((k < 5)%nat ->
        operation k = Retry.Rejected None ->
        Retry.settled r = Retry.Throws
        /\ Retry.attempts r = S k /\ Retry.handled r = false)
    /\ ((k < 5)%nat ->
        forall msg, operation k = Retry.Rejected (Some msg) ->
                    Retry.isRateLimit msg = false ->
                    Retry.attempts r = S k /\ Retry.handled r = true
                    /\ (Retry.settled r = Retry.Returns fallbackValue
                        \/ Retry.settled r = Retry.Throws)
                    /\ (Retry.settled r = Retry.Throws
                        <-> Retry.handleApiError openSelectKey (Some msg)
                            = Retry.Throws)
                    /\ (Retry.settled r = Retry.Throws ->
                        openSelectKey = Some false
                        /\ (Retry.includes "403" msg
                            || Retry.includes "permission_denied" msg
                            || (Retry.includes "requested entity was not found" msg
                                || Retry.includes "404" msg)) = true))
    /\ ((5 <= k)%nat ->
        Retry.settled r = Retry.Returns fallbackValue
        /\ Retry.attempts r = 5%nat
        /\ Retry.delays r = [5000; 10000; 20000; 40000]%Z
        /\ Retry.handled r = false).
Proof.
  intros T osk operation fallbackValue k Hrl r. subst r.
  unfold Retry.retryWithBackoff.
  change Retry.MAX_RETRIES with 5%nat.
  split; [|split; [|split]].
  - intros Hk v Hv.
    destruct k as [|[|[|[|[|k]]]]]; [| | | | |lia];
      repeat (rewrite retry_skips_rate_limits;
              [|apply Hrl; lia|change Retry.MAX_RETRIES with 5%nat; lia]);
      simpl; rewrite Hv; simpl; auto.
  - intros Hk Hv.
    destruct k as [|[|[|[|[|k]]]]]; [| | | | |lia];
      repeat (rewrite retry_skips_rate_limits;
              [|apply Hrl; lia|change Retry.MAX_RETRIES with 5%nat; lia]);
      simpl; rewrite Hv; simpl; auto.
  - intros Hk msg Hv Hnr.
    assert (Hh : Retry.handleApiError osk (Some msg) = Retry.Throws ->
                 osk = Some false
                 /\ (Retry.includes "403" msg
                     || Retry.includes "permission_denied" msg
                     || (Retry.includes "requested entity was not found" msg
                         || Retry.includes "404" msg)) = true).
    { unfold Retry.handleApiError.
      destruct (_ || _ || (_ || _)); [|discriminate].
      destruct osk as [[|]|]; try discriminate. auto. }
    destruct k as [|[|[|[|[|k]]]]]; [| | | | |lia];
      repeat (rewrite retry_skips_rate_limits;
              [|apply Hrl; lia|change Retry.MAX_RETRIES with 5%nat; lia]);
      rewrite retry_loop_step; rewrite Hv, Hnr; cbn [Nat.ltb Nat.leb];
      destruct (Retry.handleApiError osk (Some msg)) eqn:E; simpl;
      (split; [reflexivity|]); (split; [reflexivity|]);
      (split; [auto|]);
      (split; [split; [discriminate || reflexivity|discriminate || reflexivity]|]);
      first [discriminate | intros _; apply Hh; reflexivity].
  - intros Hk.
    repeat (rewrite retry_skips_rate_limits;
            [|apply Hrl; lia|change Retry.MAX_RETRIES with 5%nat; lia]).
    rewrite retry_loop_step.
    pose proof (Hrl 4%nat ltac:(lia)) as H4.
    destruct (operation 4%nat) as [v|[msg|]]; try discriminate.
    simpl in H4. rewrite H4. simpl. auto.
Qed.

(** * The tutorial step and the level transition *)

Lemma tutorial_step_of_action (s : GameState) (a : GameAction) :
  tutorialStep (gameReducer s a) = tutorialStep s
  \/ (tutorial_trigger a = Some (tutorialStep s)
      /\ tutorialStep (gameReducer s a) = (tutorialStep s + 1)%Z).
Proof.
  destruct a as [e| | | |nodeId|payload|nodeId img|value]; simpl.
  - left. destruct (tick_settings_kept e s) as (_ & _ & _ & H & _). exact H.
  - unfold start_aiming. destruct (Proj.playerState (projection s)); auto.
    simpl. destruct (Z.eqb_spec (tutorialStep s) 0) as [E|E]; [|auto].
    right. rewrite E. auto.
  - unfold set_direction. destruct (Proj.playerState (projection s)); auto.
    simpl. destruct (Z.eqb_spec (tutorialStep s) 1) as [E|E]; [|auto].
    right. rewrite E. auto.
  - unfold launch_player. destruct (Proj.playerState (projection s)); auto.
    destruct (find_player (nodes s)); auto.
    simpl. destruct (Z.eqb_spec (tutorialStep s) 2) as [E|E]; [|auto].
    right. rewrite E. auto.
  - unfold select_node. destruct nodeId as [i|]; [|auto]. simpl.
    destruct (Z.eqb_spec (tutorialStep s) 2) as [E|E]; simpl;
      [|left; destruct (negb (String.eqb i "")); reflexivity].
    destruct (String.eqb i "tutorial_planet"); simpl;
      [|left; destruct (negb (String.eqb i "")); reflexivity].
    right. rewrite E. destruct (negb (String.eqb i "")); auto.
  - auto.
  - auto.
  - auto.
Qed.

Lemma tutorial_trigger_range (a : GameAction) (z : Z) :
  tutorial_trigger a = Some z -> (0 <= z <= 2)%Z.
Proof.
  destruct a as [e| | | |[i|]|payload|nodeId img|value]; simpl;
    try discriminate; try (intros H; injection H as <-; lia).
  destruct (String.eqb i "tutorial_planet"); [|discriminate].
  intros H; injection H as <-; lia.
Qed.

(** X25: the tutorial only advances.  An action of the command surface
    either leaves the tutorial step alone or raises it by one, and it raises
    it only when the action is the one the current step waits for (steps 0, 1
    and 2).  So along any sequence of actions the step never decreases, never
    passes 3 unless it started beyond, and a finished (negative) or completed
    (3 or more) tutorial is never touched. *)
Theorem tutorial_only_advances :
  forall (actions : list GameAction) (s : GameState),
    let s' := reduce actions s in
    (tutorialStep s <= tutorialStep s' <= Z.max (tutorialStep s) 3)%Z
    /\ ((tutorialStep s < 0 \/ 3 <= tutorialStep s)%Z ->
        tutorialStep s' = tutorialStep s)
    /\ (forall a, actions = [a] -> tutorialStep s' <> tutorialStep s ->
                  tutorial_trigger a = Some (tutorialStep s)
                  /\ tutorialStep s' = (tutorialStep s + 1)%Z).
Proof.
  intros actions s s'. subst s'. split; [|split].
  - revert s. induction actions as [|a r IH]; intros s; [simpl; lia|].
    cbn [reduce fold_left]. fold (reduce r (gameReducer s a)).
    specialize (IH (gameReducer s a)).
    destruct (tutorial_step_of_action s a) as [E|[Ht E]].
    + rewrite E in IH. exact IH.
    + apply tutorial_trigger_range in Ht. rewrite E in IH. lia.
  - revert s. induction actions as [|a r IH]; intros s H; [reflexivity|].
    cbn [reduce fold_left]. fold (reduce r (gameReducer s a)).
    destruct (tutorial_step_of_action s a) as [E|[Ht E]].
    + rewrite IH; rewrite E; [reflexivity|exact H].
    + apply tutorial_trigger_range in Ht. lia.
  - intros a -> H. cbn [reduce fold_left] in *.
    destruct (tutorial_step_of_action s a) as [E|[Ht E]]; [contradiction|auto].
Qed.





(** * The further statements at concrete inputs *)

Lemma example_ids_distinct : unique_ids (nodes shielded_state).
Proof.
  unfold unique_ids. simpl.
  repeat (apply NoDup_cons; [simpl; intuition discriminate|]). apply NoDup_nil.
Qed.

Lemma node_on_cooldown_is_never_hit_witness :
  unique_ids (nodes shielded_state)
  /\ In shield_star (nodes shielded_state)
  /\ 0 < Node.integrityCooldown shield_star
  /\ exists n', In n' (nodes (ticks [example_env; example_env] shielded_state))
                /\ body n' = body shield_star.
Proof.
  assert (H1 : unique_ids (nodes shielded_state)) by exact example_ids_distinct.
  assert (H2 : In shield_star (nodes shielded_state))
    by (simpl; right; left; reflexivity).
  assert (H3 : 0 < Node.integrityCooldown shield_star) by (simpl; lra).
  split; [exact H1|]. split; [exact H2|]. split; [exact H3|].
  exact (node_on_cooldown_is_never_hit [example_env; example_env] shielded_state
           shield_star H1 H2 H3).
Defined.

Lemma reachable_states_have_one_player_witness :
  reachable (gameReducer (initialState (fun _ => None)) (TICK example_env))
  /\ one_player
       (nodes (gameReducer (initialState (fun _ => None)) (TICK example_env))).
Proof.
  assert (H : reachable (gameReducer (initialState (fun _ => None))
                           (TICK example_env)))
    by (apply reachable_step, reachable_initial).
  split; [exact H|].
  exact (reachable_states_have_one_player _ H).
Defined.

Lemma launch_sets_velocity_witness :
  playerState_of power_state = AIMING_POWER
  /\ find_player (nodes power_state) = Some rest_player
  /\ playerState_of (gameReducer power_state LAUNCH_PLAYER) = PROJECTING
  /\ turnHitIds (gameReducer power_state LAUNCH_PLAYER) = [].
Proof.
  assert (H1 : playerState_of power_state = AIMING_POWER) by reflexivity.
  assert (H2 : find_player (nodes power_state) = Some rest_player) by reflexivity.
  split; [exact H1|]. split; [exact H2|].
  pose proof (launch_sets_velocity power_state rest_player H1 H2)
    as (_ & _ & Ha & _ & _ & Hb & _).
  split; [exact Ha|exact Hb].
Defined.

Lemma reform_lasts_its_timer_witness :
  isPaused reforming_state = false
  /\ playerState_of reforming_state = REFORMING
  /\ find_player (nodes reforming_state) = Some rest_player
  /\ playerState_of (ticks [example_env] reforming_state) = IDLE.
Proof.
  assert (H1 : isPaused reforming_state = false) by reflexivity.
  assert (H2 : playerState_of reforming_state = REFORMING) by reflexivity.
  assert (H3 : find_player (nodes reforming_state) = Some rest_player)
    by reflexivity.
  split; [exact H1|]. split; [exact H2|]. split; [exact H3|].
  apply (proj2 (reform_lasts_its_timer [example_env] reforming_state rest_player
                  H1 H2 H3)).
  - discriminate.
  - simpl. lra.
Defined.

Lemma flying_player_touches_nothing :
  first_contact rest_player (nodes flying_state) 0 = None.
Proof.
  assert (Hp : in_contact rest_player rest_planet = false)
    by (apply in_contact_false; unfold rest_player, rest_planet; simpl; lra).
  assert (Hs : in_contact rest_player rest_star = false)
    by (apply in_contact_false; unfold rest_player, rest_star; simpl; lra).
  unfold flying_state, example_state, example_nodes.
  cbn [nodes first_contact].
  change (String.eqb (Node.id rest_player) (Node.id rest_player)) with true.
  rewrite Hp, Hs. reflexivity.
Qed.

Lemma rest_player_speed : speed rest_player = 0.
Proof.
  unfold speed, rest_player. simpl.
  destruct (hypot_axis 0 (Rle_refl 0)) as [H _]. exact H.
Qed.

Lemma projecting_without_contact_witness :
  isPaused flying_state = false
  /\ playerState_of flying_state = PROJECTING
  /\ find_player (nodes flying_state) = Some rest_player
  /\ first_contact rest_player (nodes flying_state) 0 = None
  /\ speed rest_player < 0.8
  /\ playerState_of (tick example_env flying_state) = REFORMING
  /\ Proj.reformTimer (projection (tick example_env flying_state))
     = REFORM_DURATION.
Proof.
  assert (H1 : isPaused flying_state = false) by reflexivity.
  assert (H2 : playerState_of flying_state = PROJECTING) by reflexivity.
  assert (H3 : find_player (nodes flying_state) = Some rest_player) by reflexivity.
  assert (H4 : first_contact rest_player (nodes flying_state) 0 = None)
    by exact flying_player_touches_nothing.
  assert (H5 : speed rest_player < 0.8) by (rewrite rest_player_speed; lra).
  split; [exact H1|]. split; [exact H2|]. split; [exact H3|]. split; [exact H4|].
  split; [exact H5|].
  pose proof (proj1 (projecting_without_contact example_env flying_state
                       rest_player H1 H2 H3 H4) H5) as (Ha & Hb & _).
  split; [exact Ha|exact Hb].
Defined.

Lemma collision_sends_player_away_witness :
  find_player (mutableNodes (tick_locals shielded_state)) = Some shield_player
  /\ nth_error (mutableNodes (tick_locals shielded_state)) 1 = Some shield_star
  /\ String.eqb (Node.id shield_star) (Node.id shield_player) = false
  /\ exists p',
       find_player
         (mutableNodes
            (resolve_hit example_env shield_player 1 shield_star
               (tick_locals shielded_state))) = Some p'
       /\ body p' = body shield_player.
Proof.
  assert (H1 : find_player (mutableNodes (tick_locals shielded_state))
               = Some shield_player) by reflexivity.
  assert (H2 : nth_error (mutableNodes (tick_locals shielded_state)) 1
               = Some shield_star) by reflexivity.
  assert (H3 : String.eqb (Node.id shield_star) (Node.id shield_player) = false)
    by reflexivity.
  split; [exact H1|]. split; [exact H2|]. split; [exact H3|].
  destruct (collision_sends_player_away example_env shield_player 1 shield_star
              (tick_locals shielded_state) H1 H2 H3) as (p' & Ha & Hb & _).
  exists p'. split; [exact Ha|exact Hb].
Defined.

Lemma shield_star_is_destroyed : destroyed shield_star = true.
Proof.
  unfold destroyed. apply andb_true_iff. split; [|reflexivity].
  apply Rleb_true. unfold shield_star. simpl. lra.
Qed.

Lemma supernova_eruption_witness :
  Node.type shield_star = star
  /\ destroyed shield_star = true
  /\ energy (nextState (resolve_hit example_env shield_player 1 shield_star
                          (tick_locals shielded_state)))
     = energy (nextState (tick_locals shielded_state)) + 1000.
Proof.
  assert (H1 : Node.type shield_star = star) by reflexivity.
  assert (H2 : destroyed shield_star = true) by exact shield_star_is_destroyed.
  split; [exact H1|]. split; [exact H2|].
  exact (proj1 (supernova_eruption example_env shield_player 1 shield_star
                  (tick_locals shielded_state) H1 H2)).
Defined.

Lemma selected_target_locks_aim_witness :
  isPaused selecting_state = false
  /\ playerState_of selecting_state = AIMING_DIRECTION
  /\ find_player (nodes selecting_state) = Some rest_player
  /\ selectedNodeId selecting_state = Some "central_star"%string
  /\ "central_star"%string <> EmptyString
  /\ find (fun n => String.eqb (Node.id n) "central_star") (nodes selecting_state)
     = Some rest_star
  /\ Proj.aimAngle (projection (tick example_env selecting_state))
     = bearing rest_player rest_star.
Proof.
  assert (H1 : isPaused selecting_state = false) by reflexivity.
  assert (H2 : playerState_of selecting_state = AIMING_DIRECTION) by reflexivity.
  assert (H3 : find_player (nodes selecting_state) = Some rest_player)
    by reflexivity.
  assert (H4 : selectedNodeId selecting_state = Some "central_star"%string)
    by reflexivity.
  assert (H5 : "central_star"%string <> EmptyString) by discriminate.
  assert (H6 : find (fun n => String.eqb (Node.id n) "central_star")
                 (nodes selecting_state) = Some rest_star) by reflexivity.
  split; [exact H1|]. split; [exact H2|]. split; [exact H3|]. split; [exact H4|].
  split; [exact H5|]. split; [exact H6|].
  exact (proj1 (selected_target_locks_aim example_env selecting_state rest_player
                  rest_star "central_star" H1 H2 H3 H4 H5 H6)).
Defined.

Lemma free_aim_rotates_steadily_witness :
  isPaused free_aim_state = false
  /\ playerState_of free_aim_state = AIMING_DIRECTION
  /\ find_player (nodes free_aim_state) = Some rest_player
  /\ selectedNodeId free_aim_state = None
  /\ aimAssist free_aim_state = false
  /\ Proj.aimAngle (projection (ticks [example_env; example_env] free_aim_state))
     = Proj.aimAngle (projection free_aim_state) + AIM_ROTATION_SPEED * INR 2.
Proof.
  assert (H1 : isPaused free_aim_state = false) by reflexivity.
  assert (H2 : playerState_of free_aim_state = AIMING_DIRECTION) by reflexivity.
  assert (H3 : find_player (nodes free_aim_state) = Some rest_player)
    by reflexivity.
  assert (H4 : selectedNodeId free_aim_state = None) by reflexivity.
  assert (H5 : aimAssist free_aim_state = false) by reflexivity.
  split; [exact H1|]. split; [exact H2|]. split; [exact H3|]. split; [exact H4|].
  split; [exact H5|].
  exact (proj1 (free_aim_rotates_steadily [example_env; example_env]
                  free_aim_state rest_player H1 H2 H3 H4 H5)).
Defined.

Lemma dust_population_is_kept_witness :
  NoDup (map Dust.id (spaceDust dusty_state))
  /\ List.length (spaceDust (tick example_env dusty_state)) = 2%nat.
Proof.
  assert (H : NoDup (map Dust.id (spaceDust dusty_state))).
  { simpl. repeat (apply NoDup_cons; [simpl; intuition discriminate|]).
    apply NoDup_nil. }
  split; [exact H|].
  exact (dust_population_is_kept example_env dusty_state H).
Defined.

Lemma effects_ledger_after_tick_witness :
  isPaused world_at_rest = false
  /\ Forall (fun v => 0 < VisualEffect.life v)
       (visualEffects (tick example_env world_at_rest)).
Proof.
  assert (H : isPaused world_at_rest = false) by reflexivity.
  split; [exact H|].
  pose proof (effects_ledger_after_tick example_env world_at_rest H)
    as (_ & _ & Ha & _).
  exact Ha.
Defined.

Lemma container_click_deselects_first_witness :
  playerState_of selected_idle_state = IDLE
  /\ selectedNodeId selected_idle_state = Some "central_star"%string
  /\ "central_star"%string <> EmptyString
  /\ selectedNodeId
       (dispatch selected_idle_state
          (handleContainerClick true false selected_idle_state)) = None.
Proof.
  assert (H1 : playerState_of selected_idle_state = IDLE) by reflexivity.
  assert (H2 : selectedNodeId selected_idle_state = Some "central_star"%string)
    by reflexivity.
  assert (H3 : "central_star"%string <> EmptyString) by discriminate.
  split; [exact H1|]. split; [exact H2|]. split; [exact H3|].
  exact (proj1 (container_click_deselects_first selected_idle_state
                  "central_star" H1 H2 H3)).
Defined.

Lemma createSpaceDust_spec_witness :
  (forall j, 0 <= rnd example_env j < 1)
  /\ 0 <= 2000
  /\ List.length (createSpaceDust example_env 0 80 2000 2000) = 80%nat
  /\ NoDup (map Dust.id (createSpaceDust example_env 0 80 2000 2000)).
Proof.
  assert (H1 : forall j, 0 <= rnd example_env j < 1) by (intros j; simpl; lra).
  assert (H2 : 0 <= 2000) by lra.
  split; [exact H1|]. split; [exact H2|].
  pose proof (createSpaceDust_spec example_env 0 80 2000 2000 H1 H2 H2)
    as (Ha & Hb & _).
  split; [exact Ha|exact Hb].
Defined.

Lemma view_scale_stays_in_range_witness :
  Forall cam_event_ok example_events
  /\ cam_in_range (cam_run example_events (Cam.init 0.4)).
Proof.
  assert (H : Forall cam_event_ok example_events).
  { unfold example_events.
    repeat (apply Forall_cons; [simpl; try exact I; lra|]). apply Forall_nil. }
  split; [exact H|].
  exact (view_scale_stays_in_range example_events H).
Defined.

Lemma retry_settles_at_first_answer_witness :
  ((forall j, (j < 2)%nat -> Retry.rate_limited (flaky_operation j) = true)
   /\ Retry.settled (Retry.retryWithBackoff None flaky_operation None)
      = Retry.Returns (Some 7%Z)
   /\ Retry.attempts (Retry.retryWithBackoff None flaky_operation None) = 3%nat)
  /\ ((forall j, (j < 0)%nat -> Retry.rate_limited (broken_operation j) = true)
      /\ Retry.settled (Retry.retryWithBackoff None broken_operation (Some 0%Z))
         = Retry.Throws).
Proof.
  assert (H : forall j, (j < 2)%nat ->
                        Retry.rate_limited (flaky_operation j) = true).
  { intros j Hj. destruct j as [|[|j]]; [reflexivity|reflexivity|lia]. }
  assert (H0 : forall j, (j < 0)%nat ->
                         Retry.rate_limited (broken_operation j) = true)
    by (intros j Hj; lia).
  assert (Hk : (2 < 5)%nat) by lia.
  assert (Hk0 : (0 < 5)%nat) by lia.
  split.
  - split; [exact H|].
    pose proof (proj1 (retry_settles_at_first_answer Z None flaky_operation None
                         2 H) Hk 7%Z eq_refl) as (Ha & Hb & _).
    split; [exact Ha|exact Hb].
  - split; [exact H0|].
    exact (proj1 (proj1 (proj2 (retry_settles_at_first_answer Z None
                                  broken_operation (Some 0%Z) 0 H0))
                    Hk0 eq_refl)).
Defined.

Lemma update_node_image_edge_cases_witness :
  (forall n, In n (nodes world_at_rest) -> Node.id n <> "nowhere"%string)
  /\ gameReducer world_at_rest (UPDATE_NODE_IMAGE "nowhere" None) = world_at_rest.
Proof.
  assert (H : forall n, In n (nodes world_at_rest) -> Node.id n <> "nowhere"%string).
  { intros n [<-|[<-|[<-|[]]]]; discriminate. }
  split; [exact H|].
  exact (proj1 (update_node_image_edge_cases world_at_rest "nowhere" None) H).
Defined.

Lemma clicks_follow_the_state_machine_witness :
  playerState_of world_at_rest = IDLE
  /\ find_player (nodes world_at_rest) = Some rest_player
  /\ let s1 := dispatch world_at_rest (handlePlayerInteraction world_at_rest) in
     let s2 := dispatch s1 (handlePlayerInteraction s1) in
     let s3 := dispatch s2 (handlePlayerInteraction s2) in
     playerState_of s3 = PROJECTING.
Proof.
  assert (H1 : playerState_of world_at_rest = IDLE) by reflexivity.
  assert (H2 : find_player (nodes world_at_rest) = Some rest_player) by reflexivity.
  split; [exact H1|]. split; [exact H2|].
  pose proof (proj2 (proj2 (clicks_follow_the_state_machine world_at_rest))
                rest_player H1 H2) as (_ & _ & H).
  exact H.
Defined.

Lemma camera_director_target_witness :
  find_player (nodes world_at_rest) = Some rest_player
  /\ playerState_of world_at_rest = IDLE
  /\ cameraDirector (A := R * R * R) None world_at_rest = None
  /\ exists tx ty sc,
       cameraDirector (Some (fun a b c => (a, b, c))) world_at_rest
       = Some (tx, ty, sc)
       /\ 0.6 <= sc <= 1.6
       /\ tx = - Node.x rest_player * sc /\ ty = - Node.y rest_player * sc.
Proof.
  assert (H1 : find_player (nodes world_at_rest) = Some rest_player)
    by reflexivity.
  assert (H2 : playerState_of world_at_rest = IDLE) by reflexivity.
  split; [exact H1|]. split; [exact H2|].
  destruct (camera_director_target (R * R * R) world_at_rest) as (Hn & Hc & _).
  split; [exact Hn|].
  destruct (proj2 (Hc (fun a b c => (a, b, c))) rest_player H1)
    as (tx & ty & sc & Ha & Hb & _ & Hd).
  exists tx, ty, sc. split; [exact Ha|]. split; [exact Hb|].
  exact (Hd (or_introl H2)).
Defined.

Lemma camera_frame_approaches_target_witness :
  let target := {| Cam.x := 0; Cam.y := 0; Cam.scale := 1 |} in
  let prev := {| Cam.x := 10; Cam.y := 0; Cam.scale := 1 |} in
  ~ (Rabs (Cam.x target - Cam.x prev) < 0.1
     /\ Rabs (Cam.y target - Cam.y prev) < 0.1
     /\ Rabs (Cam.scale target - Cam.scale prev) < 0.001)
  /\ Rabs (Cam.x target - Cam.x (Cam.lerp target prev))
     = 0.92 * Rabs (Cam.x target - Cam.x prev).
Proof.
  intros target prev.
  assert (H : ~ (Rabs (Cam.x target - Cam.x prev) < 0.1
                 /\ Rabs (Cam.y target - Cam.y prev) < 0.1
                 /\ Rabs (Cam.scale target - Cam.scale prev) < 0.001)).
  { intros [A _]. subst target prev. simpl in A.
    rewrite Rabs_left in A by lra. lra. }
  split; [exact H|].
  exact (proj1 (proj1 (proj2 (camera_frame_approaches_target target prev)) H)).
Defined.

Lemma tutorial_only_advances_witness :
  tutorialStep (reduce [START_AIMING] (set_tutorialStep 0 world_at_rest))
  <> tutorialStep (set_tutorialStep 0 world_at_rest)
  /\ tutorialStep (reduce [START_AIMING] (set_tutorialStep 0 world_at_rest))
     = (tutorialStep (set_tutorialStep 0 world_at_rest) + 1)%Z.
Proof.
  assert (H : tutorialStep (reduce [START_AIMING] (set_tutorialStep 0 world_at_rest))
              <> tutorialStep (set_tutorialStep 0 world_at_rest))
    by (simpl; discriminate).
  split; [exact H|].
  exact (proj2 (proj2 (proj2 (tutorial_only_advances [START_AIMING]
                                (set_tutorialStep 0 world_at_rest)))
                  START_AIMING eq_refl H)).
Defined.


